(** * Patch engine, validator and repair loop of the coding agent

    A shallow embedding of [src/shared/diff_manager.py] (class
    [DiffManager]) and of [CodeAgentService.check_code] and
    [CodeAgentService.validate_and_fix] from [src/code_agent/service.py],
    with the properties of the design document stated over it.

    Text is modelled as [string].  A character of the model is a code
    point: the model has the 256 code points U+0000 to U+00FF and covers
    the texts written with them, so [String.length] is [len], [Str.take]
    and [Str.drop] are slices, and substring search, counting and
    replacement are those of [str].  A file holds text, which is its
    content decoded as UTF-8, with the line ends as they are on disk;
    reading in text mode translates them ([Str.universal_newlines]) and
    writing leaves them as they are ([os.linesep] is a line feed, the
    paths are POSIX paths).

    The session runs in a [world]: the regular files of the workspace,
    the calls of [repo_git.index.add], and what is printed.  The
    collaborators of the service ([os.path.join], [compile], the [ruff]
    subprocess and [llm_client.fix_code]) are fields of the [service]
    record, so every statement holds for all of them.

    Printing succeeds, a collaborator that is called returns or raises,
    and nothing but the session changes the workspace while it runs.

    The session is given twice.  Module [Service] has it on a system on
    which every call of the file system, of git and of the producer
    succeeds, every path is the name of its file and every file is UTF-8
    text.  Module [Run] has it on any [system]: a call can raise, which
    ends the session with the exception; two paths can lead to one file;
    something that is not a regular file can be at a path; a file can
    hold bytes that are not UTF-8; and the locale decides how a file is
    decoded when it is opened without an encoding.  On a system of the
    first kind the two agree ([RunFacts.ideal_validate_and_fix]). *)

From Stdlib Require Import String Ascii ZArith Lia Bool.
From Stdlib Require Import Numbers.DecimalString.
From stdpp Require Import gmap strings list.

Local Open Scope nat_scope.

(** ** Python string operations *)

Module Str.

(** [s.startswith(p)] *)
Fixpoint has_prefix (p s : string) : bool :=
  match p, s with
  | EmptyString, _ => true
  | String a p', String b s' => if Ascii.eqb a b then has_prefix p' s' else false
  | String _ _, EmptyString => false
  end.

(** [s[n:]] *)
Fixpoint drop (n : nat) (s : string) : string :=
  match n, s with
  | S k, String _ s' => drop k s'
  | _, _ => s
  end.

(** [s[:n]] *)
Fixpoint take (n : nat) (s : string) : string :=
  match n, s with
  | S k, String c s' => String c (take k s')
  | _, _ => EmptyString
  end.

(** [s.endswith(suf)] *)
Definition has_suffix (suf s : string) : bool :=
  (String.length suf <=? String.length s)
  && String.eqb (drop (String.length s - String.length suf) s) suf.

(** [s.find(sub)]: index of the leftmost occurrence, [None] for -1. *)
Fixpoint find (sub s : string) : option nat :=
  if has_prefix sub s then Some 0
  else match s with
       | EmptyString => None
       | String _ s' => option_map S (find sub s')
       end.

(** [sub in s] *)
Definition contains (sub s : string) : bool :=
  match find sub s with Some _ => true | None => false end.

(** The scan of [s.count(sub)] for a non-empty [sub]: occurrences are
    counted from the left and do not overlap; [skip] characters still
    belong to the occurrence counted last. *)
Fixpoint count_from (sub s : string) (skip : nat) : nat :=
  match s with
  | EmptyString => 0
  | String _ s' =>
      match skip with
      | S k => count_from sub s' k
      | 0 => if has_prefix sub s
             then S (count_from sub s' (String.length sub - 1))
             else count_from sub s' 0
      end
  end.

(** [s.count(sub)]; the empty string is counted [len(s) + 1] times, once
    before every character (code point) and once at the end. *)
Definition count (sub s : string) : nat :=
  match sub with
  | EmptyString => String.length s + 1
  | String _ _ => count_from sub s 0
  end.

(** [s.replace(old, new, 1)]: only the leftmost occurrence is replaced. *)
Definition replace_first (old new s : string) : string :=
  match find old s with
  | Some i => take i s +:+ new +:+ drop (i + String.length old) s
  | None => s
  end.

(** Every offset at which [sub] occurs in [s], overlapping occurrences
    included. *)
Definition occurrences (sub s : string) : list nat :=
  List.filter (fun k => has_prefix sub (drop k s)) (seq 0 (S (String.length s))).

(** Whether [a] and [b] have a character in common. *)
Definition common_char (a b : string) : bool :=
  existsb (fun c => existsb (Ascii.eqb c) (list_ascii_of_string b)) (list_ascii_of_string a).

(** [str.isspace] for the code points below 256: U+0009 to U+000D, U+001C
    to U+0020, U+0085 and U+00A0. *)
Definition is_space (c : ascii) : bool :=
  let n := nat_of_ascii c in
  ((9 <=? n) && (n <=? 13)) || ((28 <=? n) && (n <=? 32)) || (n =? 133) || (n =? 160).

Fixpoint lstrip (s : string) : string :=
  match s with
  | EmptyString => EmptyString
  | String c s' => if is_space c then lstrip s' else s
  end.

Fixpoint rstrip (s : string) : string :=
  match s with
  | EmptyString => EmptyString
  | String c s' =>
      match rstrip s' with
      | EmptyString => if is_space c then EmptyString else String c EmptyString
      | r => String c r
      end
  end.

(** [s.strip()] *)
Definition strip (s : string) : string := rstrip (lstrip s).

(** [str(n)] for a non-negative integer. *)
Definition of_nat (n : nat) : string := NilEmpty.string_of_uint (Nat.to_uint n).

(** What [f.read()] gives for a file opened in text mode with the default
    [newline=None]: every carriage return followed by a line feed, and
    every other carriage return, is a line feed. *)
Fixpoint universal_newlines (s : string) : string :=
  match s with
  | EmptyString => EmptyString
  | String c s' =>
      if Ascii.eqb c "013"
      then match s' with
           | String "010" s'' => String "010" (universal_newlines s'')
           | _ => String "010" (universal_newlines s')
           end
      else String c (universal_newlines s')
  end.

End Str.

(** ** [re.compile(r'<<<<<< SEARCH\n(.*?)\n======\n(.*?)\n>>>>>> REPLACE', re.DOTALL)] *)

Module Regex.

Definition NL : string := String "010"%char EmptyString.

Definition SEARCH_MARKER : string := "<<<<<< SEARCH".

Definition OPEN : string := Eval cbv in SEARCH_MARKER +:+ NL.
Definition SEP : string := Eval cbv in NL +:+ "======" +:+ NL.
Definition CLOSE : string := Eval cbv in NL +:+ ">>>>>> REPLACE".

(** A literal of the pattern, matched at the head of [s]; the result is
    the text after it. *)
Definition lit (l s : string) : option string :=
  if Str.has_prefix l s then Some (Str.drop (String.length l) s) else None.

(** A lazy group [(.*?)] under [DOTALL], followed by the rest of the
    pattern [k]: the group [g] starts empty and takes one more character
    (any character) each time the rest fails to match. *)
Fixpoint lazy_group {A} (k : string -> string -> option A) (g s : string) : option A :=
  match k g s with
  | Some r => Some r
  | None =>
      match s with
      | EmptyString => None
      | String c s' => lazy_group k (g +:+ String c EmptyString) s'
      end
  end.

(** The whole pattern matched at the head of [s]: the two groups and the
    text after the match. *)
Definition match_here (s : string) : option (string * string * string) :=
  match lit OPEN s with
  | None => None
  | Some s1 =>
      lazy_group (fun g1 s2 =>
        match lit SEP s2 with
        | None => None
        | Some s3 =>
            lazy_group (fun g2 s4 =>
              match lit CLOSE s4 with
              | None => None
              | Some s5 => Some (g1, g2, s5)
              end) EmptyString s3
        end) EmptyString s1
  end.

(** [pattern.finditer(s)], as the list of [(group(1), group(2))]: the
    leftmost match is taken, and the scan goes on at the end of it.
    [skip] characters still belong to the match found last. *)
Fixpoint finditer_from (s : string) (skip : nat) : list (string * string) :=
  match s with
  | EmptyString => []
  | String _ s' =>
      match skip with
      | S k => finditer_from s' k
      | 0 =>
          match match_here s with
          | Some (g1, g2, rest) =>
              (g1, g2) :: finditer_from s' (String.length s' - String.length rest)
          | None => finditer_from s' 0
          end
      end
  end.

Definition finditer (s : string) : list (string * string) := finditer_from s 0.

End Regex.

(** ** [DiffManager] *)

Module DiffManager.

(** The two [ValueError]s of [apply_diff]. *)
Inductive patch_error : Type :=
| NotFound (search_block : string)
| Ambiguous (count : nat).

(** The text of the [ValueError]. *)
Definition message (e : patch_error) : string :=
  match e with
  | Ambiguous c => "Search block matches " +:+ Str.of_nat c +:+ " times. Ambiguous update."
  | NotFound sb => "Search block not found in content:" +:+ Regex.NL +:+ sb
  end.

Inductive result : Type :=
| Returns (content : string)
| Raises (e : patch_error).

(** The [for match in matches] loop. *)
Fixpoint apply_blocks (modified_content : string) (matches : list (string * string)) : result :=
  match matches with
  | [] => Returns modified_content
  | (search_block, replace_block) :: rest =>
      if Str.contains search_block modified_content then
        let count := Str.count search_block modified_content in
        if 1 <? count then Raises (Ambiguous count)
        else apply_blocks (Str.replace_first search_block replace_block modified_content) rest
      else Raises (NotFound search_block)
  end.

Definition apply_diff (original_content diff_content : string) : result :=
  let matches := Regex.finditer diff_content in
  match matches with
  | [] =>
      if negb (Str.contains Regex.SEARCH_MARKER diff_content)
      then Returns diff_content
      else Returns original_content
  | _ :: _ => apply_blocks original_content matches
  end.

(** The content the next block is matched against: every earlier block
    has replaced the leftmost occurrence of its search text. *)
Definition accumulated (original_content : string) (blocks : list (string * string)) : string :=
  fold_left (fun content b => Str.replace_first (fst b) (snd b) content) blocks original_content.

End DiffManager.


(** ** Values carried by a ChangeSet

    The change producer answers with parsed JSON, so a payload can be any
    JSON value, not only the [str] of the annotation [Dict[str, str]]. *)

#[local] Set Warnings "-register-all".

Inductive pyval : Type :=
| PyNone
| PyBool (b : bool)
| PyInt (z : Z)
| PyStr (s : string)
| PyList (l : list pyval)
| PyDict (d : list (string * pyval)).

(** A Python [dict] with string keys: keys are unique and keep the order in
    which they were first inserted, which is the order of [items()]. *)

Module Dict.

Fixpoint get {V} (k : string) (d : list (string * V)) : option V :=
  match d with
  | [] => None
  | (k', v) :: d' => if String.eqb k k' then Some v else get k d'
  end.

(** [d[k] = v] *)
Fixpoint set {V} (k : string) (v : V) (d : list (string * V)) : list (string * V) :=
  match d with
  | [] => [(k, v)]
  | (k', v') :: d' => if String.eqb k k' then (k, v) :: d' else (k', v') :: set k v d'
  end.

(** [d.update(other)] *)
Definition update {V} (d other : list (string * V)) : list (string * V) :=
  fold_left (fun acc kv => set (fst kv) (snd kv) acc) other d.

Definition keys {V} (d : list (string * V)) : list string := map fst d.

End Dict.

(** ** [CodeAgentService] *)

Module Service.

Import DiffManager.

(** What the [try] block of [check_code] does for a file that is there:
    it reads the file and compiles the text; [RaisesOnCompile] is for an
    exception other than [SyntaxError], of the reading or of [compile]. *)
Inductive compile_outcome : Type :=
| Compiles
| RaisesSyntaxError (e : string)
| RaisesOnCompile (e : string).

(** What [subprocess.run(["ruff", "check", "--select", "E,F", filename],
    capture_output=True, text=True, shell=False)] does. *)
Inductive run_outcome : Type :=
| Completed (returncode : Z) (stdout : string)
| RaisesFileNotFoundError
| RaisesOnRun (e : string).

(** The service object and the collaborators it calls: the workspace root,
    [os.path.join], the Python compiler, the style checker and
    [llm_client.fix_code].  The compiler is given the text read from the
    file and the style checker reads the file it is given, so their
    outcomes are functions of the path and of the content on disk; the
    producer's answer may differ from one request to the next, so it also
    takes the number of the request. *)
Record service : Type := {
  local_repo_path : string;
  os_path_join : string -> string -> string;
  py_compile : string -> string -> compile_outcome;
  ruff_check : string -> string -> run_outcome;
  fix_code : nat -> list (string * pyval) -> string -> list (string * pyval)
}.

(** What the session prints and does, in order: the lines printed from
    line 98 on, with the write that follows [Writing ...], the call of
    [index.add] ([Staged]) and the call of [llm_client.fix_code]
    ([RequestingFixes], with its arguments).  [DiffError] and [ReadError]
    are the line [Error applying diff to ...] of line 135, for the
    [ValueError] of [apply_diff] and for one of the reading.  The heading
    printed before the loop and the line [Requesting fixes from LLM...]
    are not kept. *)
Inductive event : Type :=
| Attempt (n max_retries : nat)
| Processing (filename : string)
| SkippingNoContentKey (filename : string)
| SkippingNotString (filename : string)
| DiffError (filename : string) (e : patch_error)
| ReadError (filename message : string)
| Writing (filename full_path content : string)
| Warning (msg : string)
| ValidationFailed (filename error : string)
| Staged (filename : string)
| ValidationPassed
| MaxRetriesReached
| RequestingFixes (current_broken_code : list (string * pyval)) (error_report : string).

(** The workspace, the files added to the git index, and the output so
    far.  [fs] has the regular files with the text they hold, one entry
    for every file: under the path of the file in [Service], where every
    path is the name of its file, and under [Run.node] of its paths in
    [Run]. *)
Record world : Type := {
  fs : gmap string string;
  index : list string;
  out : list event
}.

Definition emit (e : event) (w : world) : world :=
  {| fs := fs w; index := index w; out := out w ++ [e] |}.

Definition emit_all (es : list event) (w : world) : world :=
  {| fs := fs w; index := index w; out := out w ++ es |}.

(** The file [full_path] now holds [content]; whether the write succeeds,
    and which file a path leads to, is decided where it is called. *)
Definition write_file (full_path content : string) (w : world) : world :=
  {| fs := <[full_path := content]> (fs w); index := index w; out := out w |}.

Definition index_add (filename : string) (w : world) : world :=
  {| fs := fs w; index := index w ++ [filename]; out := out w |}.

(** Truth value of an [Optional[str]] and of a [str]. *)
Definition truthy (s : string) : bool :=
  match s with EmptyString => false | String _ _ => true end.

Definition truthy_opt (o : option string) : bool :=
  match o with Some s => truthy s | None => false end.

(** The text of the [OSError] of [open] on a path that has no file. *)
Definition no_such_file (filename : string) : string :=
  "[Errno 2] No such file or directory: '" +:+ filename +:+ "'".

(** [check_code]: the error message or [None], and the warnings printed. *)
Definition check_code (self : service) (files : gmap string string) (filename : string)
  : option string * list event :=
  if negb (Str.has_suffix ".py" filename) then (None, [])
  else
    match files !! filename with
    | None =>
        (Some ("Error reading/compiling " +:+ filename +:+ ": " +:+ no_such_file filename), [])
    | Some source =>
        match py_compile self source filename with
        | RaisesSyntaxError e => (Some ("SyntaxError in " +:+ filename +:+ ": " +:+ e), [])
        | RaisesOnCompile e => (Some ("Error reading/compiling " +:+ filename +:+ ": " +:+ e), [])
        | Compiles =>
            match ruff_check self filename source with
            | Completed returncode stdout =>
                if negb (returncode =? 0)%Z then
                  if truthy (Str.strip stdout)
                  then (Some ("Linter Errors in " +:+ filename +:+ ":" +:+ Regex.NL +:+ stdout), [])
                  else (None, [])
                else (None, [])
            | RaisesFileNotFoundError =>
                (None, [Warning ("Warning: ruff not found, skipping lint check for " +:+ filename)])
            | RaisesOnRun e =>
                (None, [Warning ("Warning: Error running linter on " +:+ filename +:+ ": " +:+ e)])
            end
        end
    end.

(** Lines 114-127 of [validate_and_fix]: the payload as the string to
    apply, after the one-level unwrap of a dict with a ["content"] key. *)
Inductive resolved : Type :=
| FinalContent (s : string)
| NoContentKey
| NotString.

Definition resolve_content (content : pyval) : resolved :=
  let unwrapped :=
    match content with
    | PyDict d =>
        match Dict.get "content" d with
        | Some v => Some v
        | None => None
        end
    | v => Some v
    end in
  match unwrapped with
  | None => NoContentKey
  | Some (PyStr s) => FinalContent s
  | Some _ => NotString
  end.

(** The body of [for filename, content in changes.items()], on a system
    on which [os.makedirs], [open], [f.read], [f.write] and [index.add] do
    not raise and every path is the name of its file. *)
Definition process_entry (self : service)
    (acc : world * list (string * string)) (entry : string * pyval)
  : world * list (string * string) :=
  let '(w, files_with_errors) := acc in
  let '(filename, content) := entry in
  let w := emit (Processing filename) w in
  let full_path := os_path_join self (local_repo_path self) filename in
  match resolve_content content with
  | NoContentKey => (emit (SkippingNoContentKey filename) w, files_with_errors)
  | NotString => (emit (SkippingNotString filename) w, files_with_errors)
  | FinalContent final_content =>
      let patched :=
        if Str.contains Regex.SEARCH_MARKER final_content then
          match fs w !! full_path with
          | Some original => apply_diff (Str.universal_newlines original) final_content
          | None => Returns final_content
          end
        else Returns final_content in
      match patched with
      | Raises e =>
          (emit (DiffError filename e) w,
           files_with_errors ++ [(filename, "Diff Application Error: " +:+ message e)])
      | Returns final_content =>
          let w := write_file full_path final_content
                     (emit (Writing filename full_path final_content) w) in
          let '(error, warnings) := check_code self (fs w) full_path in
          let w := emit_all warnings w in
          match error with
          | Some e =>
              if truthy e
              then (emit (ValidationFailed filename e) w, files_with_errors ++ [(filename, e)])
              else (emit (Staged filename) (index_add filename w), files_with_errors)
          | None => (emit (Staged filename) (index_add filename w), files_with_errors)
          end
      end
  end.

(** Step 1 and 2 of one attempt: every entry of [changes], in order. *)
Definition apply_changes (self : service) (changes : list (string * pyval)) (w : world)
  : world * list (string * string) :=
  fold_left (process_entry self) changes (w, []).

Definition error_report (files_with_errors : list (string * string)) : string :=
  fold_left
    (fun report fe =>
       report +:+ "File: " +:+ fst fe +:+ Regex.NL +:+ "Error: " +:+ snd fe +:+ Regex.NL)
    files_with_errors
    ("The code has syntax or linter errors:" +:+ Regex.NL).

(** The failing files as they are read from disk, or as proposed when
    there is no such file; the locale decodes as UTF-8. *)
Definition current_broken_code (self : service) (w : world)
    (changes : list (string * pyval)) (files_with_errors : list (string * string))
  : list (string * pyval) :=
  fold_left
    (fun code fe =>
       let fname := fst fe in
       let full_path := os_path_join self (local_repo_path self) fname in
       match fs w !! full_path with
       | Some text => Dict.set fname (PyStr (Str.universal_newlines text)) code
       | None =>
           Dict.set fname
             (match Dict.get fname changes with Some v => v | None => PyStr "" end) code
       end)
    files_with_errors [].

(** One attempt: the announcement, then steps 1 and 2. *)
Definition attempt (self : service) (max_retries retry_count : nat)
    (changes : list (string * pyval)) (w : world) : world * list (string * string) :=
  apply_changes self changes (emit (Attempt (retry_count + 1) max_retries) w).

(** Step 4: the request to the producer and the merge of its answer, for
    a producer that answers with a dict; [retry_count] is already
    incremented. *)
Definition request_fixes (self : service) (retry_count : nat)
    (changes : list (string * pyval)) (w : world) (files_with_errors : list (string * string))
  : list (string * pyval) * world :=
  let report := error_report files_with_errors in
  let broken := current_broken_code self w changes files_with_errors in
  let fixed_changes := fix_code self retry_count broken report in
  (Dict.update changes fixed_changes, emit (RequestingFixes broken report) w).

(** [while retry_count < max_retries: ...] followed by [return False].
    [fuel] bounds the number of iterations; [None] is for a loop that is
    still running when the fuel is used up. *)
Fixpoint retry_loop (self : service) (fuel max_retries retry_count : nat)
    (changes : list (string * pyval)) (w : world) : option (bool * world) :=
  match fuel with
  | 0 => None
  | S fuel' =>
      if retry_count <? max_retries then
        let '(w, files_with_errors) := attempt self max_retries retry_count changes w in
        match files_with_errors with
        | [] => Some (true, emit ValidationPassed w)
        | _ :: _ =>
            let retry_count := retry_count + 1 in
            if max_retries <=? retry_count then Some (false, emit MaxRetriesReached w)
            else
              let '(changes, w) := request_fixes self retry_count changes w files_with_errors in
              retry_loop self fuel' max_retries retry_count changes w
        end
      else Some (false, w)
  end.

(** [validate_and_fix] with the local constant [max_retries] as a
    parameter. *)
Definition validate_and_fix_with (self : service) (max_retries : nat)
    (changes : list (string * pyval)) (w : world) : option (bool * world) :=
  match changes with
  | [] => Some (false, w)
  | _ :: _ => retry_loop self (S max_retries) max_retries 0 changes w
  end.

Definition validate_and_fix (self : service)
    (changes : list (string * pyval)) (w : world) : option (bool * world) :=
  validate_and_fix_with self 3 changes w.

(** *** Reading the output of a session *)

Definition is_attempt (e : event) : bool :=
  match e with Attempt _ _ => true | _ => false end.

(** A file marked as failed in its attempt: a patch error, a file that
    cannot be decoded, or a failed validation. *)
Definition is_failure (e : event) : bool :=
  match e with DiffError _ _ | ReadError _ _ | ValidationFailed _ _ => true | _ => false end.

(** The file names announced by [Processing file: ...]. *)
Definition processed (evs : list event) : list string :=
  flat_map (fun e => match e with Processing f => [f] | _ => [] end) evs.

(** The files that passed validation and were added to the index. *)
Definition staged (evs : list event) : list string :=
  flat_map (fun e => match e with Staged f => [f] | _ => [] end) evs.

(** Whether lines 114-127 let the payload through. *)
Definition applicable (content : pyval) : bool :=
  match resolve_content content with FinalContent _ => true | _ => false end.

(** The number of attempts announced. *)
Definition attempts_made (evs : list event) : nat :=
  List.length (List.filter is_attempt evs).

(** What was printed and done between two worlds. *)
Definition new_events (before after : world) : list event :=
  drop (List.length (out before)) (out after).

(** Whether an event writes or validates the file [filename]. *)
Definition touches (filename : string) (e : event) : bool :=
  match e with
  | Writing f _ _ | ValidationFailed f _ | Staged f => String.eqb f filename
  | _ => false
  end.

(** The events of the attempts that follow the current one. *)
Fixpoint later_attempts (evs : list event) : list event :=
  match evs with
  | [] => []
  | Attempt _ _ :: evs' => evs'
  | _ :: evs' => later_attempts evs'
  end.

(** Some file passes validation in one attempt and is written or validated
    again in a later attempt. *)
Fixpoint passed_then_touched (evs : list event) : bool :=
  match evs with
  | [] => false
  | Staged f :: evs' => existsb (touches f) (later_attempts evs') || passed_then_touched evs'
  | _ :: evs' => passed_then_touched evs'
  end.

(** The payload shapes that [validate_and_fix] applies: a string, or a dict
    whose ["content"] is a string. *)
Definition well_shaped (content : pyval) : Prop :=
  (exists s, content = PyStr s)
  \/ (exists d s, content = PyDict d /\ Dict.get "content" d = Some (PyStr s)).

End Service.
(** ** Concrete inputs used in the examples below *)

Module Inputs.

(** One edit block in the wire format. *)
Definition block (search replace : string) : string :=
  Regex.OPEN +:+ search +:+ Regex.SEP +:+ replace +:+ Regex.CLOSE.

(** The payload of [test_apply_diff_single_block]. *)
Definition single_block : string := Eval vm_compute in block "line2" "line2_modified".

Definition three_lines : string :=
  Eval vm_compute in "line1" +:+ Regex.NL +:+ "line2" +:+ Regex.NL +:+ "line3" +:+ Regex.NL.

(** A block that deletes its search text. *)
Definition delete_ab : string := Eval vm_compute in block "ab" "".

(** A start marker with nothing after it. *)
Definition marker_only : string := Eval vm_compute in Regex.OPEN +:+ "foo".

(** Two blocks, in both orders. *)
Definition x_then_aa : string := Eval vm_compute in block "x" "" +:+ Regex.NL +:+ block "aa" "c".
Definition aa_then_x : string := Eval vm_compute in block "aa" "c" +:+ Regex.NL +:+ block "x" "".

Definition line1_then_line4 : string :=
  Eval vm_compute in block "line1" "line1_mod" +:+ Regex.NL +:+ block "line4" "line4_mod".
Definition line4_then_line1 : string :=
  Eval vm_compute in block "line4" "line4_mod" +:+ Regex.NL +:+ block "line1" "line1_mod".

Definition four_lines : string :=
  Eval vm_compute in
    "line1" +:+ Regex.NL +:+ "line2" +:+ Regex.NL +:+ "line3" +:+ Regex.NL +:+ "line4" +:+ Regex.NL.

(** [posixpath.join] of two components. *)
Definition posix_join (a p : string) : string :=
  if Str.has_prefix "/" p then p
  else if String.eqb a "" || Str.has_suffix "/" a then a +:+ p
  else a +:+ "/" +:+ p.

(** A service whose compiler rejects the sources that contain [def bad(],
    whose style checker finds nothing, and whose producer answers every
    request with a new [b.py]. *)
Definition demo : Service.service := {|
  Service.local_repo_path := "workdir";
  Service.os_path_join := posix_join;
  Service.py_compile := fun source _ =>
    if Str.contains "def bad(" source
    then Service.RaisesSyntaxError "invalid syntax" else Service.Compiles;
  Service.ruff_check := fun _ _ => Service.Completed 0 "";
  Service.fix_code := fun _ _ _ => [("b.py", PyStr "print('b')")]
|}.

(** The same with a producer that never proposes a fix. *)
Definition stubborn : Service.service := {|
  Service.local_repo_path := "workdir";
  Service.os_path_join := posix_join;
  Service.py_compile := Service.py_compile demo;
  Service.ruff_check := Service.ruff_check demo;
  Service.fix_code := fun _ _ _ => []
|}.

Definition empty_world : Service.world :=
  {| Service.fs := ∅; Service.index := []; Service.out := [] |}.

(** A ChangeSet with one valid and one invalid Python file. *)
Definition good_and_bad : list (string * pyval) :=
  [("a.py", PyStr "print('a')"); ("b.py", PyStr "def bad(")].

(** The first end-to-end scenario of the design document. *)
Definition main_py : string :=
  Eval vm_compute in "def main():" +:+ Regex.NL +:+ "    print('Hello Workd')" +:+ Regex.NL.

Definition world_with_main : Service.world :=
  {| Service.fs := {[ "workdir/main.py" := main_py ]}; Service.index := []; Service.out := [] |}.

Definition typo_patch : string :=
  Eval vm_compute in block "print('Hello Workd')" "print('Hello World')".

Definition fix_typo : list (string * pyval) := [("main.py", PyStr typo_patch)].

(** What the session on [good_and_bad] prints and does with [demo]. *)
Definition good_and_bad_output : list Service.event :=
  [ Service.Attempt 1 3;
    Service.Processing "a.py";
    Service.Writing "a.py" "workdir/a.py" "print('a')";
    Service.Staged "a.py";
    Service.Processing "b.py";
    Service.Writing "b.py" "workdir/b.py" "def bad(";
    Service.ValidationFailed "b.py" "SyntaxError in workdir/b.py: invalid syntax";
    Service.RequestingFixes [("b.py", PyStr "def bad(")]
      (Service.error_report [("b.py", "SyntaxError in workdir/b.py: invalid syntax")]);
    Service.Attempt 2 3;
    Service.Processing "a.py";
    Service.Writing "a.py" "workdir/a.py" "print('a')";
    Service.Staged "a.py";
    Service.Processing "b.py";
    Service.Writing "b.py" "workdir/b.py" "print('b')";
    Service.Staged "b.py";
    Service.ValidationPassed ].

(** Payloads that are neither a string nor a dict with a ["content"] key:
    an integer, a list, and a dict without that key. *)
Definition odd_shapes : list (string * pyval) :=
  [ ("notes.txt", PyInt 42);
    ("data.json", PyList []);
    ("config.yaml", PyDict [("path", PyStr "config.yaml")]) ].

(** A workspace in which [a.py] holds three lines. *)
Definition world_with_a : Service.world :=
  {| Service.fs := {[ "workdir/a.py" := three_lines ]}; Service.index := []; Service.out := [] |}.

(** A style checker that exits with status 2 and prints nothing. *)
Definition silent_failure : Service.service := {|
  Service.local_repo_path := "workdir";
  Service.os_path_join := posix_join;
  Service.py_compile := fun _ _ => Service.Compiles;
  Service.ruff_check := fun _ _ => Service.Completed 2 "";
  Service.fix_code := fun _ _ _ => []
|}.

End Inputs.

(** ** Further readings of text and of a session *)

Module Text.

(** [s] is made of whitespace only (or is empty): [not s.strip()]. *)
Definition blank (s : string) : bool :=
  forallb Str.is_space (list_ascii_of_string s).

End Text.

Module Session.

Import Service.

Definition is_request (e : event) : bool :=
  match e with RequestingFixes _ _ => true | _ => false end.

(** The number of calls of [llm_client.fix_code]. *)
Definition requests_made (evs : list event) : nat :=
  List.length (List.filter is_request evs).

(** The output split at the announcements of the attempts: what precedes
    the first attempt, then one list for every attempt. *)
Fixpoint split_rounds (current : list event) (evs : list event) : list (list event) :=
  match evs with
  | [] => [current]
  | Attempt _ _ :: evs' => current :: split_rounds [] evs'
  | e :: evs' => split_rounds (current ++ [e]) evs'
  end.

(** The files that pass validation, attempt by attempt. *)
Definition passed_by_round (evs : list event) : list (list string) :=
  map staged (tail (split_rounds [] evs)).

(** The full path of a ChangeSet key. *)
Definition full_path (self : service) (filename : string) : string :=
  os_path_join self (local_repo_path self) filename.

End Session.

(** ** The session on any system

    [validate_and_fix] catches the [ValueError] of [apply_diff] and what
    [check_code] catches; an exception of any other call leaves it.  A
    [system] says which calls raise, which paths lead to the same file,
    and how the locale decodes. *)

Module Run.

Import DiffManager Service.

(** The calls of [validate_and_fix] whose exceptions it does not catch:
    [os.makedirs(dir_path, exist_ok=True)] (line 111), [open(full_path,
    'r', encoding='utf-8')] with [f.read()] (lines 131-132), [open(full_path,
    "w", encoding="utf-8")] with [f.write(final_content)] (lines 140-141),
    [repo_git.index.add([filename])] (line 149), [open(full_path, 'r')]
    with [f.read()] (lines 175-176), and [llm_client.fix_code] with
    [changes.update] (lines 181-184). *)
Inductive call : Type :=
| Makedirs (dir_path : string)
| ReadOriginal (full_path : string)
| WriteFile (full_path final_content : string)
| IndexAdd (filename : string)
| ReadBack (full_path : string)
| FixCode (retry_count : nat).

(** The system under the session.

    [os_path_dirname] is [os.path.dirname].

    [node p] is the file that the path [p] leads to: two paths with the
    same node are one file, as [a.txt] and [./a.txt] are.  The session
    makes directories and regular files and neither renames, links nor
    removes, so the node of a path does not change while it runs; the
    files of the [world] are kept by node.

    [occupied p h] says that, once [h] is printed, something that is not a
    regular file (a directory) is at [p]: [os.path.exists] holds for it and
    it cannot be opened.

    [raises c h] says that the call [c], made once [h] is printed, raises;
    what is printed so far tells the calls of a session apart and stands
    for the state of the system at the call.

    [undecodable p h] is the text of the [UnicodeDecodeError] that
    [f.read()] raises, once [h] is printed, for the file at [p] opened with
    [encoding='utf-8'], and [None] when the file decodes; the text kept
    for a file that does not decode stands for its bytes.  This error is a
    [ValueError], which line 134 catches; it is not among the exceptions
    of [raises].

    [locale_text s] is the text that the locale's preferred encoding gives
    for a file that holds [s]; it is [s] under a UTF-8 locale. *)
Record system : Type := {
  os_path_dirname : string -> string;
  node : string -> string;
  occupied : string -> list event -> bool;
  raises : call -> list event -> bool;
  undecodable : string -> list event -> option string;
  locale_text : string -> string
}.

(** The result of a step of the session: what it returns, or the call
    whose exception leaves [validate_and_fix] and what was printed before
    it. *)
Inductive outcome (A : Type) : Type :=
| Normal (a : A)
| Exception (c : call) (printed : list event).

Arguments Normal {A} a.
Arguments Exception {A} c printed.

(** [os.path.exists(full_path)] *)
Definition path_exists (sys : system) (w : world) (full_path : string) : bool :=
  match fs w !! node sys full_path with
  | Some _ => true
  | None => occupied sys full_path (out w)
  end.

(** [open(full_path, 'r', ...)] and [f.read()], before the line ends are
    translated: the text of the file, unless the call raises or there is
    no regular file to read. *)
Definition read_file (sys : system) (c : call) (w : world) (full_path : string)
  : outcome string :=
  if raises sys c (out w) then Exception c (out w)
  else match fs w !! node sys full_path with
       | Some text => Normal text
       | None => Exception c (out w)
       end.

(** [check_code]: the error message or [None], and the warnings printed.
    It raises nothing: both [try] blocks end with [except Exception]. *)
Definition check_code (sys : system) (self : service) (files : gmap string string)
    (filename : string) : option string * list event :=
  if negb (Str.has_suffix ".py" filename) then (None, [])
  else
    match files !! node sys filename with
    | None =>
        (Some ("Error reading/compiling " +:+ filename +:+ ": " +:+ no_such_file filename), [])
    | Some source =>
        match py_compile self source filename with
        | RaisesSyntaxError e => (Some ("SyntaxError in " +:+ filename +:+ ": " +:+ e), [])
        | RaisesOnCompile e => (Some ("Error reading/compiling " +:+ filename +:+ ": " +:+ e), [])
        | Compiles =>
            match ruff_check self filename source with
            | Completed returncode stdout =>
                if negb (returncode =? 0)%Z then
                  if truthy (Str.strip stdout)
                  then (Some ("Linter Errors in " +:+ filename +:+ ":" +:+ Regex.NL +:+ stdout), [])
                  else (None, [])
                else (None, [])
            | RaisesFileNotFoundError =>
                (None, [Warning ("Warning: ruff not found, skipping lint check for " +:+ filename)])
            | RaisesOnRun e =>
                (None, [Warning ("Warning: Error running linter on " +:+ filename +:+ ": " +:+ e)])
            end
        end
    end.

(** What lines 129-137 give when no exception leaves them: what
    [apply_diff] does, or the [UnicodeDecodeError] of [f.read()], which
    line 134 catches as well. *)
Inductive resolution : Type :=
| Resolved (r : result)
| ReadFails (message : string).

(** Lines 129-137: the content to write, the [ValueError] that is caught,
    or the exception of the reading that is not. *)
Definition resolve_patch (sys : system) (w : world) (full_path final_content : string)
  : outcome resolution :=
  if Str.contains Regex.SEARCH_MARKER final_content && path_exists sys w full_path then
    match read_file sys (ReadOriginal full_path) w full_path with
    | Normal original =>
        match undecodable sys full_path (out w) with
        | Some message => Normal (ReadFails message)
        | None => Normal (Resolved (apply_diff (Str.universal_newlines original) final_content))
        end
    | Exception c printed => Exception c printed
    end
  else Normal (Resolved (Returns final_content)).

(** Lines 139-149: the write, the validation and the staging. *)
Definition write_and_check (sys : system) (self : service) (w : world)
    (files_with_errors : list (string * string)) (filename full_path final_content : string)
  : outcome (world * list (string * string)) :=
  let w := emit (Writing filename full_path final_content) w in
  if raises sys (WriteFile full_path final_content) (out w)
  then Exception (WriteFile full_path final_content) (out w)
  else
    let w := write_file (node sys full_path) final_content w in
    let '(error, warnings) := check_code sys self (fs w) full_path in
    let w := emit_all warnings w in
    match (match error with Some e => if truthy e then Some e else None | None => None end) with
    | Some e => Normal (emit (ValidationFailed filename e) w, files_with_errors ++ [(filename, e)])
    | None =>
        if raises sys (IndexAdd filename) (out w) then Exception (IndexAdd filename) (out w)
        else Normal (emit (Staged filename) (index_add filename w), files_with_errors)
    end.

(** The body of [for filename, content in changes.items()]. *)
Definition process_entry (sys : system) (self : service)
    (acc : world * list (string * string)) (entry : string * pyval)
  : outcome (world * list (string * string)) :=
  let '(w, files_with_errors) := acc in
  let '(filename, content) := entry in
  let w := emit (Processing filename) w in
  let full_path := os_path_join self (local_repo_path self) filename in
  let dir_path := os_path_dirname sys full_path in
  if truthy dir_path && raises sys (Makedirs dir_path) (out w)
  then Exception (Makedirs dir_path) (out w)
  else
    match resolve_content content with
    | NoContentKey => Normal (emit (SkippingNoContentKey filename) w, files_with_errors)
    | NotString => Normal (emit (SkippingNotString filename) w, files_with_errors)
    | FinalContent final_content =>
        match resolve_patch sys w full_path final_content with
        | Exception c printed => Exception c printed
        | Normal (ReadFails e) =>
            Normal (emit (ReadError filename e) w,
                    files_with_errors ++ [(filename, "Diff Application Error: " +:+ e)])
        | Normal (Resolved (Raises e)) =>
            Normal (emit (DiffError filename e) w,
                    files_with_errors ++ [(filename, "Diff Application Error: " +:+ message e)])
        | Normal (Resolved (Returns final_content)) =>
            write_and_check sys self w files_with_errors filename full_path final_content
        end
    end.

(** Step 1 and 2 of one attempt: every entry of [changes], in order, up to
    the first exception. *)
Fixpoint apply_changes (sys : system) (self : service) (changes : list (string * pyval))
    (acc : world * list (string * string)) : outcome (world * list (string * string)) :=
  match changes with
  | [] => Normal acc
  | entry :: rest =>
      match process_entry sys self acc entry with
      | Normal acc => apply_changes sys self rest acc
      | Exception c printed => Exception c printed
      end
  end.

(** One attempt: the announcement, then steps 1 and 2. *)
Definition attempt (sys : system) (self : service) (max_retries retry_count : nat)
    (changes : list (string * pyval)) (w : world) : outcome (world * list (string * string)) :=
  apply_changes sys self changes (emit (Attempt (retry_count + 1) max_retries) w, []).

(** Lines 170-178: the failing files as they are read back from disk, with
    the encoding of the locale, or as proposed when nothing is at the
    path. *)
Fixpoint current_broken_code (sys : system) (self : service) (w : world)
    (changes : list (string * pyval)) (files_with_errors : list (string * string))
    (code : list (string * pyval)) : outcome (list (string * pyval)) :=
  match files_with_errors with
  | [] => Normal code
  | (fname, _) :: rest =>
      let full_path := os_path_join self (local_repo_path self) fname in
      if path_exists sys w full_path then
        match read_file sys (ReadBack full_path) w full_path with
        | Normal text =>
            current_broken_code sys self w changes rest
              (Dict.set fname (PyStr (Str.universal_newlines (locale_text sys text))) code)
        | Exception c printed => Exception c printed
        end
      else
        current_broken_code sys self w changes rest
          (Dict.set fname (match Dict.get fname changes with Some v => v | None => PyStr "" end)
             code)
  end.

(** Step 4: the request to the producer and the merge of its answer;
    [retry_count] is already incremented.  The event [RequestingFixes] is
    the call of [fix_code]. *)
Definition request_fixes (sys : system) (self : service) (retry_count : nat)
    (changes : list (string * pyval)) (w : world) (files_with_errors : list (string * string))
  : outcome (list (string * pyval) * world) :=
  let report := error_report files_with_errors in
  match current_broken_code sys self w changes files_with_errors [] with
  | Exception c printed => Exception c printed
  | Normal broken =>
      let w := emit (RequestingFixes broken report) w in
      if raises sys (FixCode retry_count) (out w) then Exception (FixCode retry_count) (out w)
      else Normal (Dict.update changes (fix_code self retry_count broken report), w)
  end.

(** [while retry_count < max_retries: ...] followed by [return False].
    [fuel] bounds the number of iterations; [None] is for a loop that is
    still running when the fuel is used up. *)
Fixpoint retry_loop (sys : system) (self : service) (fuel max_retries retry_count : nat)
    (changes : list (string * pyval)) (w : world) : option (outcome (bool * world)) :=
  match fuel with
  | 0 => None
  | S fuel' =>
      if retry_count <? max_retries then
        match attempt sys self max_retries retry_count changes w with
        | Exception c printed => Some (Exception c printed)
        | Normal (w, []) => Some (Normal (true, emit ValidationPassed w))
        | Normal (w, files_with_errors) =>
            let retry_count := retry_count + 1 in
            if max_retries <=? retry_count then Some (Normal (false, emit MaxRetriesReached w))
            else
              match request_fixes sys self retry_count changes w files_with_errors with
              | Exception c printed => Some (Exception c printed)
              | Normal (changes, w) => retry_loop sys self fuel' max_retries retry_count changes w
              end
        end
      else Some (Normal (false, w))
  end.

(** [validate_and_fix] with the local constant [max_retries] as a
    parameter. *)
Definition validate_and_fix_with (sys : system) (self : service) (max_retries : nat)
    (changes : list (string * pyval)) (w : world) : option (outcome (bool * world)) :=
  match changes with
  | [] => Some (Normal (false, w))
  | _ :: _ => retry_loop sys self (S max_retries) max_retries 0 changes w
  end.

Definition validate_and_fix (sys : system) (self : service)
    (changes : list (string * pyval)) (w : world) : option (outcome (bool * world)) :=
  validate_and_fix_with sys self 3 changes w.

(** *** Reading the result of a session *)

(** Everything printed when the session ends. *)
Definition printed_by {A} (res : outcome (A * world)) : list event :=
  match res with
  | Normal (_, w') => out w'
  | Exception _ printed => printed
  end.

(** What the session has printed and done, from the world [w] on. *)
Definition trace {A} (w : world) (res : outcome (A * world)) : list event :=
  drop (List.length (out w)) (printed_by res).

(** The files after the writes reported in [evs], in order. *)
Definition replay (sys : system) (evs : list event) (files : gmap string string)
  : gmap string string :=
  fold_left
    (fun m e =>
       match e with
       | Writing _ full_path content => <[node sys full_path := content]> m
       | _ => m
       end)
    evs files.

(** The files after every string payload of [changes] is written to its
    path, in order. *)
Definition written (sys : system) (self : service) (changes : list (string * pyval))
    (files : gmap string string) : gmap string string :=
  fold_left
    (fun m entry =>
       match snd entry with
       | PyStr s => <[node sys (Session.full_path self (fst entry)) := s]> m
       | _ => m
       end)
    changes files.

(** The failures of the attempt that comes [k] attempts after the one
    numbered [retry_count], when the session gets there: every attempt
    before it has ended with failures and every request for fixes has
    been answered. *)
Fixpoint failures_from (sys : system) (self : service) (max_retries retry_count k : nat)
    (changes : list (string * pyval)) (w : world) : option (list (string * string)) :=
  match attempt sys self max_retries retry_count changes w with
  | Exception _ _ => None
  | Normal (w1, files_with_errors) =>
      match k with
      | 0 => Some files_with_errors
      | S k' =>
          match files_with_errors with
          | [] => None
          | _ :: _ =>
              match request_fixes sys self (retry_count + 1) changes w1 files_with_errors with
              | Exception _ _ => None
              | Normal (changes', w2) =>
                  failures_from sys self max_retries (retry_count + 1) k' changes' w2
              end
          end
      end
  end.

(** What [check_code] prints: nothing, or one warning. *)
Definition warnings_only (evs : list event) : Prop :=
  evs = [] \/ exists m, evs = [Warning m].

(** Why the call [c] ends the session once [printed] is printed: it
    raises, or it opens for reading what is not a regular file. *)
Definition caused (sys : system) (c : call) (printed : list event) : Prop :=
  raises sys c printed = true
  \/ exists p, (c = ReadOriginal p \/ c = ReadBack p) /\ occupied sys p printed = true.

(** No call raises and nothing but regular files is at a path. *)
Definition calm (sys : system) : Prop :=
  (forall c h, raises sys c h = false) /\ (forall p h, occupied sys p h = false).

(** A system of the kind that [Service] has: calm, every path the name of
    its file, every file UTF-8 text, and a UTF-8 locale. *)
Definition ideal (sys : system) : Prop :=
  calm sys /\ (forall p, node sys p = p) /\ (forall p h, undecodable sys p h = None)
  /\ (forall s, locale_text sys s = s).

End Run.

(** ** [CodeAgentService.get_feedback_history] *)

Module Feedback.

(** A comment of the pull request: [c.user.login] and [c.body]. *)
Record comment : Type := { login : string; body : string }.

(** [l[-3:]] *)
Definition last_three {A} (l : list A) : list A := drop (List.length l - 3) l.

Definition get_feedback_history (comments : list comment) : string :=
  match comments with
  | [] => "No prior feedback."
  | _ :: _ =>
      String.concat (Regex.NL +:+ Regex.NL)
        (map (fun c => "--- Comment by " +:+ login c +:+ " ---" +:+ Regex.NL +:+ body c)
           (last_three comments))
  end.

End Feedback.

(** ** [MockLLMClient.fix_code] *)

Module Mock.

(** The dict comprehension over [current_code.items()]; [None] is for the
    [TypeError] of [v + "..."] on a value that is not a string, and
    [Str.take 20 feedback] is [feedback[:20]], the first 20 characters
    (code points) of the feedback. *)
Fixpoint fix_code (current_code : list (string * pyval)) (feedback : string)
  : option (list (string * pyval)) :=
  match current_code with
  | [] => Some []
  | (k, PyStr v) :: rest =>
      match fix_code rest feedback with
      | Some fixed =>
          Some ((k, PyStr (v +:+ Regex.NL +:+ "# Fixed based on feedback: "
                             +:+ Str.take 20 feedback +:+ "...")) :: fixed)
      | None => None
      end
  | (_, _) :: _ => None
  end.

End Mock.

(** ** [shared.utils.generate_repo_map] *)

Module RepoMap.

(** A directory: its name, its sub-directories and its files, in the order
    in which [os.walk] lists them. *)
Inductive tree : Type :=
| Dir (name : string) (dirs : list tree) (files : list string).

Definition name_of (t : tree) : string :=
  match t with Dir name _ _ => name end.

(** [os.walk(root)], top-down, as the list of [(root, files)]; the caller
    prunes the sub-directories in place, so only those that [keep] accepts
    are entered. *)
Fixpoint os_walk (keep : string -> bool) (root : string) (t : tree)
  : list (string * list string) :=
  match t with
  | Dir _ dirs files =>
      (root, files)
        :: flat_map
             (fun d =>
                if keep (name_of d)
                then os_walk keep (Inputs.posix_join root (name_of d)) d
                else [])
             dirs
  end.

(** [posixpath.basename]: what follows the last separator. *)
Fixpoint basename (path : string) : string :=
  match path with
  | EmptyString => EmptyString
  | String _ rest => if Str.contains "/" path then basename rest else path
  end.

(** The scan of [s.replace(old, new)] for a non-empty [old]. *)
Fixpoint replace_from (old new s : string) (skip : nat) : string :=
  match s with
  | EmptyString => EmptyString
  | String c s' =>
      match skip with
      | S k => replace_from old new s' k
      | 0 => if Str.has_prefix old s
             then new +:+ replace_from old new s' (String.length old - 1)
             else String c (replace_from old new s' 0)
      end
  end.

Fixpoint interleave (new s : string) : string :=
  match s with
  | EmptyString => EmptyString
  | String c s' => String c (new +:+ interleave new s')
  end.

(** [s.replace(old, new)]; an empty [old] matches before every character
    and at the end. *)
Definition replace_all (old new s : string) : string :=
  match old with
  | EmptyString => new +:+ interleave new s
  | String _ _ => replace_from old new s 0
  end.

(** [' ' * n] *)
Fixpoint spaces (n : nat) : string :=
  match n with
  | 0 => EmptyString
  | S k => String " "%char (spaces k)
  end.

(** The lines so far and the running count of their characters. *)
Record progress : Type := { repo_map : list string; total_chars : nat }.

Definition append_line (line : string) (p : progress) : progress :=
  {| repo_map := repo_map p ++ [line];
     total_chars := total_chars p + String.length line + 1 |}.

(** A loop either goes on or returns the lines of the map. *)
Inductive outcome : Type :=
| Goes (p : progress)
| Stops (lines : list string).

(** [for f in files: ...]; [get_python_summary] stands for the function of
    that name, which reads and parses the file. *)
Fixpoint list_files (get_python_summary : string -> string) (max_chars : nat)
    (root sub_indent : string) (files : list string) (p : progress) : outcome :=
  match files with
  | [] => Goes p
  | f :: rest =>
      let file_path := Inputs.posix_join root f in
      let file_line := sub_indent +:+ f in
      let p := append_line file_line p in
      if max_chars <? total_chars p
      then Stops (repo_map p ++ [sub_indent +:+ "... (Truncated)"])
      else if Str.has_suffix ".py" f then
        let summary := get_python_summary file_path in
        if Service.truthy summary then
          if max_chars <? total_chars p + String.length summary
          then Stops (repo_map p ++ [sub_indent +:+ "  (Summary truncated)"])
          else list_files get_python_summary max_chars root sub_indent rest
                 (append_line summary p)
        else list_files get_python_summary max_chars root sub_indent rest p
      else list_files get_python_summary max_chars root sub_indent rest p
  end.

(** [for root, from_dirs, files in os.walk(root_dir): ...] *)
Fixpoint list_dirs (get_python_summary : string -> string) (max_chars : nat)
    (root_dir : string) (walked : list (string * list string)) (p : progress) : outcome :=
  match walked with
  | [] => Goes p
  | (root, files) :: rest =>
      let level := Str.count "/" (replace_all root_dir EmptyString root) in
      let indent := spaces (4 * level) in
      let dir_line := indent +:+ basename root +:+ "/" in
      let p := append_line dir_line p in
      if max_chars <? total_chars p
      then Stops (repo_map p ++ [indent +:+ "... (Truncated due to size limit)"])
      else
        match list_files get_python_summary max_chars root (spaces (4 * (level + 1))) files p with
        | Stops lines => Stops lines
        | Goes p => list_dirs get_python_summary max_chars root_dir rest p
        end
  end.

Definition default_ignore_dirs : list string :=
  [".git"; "__pycache__"; "venv"; ".env"; ".mypy_cache"; ".pytest_cache"].

(** The lines of the map for what [os.walk] yields. *)
Definition map_lines (get_python_summary : string -> string) (max_chars : nat)
    (root_dir : string) (walked : list (string * list string)) : list string :=
  match list_dirs get_python_summary max_chars root_dir walked
          {| repo_map := []; total_chars := 0 |} with
  | Goes p => repo_map p
  | Stops lines => lines
  end.

Definition generate_repo_map (get_python_summary : string -> string)
    (root_dir : string) (ignore_dirs : list string) (max_chars : nat) (t : tree) : string :=
  String.concat Regex.NL
    (map_lines get_python_summary max_chars root_dir
       (os_walk (fun d => negb (existsb (String.eqb d) ignore_dirs)) root_dir t)).

(** A line that says that the map was cut. *)
Definition is_notice (line : string) : bool :=
  Str.has_suffix "... (Truncated due to size limit)" line
  || Str.has_suffix "... (Truncated)" line
  || Str.has_suffix "  (Summary truncated)" line.

(** The characters that [total_chars] counts for some lines. *)
Definition weight (lines : list string) : nat :=
  fold_right (fun line n => String.length line + 1 + n) 0 lines.

(** The count is that of the lines and has not passed the limit by more
    than the newline of a summary. *)
Definition counted (max_chars : nat) (p : progress) : Prop :=
  total_chars p = weight (repo_map p) /\ total_chars p <= max_chars + 1.

(** All but the last one or two lines are within the limit, and lines
    beyond it end with a notice. *)
Definition fits (max_chars : nat) (lines : list string) : Prop :=
  exists kept extra,
    lines = kept ++ extra
    /\ weight kept <= max_chars + 1
    /\ (extra = []
        \/ exists notice,
             is_notice notice = true /\ (extra = [notice] \/ exists line, extra = [line; notice])).

End RepoMap.

(** ** More concrete inputs *)

Module MoreInputs.

(** A block with an empty search text. *)
Definition empty_search : string := Eval vm_compute in Inputs.block EmptyString "foo".

(** Two blocks on consecutive lines, as [test_apply_diff_multiple_blocks]
    has them. *)
Definition after_line1 : string :=
  Eval vm_compute in Regex.NL +:+ Inputs.block "line4" "line4_mod".

(** The directory of [test_generate_repo_map_truncated]. *)
Definition three_python_files : RepoMap.tree :=
  RepoMap.Dir "root" [] ["file1.py"; "file2.py"; "file3.py"].

(** Four comments of a pull request. *)
Definition four_comments : list Feedback.comment :=
  [ {| Feedback.login := "ann"; Feedback.body := "first" |};
    {| Feedback.login := "bob"; Feedback.body := "second" |};
    {| Feedback.login := "ann"; Feedback.body := "third" |};
    {| Feedback.login := "bot"; Feedback.body := "fourth" |} ].

(** [head.rstrip('/')] *)
Fixpoint rstrip_sep (s : string) : string :=
  match s with
  | EmptyString => EmptyString
  | String c s' =>
      match rstrip_sep s' with
      | EmptyString => if Ascii.eqb c "/" then EmptyString else String c EmptyString
      | r => String c r
      end
  end.

(** [posixpath.dirname] *)
Definition posix_dirname (p : string) : string :=
  let head := Str.take (String.length p - String.length (RepoMap.basename p)) p in
  if forallb (Ascii.eqb "/") (list_ascii_of_string head) then head else rstrip_sep head.

(** A POSIX system on which no call raises, nothing but regular files is
    at the paths that are asked for, the locale is UTF-8, and every path
    is taken as the name of its file, which it is for paths in normal
    form. *)
Definition plain : Run.system := {|
  Run.os_path_dirname := posix_dirname;
  Run.node := fun p => p;
  Run.occupied := fun _ _ => false;
  Run.raises := fun _ _ => false;
  Run.undecodable := fun _ _ => None;
  Run.locale_text := fun s => s
|}.

(** The same with a directory at [workdir/sub]: it cannot be opened. *)
Definition sub_is_a_directory : Run.system := {|
  Run.os_path_dirname := posix_dirname;
  Run.node := fun p => p;
  Run.occupied := fun p _ => String.eqb p "workdir/sub";
  Run.raises := fun c _ =>
    match c with
    | Run.ReadOriginal p | Run.WriteFile p _ | Run.ReadBack p => String.eqb p "workdir/sub"
    | _ => false
    end;
  Run.undecodable := fun _ _ => None;
  Run.locale_text := fun s => s
|}.

(** The same as [plain] with the paths that begin with [workdir/./] taken
    to the file they lead to. *)
Definition dotted : Run.system := {|
  Run.os_path_dirname := posix_dirname;
  Run.node := fun p =>
    if Str.has_prefix "workdir/./" p then "workdir/" +:+ Str.drop 10 p else p;
  Run.occupied := fun _ _ => false;
  Run.raises := fun _ _ => false;
  Run.undecodable := fun _ _ => None;
  Run.locale_text := fun s => s
|}.


(** The same as [plain] with a producer that is out of reach. *)
Definition offline : Run.system := {|
  Run.os_path_dirname := posix_dirname;
  Run.node := fun p => p;
  Run.occupied := fun _ _ => false;
  Run.raises := fun c _ => match c with Run.FixCode _ => true | _ => false end;
  Run.undecodable := fun _ _ => None;
  Run.locale_text := fun s => s
|}.

(** Whether the output reports a write to the path [p]. *)
Definition written_to (p : string) (h : list Service.event) : bool :=
  existsb (fun e => match e with Service.Writing _ q _ => String.eqb q p | _ => false end) h.

(** The text of the [UnicodeDecodeError] for a file that begins with the
    byte E9 and a letter. *)
Definition not_utf8 : string :=
  "'utf-8' codec can't decode byte 0xe9 in position 0: invalid continuation byte".

(** The same as [plain] with a file at [workdir/notes.txt] that is in
    Latin-1 and not in UTF-8, as long as the session has not written it:
    reading it as UTF-8 raises a [UnicodeDecodeError], and so does reading
    it back under the UTF-8 locale, where nothing catches it. *)
Definition notes_in_latin1 : Run.system := {|
  Run.os_path_dirname := posix_dirname;
  Run.node := fun p => p;
  Run.occupied := fun _ _ => false;
  Run.raises := fun c h =>
    match c with
    | Run.ReadBack p => String.eqb p "workdir/notes.txt" && negb (written_to p h)
    | _ => false
    end;
  Run.undecodable := fun p h =>
    if String.eqb p "workdir/notes.txt" && negb (written_to p h) then Some not_utf8 else None;
  Run.locale_text := fun s => s
|}.

(** The bytes E9 74 E9, which are a word in Latin-1. *)
Definition world_with_latin1_file : Service.world :=
  {| Service.fs := {[ "workdir/notes.txt" := String "233" (String "t" (String "233" EmptyString)) ]};
     Service.index := []; Service.out := [] |}.

(** A patch for [main.py] that applies once, and a [b.py] that does not
    compile. *)
Definition patch_and_bad : list (string * pyval) :=
  [("main.py", PyStr Inputs.typo_patch); ("b.py", PyStr "def bad(")].

(** A service as [Inputs.demo] whose producer answers the first request
    with a new [b.py] and every later request with nothing. *)
Definition fixes_b_once : Service.service := {|
  Service.local_repo_path := "workdir";
  Service.os_path_join := Inputs.posix_join;
  Service.py_compile := Service.py_compile Inputs.demo;
  Service.ruff_check := Service.ruff_check Inputs.demo;
  Service.fix_code := fun n _ _ => if n =? 1 then [("b.py", PyStr "print('b')")] else []
|}.

(** A file with the line ends of DOS, and a block whose search text has
    two lines. *)
Definition dos_lines : string :=
  Eval vm_compute in
    "x" +:+ String "013" Regex.NL +:+ "y" +:+ String "013" Regex.NL.

Definition world_with_dos_file : Service.world :=
  {| Service.fs := {[ "workdir/notes.txt" := dos_lines ]};
     Service.index := []; Service.out := [] |}.

Definition two_line_patch : string :=
  Eval vm_compute in Inputs.block ("x" +:+ Regex.NL +:+ "y") "z".

Definition x_to_z : string := Eval vm_compute in Inputs.block "x" "z".

(** A style checker that exits with status 1 and prints a no-break space
    and a line feed. *)
Definition prints_blank : Service.service := {|
  Service.local_repo_path := "workdir";
  Service.os_path_join := Inputs.posix_join;
  Service.py_compile := fun _ _ => Service.Compiles;
  Service.ruff_check := fun _ _ => Service.Completed 1 (String "160" Regex.NL);
  Service.fix_code := fun _ _ _ => []
|}.

End MoreInputs.

(** ** Facts about the string operations *)

Module StrFacts.
Import Str.

Lemma app_nil_l s : "" +:+ s = s.
Proof. reflexivity. Qed.

Lemma app_cons c s t : String c s +:+ t = String c (s +:+ t).
Proof. reflexivity. Qed.

Lemma app_nil_r s : s +:+ "" = s.
Proof. induction s as [|c s IH]; [reflexivity|]. rewrite app_cons, IH. reflexivity. Qed.

Lemma app_assoc s t u : (s +:+ t) +:+ u = s +:+ t +:+ u.
Proof. induction s as [|c s IH]; [reflexivity|]. rewrite !app_cons, IH. reflexivity. Qed.

Lemma length_app s t : String.length (s +:+ t) = String.length s + String.length t.
Proof. induction s as [|c s IH]; [reflexivity|]. rewrite app_cons. simpl. lia. Qed.

Lemma length_zero s : String.length s = 0 -> s = "".
Proof. destruct s; [reflexivity|discriminate]. Qed.

Lemma app_inv_head s t u : s +:+ t = s +:+ u -> t = u.
Proof.
  induction s as [|c s IH]; [trivial|]. rewrite !app_cons. intros H. injection H. exact IH.
Qed.

Lemma app_inv_length s1 t1 s2 t2 :
  s1 +:+ t1 = s2 +:+ t2 -> String.length s1 = String.length s2 -> s1 = s2 /\ t1 = t2.
Proof.
  revert s2. induction s1 as [|c s1 IH]; intros [|d s2] H L; try discriminate.
  - split; [reflexivity|exact H].
  - rewrite !app_cons in H. injection H as -> H. simpl in L.
    destruct (IH s2 H) as [-> ->]; [lia|]. split; reflexivity.
Qed.

(** *** take and drop *)

Lemma drop_0 s : drop 0 s = s.
Proof. destruct s; reflexivity. Qed.

Lemma take_0 s : take 0 s = "".
Proof. destruct s; reflexivity. Qed.

Lemma drop_nil n : drop n "" = "".
Proof. destruct n; reflexivity. Qed.

Lemma take_drop n s : take n s +:+ drop n s = s.
Proof.
  revert s. induction n as [|n IH]; intros [|c s]; try reflexivity.
  simpl. rewrite app_cons, IH. reflexivity.
Qed.

Lemma length_take n s : n <= String.length s -> String.length (take n s) = n.
Proof.
  revert s. induction n as [|n IH]; intros [|c s] H; simpl in *; try lia.
  rewrite IH; lia.
Qed.

Lemma length_drop n s : String.length (drop n s) = String.length s - n.
Proof.
  revert s. induction n as [|n IH]; intros [|c s]; simpl; try lia. apply IH.
Qed.

Lemma drop_app_length s t : drop (String.length s) (s +:+ t) = t.
Proof. induction s as [|c s IH]; [apply drop_0|]. rewrite app_cons. simpl. exact IH. Qed.

Lemma take_app_length s t : take (String.length s) (s +:+ t) = s.
Proof.
  induction s as [|c s IH]; [apply take_0|]. rewrite app_cons. simpl. rewrite IH. reflexivity.
Qed.

Lemma drop_drop n m s : drop n (drop m s) = drop (m + n) s.
Proof.
  revert s. induction m as [|m IH]; intros s.
  - rewrite drop_0. reflexivity.
  - destruct s as [|c s]; [rewrite !drop_nil; reflexivity|]. simpl. apply IH.
Qed.

Lemma drop_app_ge k s t :
  String.length s <= k -> drop k (s +:+ t) = drop (k - String.length s) t.
Proof.
  intros H. replace k with (String.length s + (k - String.length s)) at 1 by lia.
  rewrite <- drop_drop, drop_app_length. reflexivity.
Qed.

Lemma drop_app_le k s t :
  k <= String.length s -> drop k (s +:+ t) = drop k s +:+ t.
Proof.
  revert s. induction k as [|k IH]; intros s H.
  - rewrite !drop_0. reflexivity.
  - destruct s as [|c s]; simpl in H; [lia|]. rewrite app_cons. simpl. apply IH. lia.
Qed.

Lemma drop_all k s : String.length s <= k -> drop k s = "".
Proof. intros H. apply length_zero. rewrite length_drop. lia. Qed.

(** *** prefixes *)

Lemma has_prefix_nil s : has_prefix "" s = true.
Proof. destruct s; reflexivity. Qed.

Lemma has_prefix_app p t : has_prefix p (p +:+ t) = true.
Proof.
  induction p as [|c p IH]; [apply has_prefix_nil|].
  rewrite app_cons. simpl. rewrite Ascii.eqb_refl. exact IH.
Qed.

Lemma has_prefix_drop p s :
  has_prefix p s = true -> s = p +:+ drop (String.length p) s.
Proof.
  revert s. induction p as [|c p IH]; intros s H.
  - rewrite drop_0. reflexivity.
  - destruct s as [|d s]; [discriminate|]. simpl in H.
    destruct (Ascii.eqb c d) eqn:E; [|discriminate].
    apply Ascii.eqb_eq in E as ->. simpl. rewrite app_cons. f_equal. apply IH, H.
Qed.

Lemma has_prefix_spec p s : has_prefix p s = true <-> exists t, s = p +:+ t.
Proof.
  split.
  - intros H. eexists. apply has_prefix_drop, H.
  - intros [t ->]. apply has_prefix_app.
Qed.

Lemma has_prefix_app_l p q s : has_prefix (p +:+ q) s = true -> has_prefix p s = true.
Proof.
  intros [t ->]%has_prefix_spec. rewrite app_assoc. apply has_prefix_app.
Qed.

Lemma has_prefix_length p s : has_prefix p s = true -> String.length p <= String.length s.
Proof. intros [t ->]%has_prefix_spec. rewrite length_app. lia. Qed.

(** An occurrence of [p] at offset [k]. *)
Lemma occurs_at_spec p s k :
  k <= String.length s ->
  has_prefix p (drop k s) = true <-> exists a c, s = a +:+ p +:+ c /\ String.length a = k.
Proof.
  intros Hk. split.
  - intros H. exists (take k s), (drop (String.length p) (drop k s)). split.
    + rewrite <- (has_prefix_drop _ _ H). symmetry. apply take_drop.
    + apply length_take, Hk.
  - intros (a & c & -> & <-). rewrite drop_app_length. apply has_prefix_app.
Qed.

(** *** find *)

Lemma find_Some sub s i :
  find sub s = Some i ->
  has_prefix sub (drop i s) = true /\ i <= String.length s
  /\ forall j, j < i -> has_prefix sub (drop j s) = false.
Proof.
  revert i. induction s as [|c s IH]; intros i; simpl find.
  - destruct (has_prefix sub "") eqn:E; [|discriminate].
    intros [= <-]. repeat split; [exact E|lia|lia].
  - destruct (has_prefix sub (String c s)) eqn:E.
    + intros [= <-]. repeat split; [exact E|lia|lia].
    + destruct (find sub s) as [i'|]; [|discriminate]. simpl. intros [= <-].
      destruct (IH i' eq_refl) as (H1 & H2 & H3). repeat split.
      * exact H1.
      * simpl. lia.
      * intros [|j] Hj; [exact E|]. simpl. apply H3. lia.
Qed.

Lemma find_None sub s j : find sub s = None -> has_prefix sub (drop j s) = false.
Proof.
  revert j. induction s as [|c s IH]; intros j; simpl find.
  - destruct (has_prefix sub "") eqn:E; [discriminate|]. rewrite drop_nil. intros _. exact E.
  - destruct (has_prefix sub (String c s)) eqn:E; [discriminate|].
    destruct (find sub s) eqn:F; [discriminate|]. intros _.
    destruct j as [|j]; [exact E|]. simpl. apply IH. reflexivity.
Qed.

Lemma find_occurrence sub s j :
  has_prefix sub (drop j s) = true -> exists i, find sub s = Some i /\ i <= j.
Proof.
  intros H. destruct (find sub s) as [i|] eqn:F.
  - exists i. split; [reflexivity|]. destruct (find_Some _ _ _ F) as (_ & _ & H3).
    destruct (le_lt_dec i j) as [L|L]; [exact L|]. rewrite (H3 j L) in H. discriminate.
  - rewrite (find_None _ _ j F) in H. discriminate.
Qed.

Lemma find_split sub s i :
  find sub s = Some i ->
  s = take i s +:+ sub +:+ drop (i + String.length sub) s /\ String.length (take i s) = i.
Proof.
  intros F. destruct (find_Some _ _ _ F) as (H1 & H2 & _). split.
  - rewrite <- drop_drop, <- (has_prefix_drop _ _ H1). symmetry. apply take_drop.
  - apply length_take, H2.
Qed.

Lemma contains_true sub s : contains sub s = true <-> exists j, has_prefix sub (drop j s) = true.
Proof.
  unfold contains. split.
  - destruct (find sub s) as [i|] eqn:F; [|discriminate]. intros _.
    exists i. apply (find_Some _ _ _ F).
  - intros [j H]. destruct (find_occurrence _ _ _ H) as (i & -> & _). reflexivity.
Qed.

Lemma contains_false sub s j : contains sub s = false -> has_prefix sub (drop j s) = false.
Proof.
  unfold contains. destruct (find sub s) eqn:F; [discriminate|]. intros _.
  apply find_None, F.
Qed.

Lemma contains_app a sub c : contains sub (a +:+ sub +:+ c) = true.
Proof.
  apply contains_true. exists (String.length a). rewrite drop_app_length. apply has_prefix_app.
Qed.

(** *** count *)

Lemma count_from_skip sub s k : count_from sub s k = count_from sub (drop k s) 0.
Proof.
  revert k. induction s as [|c s IH]; intros [|k]; try reflexivity. simpl. apply IH.
Qed.

Lemma count_from_find sub s :
  sub <> "" ->
  count_from sub s 0 =
    match find sub s with
    | None => 0
    | Some i => S (count_from sub (drop (i + String.length sub) s) 0)
    end.
Proof.
  intros Hne. induction s as [|c s IH].
  - simpl. destruct sub; [congruence|reflexivity].
  - simpl count_from. simpl find. destruct (has_prefix sub (String c s)) eqn:E.
    + rewrite count_from_skip. destruct sub as [|d sub]; [congruence|].
      simpl. rewrite Nat.sub_0_r. reflexivity.
    + rewrite IH. destruct (find sub s) as [i|]; reflexivity.
Qed.

Lemma count_find sub s :
  sub <> "" ->
  count sub s =
    match find sub s with
    | None => 0
    | Some i => S (count sub (drop (i + String.length sub) s))
    end.
Proof.
  intros Hne. destruct sub as [|d sub]; [congruence|]. unfold count.
  apply count_from_find, Hne.
Qed.

(** [sub in s] agrees with [s.count(sub) >= 1]. *)
Lemma contains_count sub s : contains sub s = true <-> 1 <= count sub s.
Proof.
  destruct sub as [|d sub].
  - unfold contains, count. destruct s; simpl; split; intros; try lia; reflexivity.
  - rewrite count_find by discriminate. unfold contains.
    destruct (find (String d sub) s); split; intros; try lia; try reflexivity; discriminate.
Qed.

Lemma contains_count_0 sub s : contains sub s = false <-> count sub s = 0.
Proof.
  pose proof (contains_count sub s) as H. destruct (contains sub s).
  - split; [discriminate|]. intros E. destruct H as [H _]. specialize (H eq_refl). lia.
  - split; [|reflexivity]. intros _. destruct (count sub s); [reflexivity|].
    destruct H as [_ H]. discriminate H. lia.
Qed.


(** *** prefixes of a concatenation *)

Lemma has_prefix_app_ext p s t : has_prefix p s = true -> has_prefix p (s +:+ t) = true.
Proof. intros [u ->]%has_prefix_spec. rewrite app_assoc. apply has_prefix_app. Qed.

Lemma has_prefix_app_short p s t :
  String.length p <= String.length s -> has_prefix p (s +:+ t) = has_prefix p s.
Proof.
  revert s. induction p as [|c p IH]; intros s H.
  - rewrite !has_prefix_nil. reflexivity.
  - destruct s as [|d s]; simpl in H; [lia|]. rewrite app_cons. simpl.
    destruct (Ascii.eqb c d); [|reflexivity]. apply IH. lia.
Qed.

Lemma has_prefix_nonempty_length p s k :
  p <> "" -> has_prefix p (drop k s) = true -> k + String.length p <= String.length s.
Proof.
  intros Hne H. apply has_prefix_length in H. rewrite length_drop in H.
  destruct p; [congruence|]. simpl in *. lia.
Qed.

(** *** occurrences *)

Lemma occurrences_spec sub s k :
  In k (occurrences sub s) <-> k <= String.length s /\ has_prefix sub (drop k s) = true.
Proof.
  unfold occurrences. rewrite filter_In, in_seq. split; intros [H1 H2]; (split; [lia|exact H2]).
Qed.

Lemma occurrences_unique sub s k1 k2 :
  List.length (occurrences sub s) = 1 ->
  In k1 (occurrences sub s) -> In k2 (occurrences sub s) -> k1 = k2.
Proof.
  destruct (occurrences sub s) as [|x [|y l]]; try discriminate.
  intros _ [<-|[]] [<-|[]]. reflexivity.
Qed.

Lemma occurrences_app a sub c : In (String.length a) (occurrences sub (a +:+ sub +:+ c)).
Proof.
  apply occurrences_spec. split.
  - rewrite length_app. lia.
  - rewrite drop_app_length. apply has_prefix_app.
Qed.

(** A search text that occurs at a single offset is found there, counted
    once, and replaced there. *)
Lemma single_occurrence sub new a c :
  List.length (occurrences sub (a +:+ sub +:+ c)) = 1 ->
  contains sub (a +:+ sub +:+ c) = true
  /\ count sub (a +:+ sub +:+ c) = 1
  /\ replace_first sub new (a +:+ sub +:+ c) = a +:+ new +:+ c.
Proof.
  intros U. set (m := a +:+ sub +:+ c) in *.
  assert (Hc : contains sub m = true) by apply contains_app.
  destruct (find sub m) as [i|] eqn:F;
    [|unfold contains in Hc; rewrite F in Hc; discriminate].
  destruct (find_Some _ _ _ F) as (Hi & Hle & _).
  assert (Ei : i = String.length a).
  { apply (occurrences_unique sub m); [exact U| |apply occurrences_app].
    apply occurrences_spec. split; assumption. }
  assert (Dc : drop (i + String.length sub) m = c).
  { subst i. rewrite <- drop_drop. unfold m. rewrite drop_app_length. apply drop_app_length. }
  split; [exact Hc|]. split.
  - destruct (String.string_dec sub "") as [Es|Hne].
    + subst sub. unfold count. assert (E0 : 0 = String.length m).
      { apply (occurrences_unique "" m); [exact U| |].
        - apply occurrences_spec. split; [lia|apply has_prefix_nil].
        - apply occurrences_spec. split; [lia|apply has_prefix_nil]. }
      lia.
    + rewrite (count_find _ _ Hne), F, Dc. f_equal.
      apply contains_count_0. destruct (contains sub c) eqn:Cc; [|reflexivity]. exfalso.
      unfold contains in Cc. destruct (find sub c) as [j|] eqn:Fc; [|discriminate].
      destruct (find_Some _ _ _ Fc) as (Hj & Hjle & _).
      assert (In (i + String.length sub + j) (occurrences sub m)).
      { apply occurrences_spec. split.
        - unfold m. rewrite !length_app. lia.
        - rewrite <- drop_drop, Dc. exact Hj. }
      assert (i + String.length sub + j = i).
      { apply (occurrences_unique sub m); [exact U|assumption|].
        apply occurrences_spec. split; assumption. }
      destruct sub; [congruence|]. simpl in *. lia.
  - unfold replace_first. rewrite F, Dc. subst i. unfold m. rewrite take_app_length. reflexivity.
Qed.

End StrFacts.


(** ** Facts about the pattern *)

Module RegexFacts.
Import Str StrFacts Regex.

Lemma match_here_open s r : match_here s = Some r -> has_prefix OPEN s = true.
Proof.
  unfold match_here, lit. destruct (has_prefix OPEN s); [reflexivity|discriminate].
Qed.

Lemma finditer_from_open s k :
  finditer_from s k <> [] -> exists j, has_prefix OPEN (drop j s) = true.
Proof.
  revert k. induction s as [|c s IH]; intros k H; [contradiction H; reflexivity|].
  destruct k as [|k]; simpl in H.
  - destruct (match_here (String c s)) as [r|] eqn:M.
    + exists 0. apply (match_here_open _ _ M).
    + destruct (IH _ H) as [j Hj]. exists (S j). exact Hj.
  - destruct (IH _ H) as [j Hj]. exists (S j). exact Hj.
Qed.

(** A payload in which the pattern matches contains the start marker. *)
Lemma finditer_marker s : finditer s <> [] -> contains SEARCH_MARKER s = true.
Proof.
  intros H. destruct (finditer_from_open _ _ H) as [j Hj].
  apply contains_true. exists j. apply (has_prefix_app_l SEARCH_MARKER NL). exact Hj.
Qed.

Lemma no_marker_no_match s : contains SEARCH_MARKER s = false -> finditer s = [].
Proof.
  intros H. destruct (finditer s) eqn:E; [reflexivity|].
  rewrite finditer_marker in H; [discriminate|]. rewrite E. discriminate.
Qed.

(** *** The lazy groups find the first delimiter *)

Lemma find_drop_None sub s n : find sub s = None -> find sub (drop n s) = None.
Proof.
  intros H. destruct (find sub (drop n s)) as [i|] eqn:F; [|reflexivity].
  destruct (find_Some _ _ _ F) as (Hi & _). rewrite drop_drop in Hi.
  rewrite (find_None _ _ _ H) in Hi. discriminate.
Qed.

(** The group stops at the first occurrence of the literal after which
    the rest of the pattern matches; here it is the first one. *)
Lemma lazy_group_first {A} L (K : string -> string -> option A) s : forall g i r,
  find L s = Some i ->
  K (g +:+ take i s) (drop (i + String.length L) s) = Some r ->
  lazy_group (fun g s => match lit L s with None => None | Some s' => K g s' end) g s = Some r.
Proof.
  induction s as [|c s IH]; intros g i r F HK.
  - simpl in F. destruct (has_prefix L EmptyString) eqn:E; [|discriminate].
    injection F as <-. rewrite take_0, app_nil_r in HK. simpl lazy_group. unfold lit.
    rewrite E. change (0 + String.length L) with (String.length L) in HK.
    rewrite HK. reflexivity.
  - simpl in F. simpl lazy_group. unfold lit at 1.
    destruct (has_prefix L (String c s)) eqn:E.
    + injection F as <-. rewrite take_0, app_nil_r in HK.
      change (0 + String.length L) with (String.length L) in HK. rewrite HK. reflexivity.
    + destruct (find L s) as [j|] eqn:Fj; [|discriminate]. simpl in F. injection F as <-.
      apply (IH _ j); [reflexivity|]. rewrite app_assoc. exact HK.
Qed.

(** The group fails when the rest of the pattern matches after no
    occurrence of the literal. *)
Lemma lazy_group_none {A} L (K : string -> string -> option A) s : forall g,
  (forall n g', has_prefix L (drop n s) = true ->
                K g' (drop (String.length L) (drop n s)) = None) ->
  lazy_group (fun g s => match lit L s with None => None | Some s' => K g s' end) g s = None.
Proof.
  induction s as [|c s IH]; intros g H.
  - simpl. unfold lit. destruct (has_prefix L EmptyString) eqn:E; [|reflexivity].
    pose proof (H 0 g E) as H0. rewrite drop_0 in H0. rewrite H0. reflexivity.
  - simpl lazy_group. unfold lit at 1.
    destruct (has_prefix L (String c s)) eqn:E.
    + pose proof (H 0 g E) as H0. rewrite drop_0 in H0. rewrite H0.
      apply IH. intros n g' Hn. apply (H (S n) g' Hn).
    + apply IH. intros n g' Hn. apply (H (S n) g' Hn).
Qed.

(** The second group ends at the first closing delimiter. *)
Lemma close_group (g1 : string) s : forall g,
  lazy_group (fun g2 s4 =>
                match lit CLOSE s4 with
                | None => None
                | Some s5 => Some (g1, g2, s5)
                end) g s
  = match find CLOSE s with
    | None => None
    | Some j => Some (g1, g +:+ take j s, drop (j + String.length CLOSE) s)
    end.
Proof.
  intros g. destruct (find CLOSE s) as [j|] eqn:F.
  - apply (lazy_group_first CLOSE (fun g2 s5 => Some (g1, g2, s5)) s g j); [exact F|reflexivity].
  - apply (lazy_group_none CLOSE (fun g2 s5 => Some (g1, g2, s5))).
    intros n g' Hn. rewrite (find_None _ _ n F) in Hn. discriminate.
Qed.

(** The pattern at the head of [s], without backtracking: the first group
    ends at the first separator after the start marker and the second at
    the first closing delimiter after that separator. *)
Lemma match_here_find s :
  match_here s =
    if has_prefix OPEN s then
      let s1 := drop (String.length OPEN) s in
      match find SEP s1 with
      | None => None
      | Some i =>
          let s3 := drop (i + String.length SEP) s1 in
          match find CLOSE s3 with
          | None => None
          | Some j => Some (take i s1, take j s3, drop (j + String.length CLOSE) s3)
          end
      end
    else None.
Proof.
  unfold match_here, lit at 1. destruct (has_prefix OPEN s); [|reflexivity].
  set (s1 := drop (String.length OPEN) s). cbv zeta.
  set (K := fun (g1 s3 : string) =>
              lazy_group (fun (g2 s4 : string) =>
                            match lit CLOSE s4 with
                            | None => None
                            | Some s5 => Some (g1, g2, s5)
                            end) EmptyString s3).
  change (lazy_group (fun g1 s2 => match lit SEP s2 with
                                   | None => None
                                   | Some s3 => K g1 s3
                                   end) EmptyString s1
          = match find SEP s1 with
            | None => None
            | Some i =>
                match find CLOSE (drop (i + String.length SEP) s1) with
                | None => None
                | Some j =>
                    Some (take i s1, take j (drop (i + String.length SEP) s1),
                          drop (j + String.length CLOSE) (drop (i + String.length SEP) s1))
                end
            end).
  destruct (find SEP s1) as [i|] eqn:F.
  - destruct (find CLOSE (drop (i + String.length SEP) s1)) as [j|] eqn:G.
    + apply (lazy_group_first SEP K s1 EmptyString i); [exact F|].
      unfold K. rewrite close_group, G. reflexivity.
    + apply (lazy_group_none SEP K). intros n g' Hn. unfold K. rewrite close_group.
      destruct (find_occurrence _ _ _ Hn) as (i' & Fi & Hle).
      rewrite F in Fi. injection Fi as <-.
      replace (drop (String.length SEP) (drop n s1))
        with (drop (n - i) (drop (i + String.length SEP) s1)).
      * rewrite (find_drop_None _ _ _ G). reflexivity.
      * rewrite !drop_drop. f_equal. lia.
  - apply (lazy_group_none SEP K). intros n g' Hn.
    rewrite (find_None _ _ n F) in Hn. discriminate.
Qed.

Lemma finditer_from_skip_all s : forall k, String.length s <= k -> finditer_from s k = [].
Proof.
  induction s as [|c s IH]; intros k H; [reflexivity|].
  destruct k as [|k]; simpl in H; [lia|]. simpl. apply IH. lia.
Qed.

(** A payload made of one block in the wire format parses to that block,
    when the separator and the closing delimiter first occur where the
    block has them. *)
Lemma finditer_block S R :
  find SEP (S +:+ SEP +:+ R +:+ CLOSE) = Some (String.length S) ->
  find CLOSE (R +:+ CLOSE) = Some (String.length R) ->
  finditer (OPEN +:+ S +:+ SEP +:+ R +:+ CLOSE) = [(S, R)].
Proof.
  intros F G.
  assert (M : match_here (OPEN +:+ S +:+ SEP +:+ R +:+ CLOSE) = Some (S, R, EmptyString)).
  { rewrite match_here_find, has_prefix_app. cbv zeta. rewrite drop_app_length, F.
    rewrite <- drop_drop, drop_app_length, drop_app_length, G.
    rewrite take_app_length, take_app_length.
    rewrite <- drop_drop, drop_app_length. reflexivity. }
  unfold finditer.
  destruct (OPEN +:+ S +:+ SEP +:+ R +:+ CLOSE) as [|c s'] eqn:E; [discriminate E|].
  simpl. rewrite M. f_equal. apply finditer_from_skip_all. simpl. lia.
Qed.

End RegexFacts.

(** ** Facts about [DiffManager] *)

Module DiffFacts.
Import StrFacts RegexFacts DiffManager.

Lemma accumulated_cons M S R bs :
  accumulated M ((S, R) :: bs) = accumulated (Str.replace_first S R M) bs.
Proof. reflexivity. Qed.

(** A block whose search text is counted once is applied. *)
Lemma apply_blocks_step M S R bs :
  Str.count S M = 1 ->
  apply_blocks M ((S, R) :: bs) = apply_blocks (Str.replace_first S R M) bs.
Proof.
  intros H. simpl. assert (C : Str.contains S M = true) by (apply contains_count; lia).
  rewrite C, H. reflexivity.
Qed.

Lemma apply_blocks_head_fails M S R bs :
  Str.count S M <> 1 ->
  (Str.count S M = 0 /\ apply_blocks M ((S, R) :: bs) = Raises (NotFound S))
  \/ (2 <= Str.count S M /\ apply_blocks M ((S, R) :: bs) = Raises (Ambiguous (Str.count S M))).
Proof.
  intros H. simpl. destruct (Str.contains S M) eqn:C.
  - apply contains_count in C. right. split; [lia|].
    destruct (Nat.ltb_spec 1 (Str.count S M)); [reflexivity|lia].
  - left. split; [apply contains_count_0, C|reflexivity].
Qed.

Lemma count_once_dec M S :
  Str.count S M = 1 \/ Str.count S M <> 1.
Proof. destruct (Nat.eq_dec (Str.count S M) 1); [left|right]; assumption. Qed.

Lemma apply_blocks_returns M bs c :
  apply_blocks M bs = Returns c -> c = accumulated M bs.
Proof.
  revert M. induction bs as [|[S R] bs IH]; intros M H.
  - simpl in H. injection H as <-. reflexivity.
  - destruct (count_once_dec M S) as [E|E].
    + rewrite (apply_blocks_step _ _ _ _ E) in H. rewrite accumulated_cons. apply IH, H.
    + destruct (apply_blocks_head_fails M S R bs E) as [[_ F]|[_ F]];
        rewrite F in H; discriminate.
Qed.

(** The error comes from the first block that is not counted once in the
    content left by the blocks before it. *)
Lemma apply_blocks_raises M bs e :
  apply_blocks M bs = Raises e ->
  exists pre S R post,
    bs = pre ++ (S, R) :: post
    /\ apply_blocks M pre = Returns (accumulated M pre)
    /\ ((Str.count S (accumulated M pre) = 0 /\ e = NotFound S)
        \/ (2 <= Str.count S (accumulated M pre)
            /\ e = Ambiguous (Str.count S (accumulated M pre)))).
Proof.
  revert M. induction bs as [|[S R] bs IH]; intros M H; [discriminate|].
  destruct (count_once_dec M S) as [E|E].
  - rewrite (apply_blocks_step _ _ _ _ E) in H.
    destruct (IH _ H) as (pre & S' & R' & post & -> & Hpre & Hkind).
    exists ((S, R) :: pre), S', R', post. rewrite accumulated_cons.
    split; [reflexivity|]. split; [|exact Hkind].
    rewrite (apply_blocks_step _ _ _ _ E). exact Hpre.
  - exists [], S, R, bs. split; [reflexivity|]. split; [reflexivity|].
    destruct (apply_blocks_head_fails M S R bs E) as [[Z F]|[Z F]];
      rewrite F in H; injection H as <-; [left|right]; split; trivial.
Qed.

Lemma apply_blocks_fails M pre S R post :
  Str.count S (accumulated M pre) <> 1 ->
  exists e, apply_blocks M (pre ++ (S, R) :: post) = Raises e.
Proof.
  revert M. induction pre as [|[S' R'] pre IH]; intros M H.
  - destruct (apply_blocks_head_fails M S R post H) as [[_ F]|[_ F]]; eexists; exact F.
  - rewrite <- app_comm_cons. destruct (count_once_dec M S') as [E|E].
    + rewrite (apply_blocks_step _ _ _ _ E). apply IH. exact H.
    + destruct (apply_blocks_head_fails M S' R' (pre ++ (S, R) :: post) E) as [[_ F]|[_ F]];
        eexists; exact F.
Qed.

Lemma apply_diff_blocks O payload :
  Regex.finditer payload <> [] -> apply_diff O payload = apply_blocks O (Regex.finditer payload).
Proof. unfold apply_diff. destruct (Regex.finditer payload); [congruence|reflexivity]. Qed.

End DiffFacts.

(** * The properties of the design document *)

Import DiffManager.

(** ** Patch engine *)

Section PatchEngine.
Import StrFacts RegexFacts DiffFacts.

(** The repository's own tests of [apply_diff]. *)
Example test_apply_diff_single_block :
  apply_diff Inputs.three_lines Inputs.single_block
  = Returns ("line1" +:+ Regex.NL +:+ "line2_modified" +:+ Regex.NL +:+ "line3" +:+ Regex.NL).
Proof. vm_compute. reflexivity. Qed.

Example test_apply_diff_missing_block :
  apply_diff ("line1" +:+ Regex.NL) (Inputs.block "missing" "new") = Raises (NotFound "missing").
Proof. vm_compute. reflexivity. Qed.

Example test_apply_diff_ambiguous_block :
  apply_diff ("line1" +:+ Regex.NL +:+ "line1" +:+ Regex.NL) (Inputs.block "line1" "new")
  = Raises (Ambiguous 2).
Proof. vm_compute. reflexivity. Qed.

(** C1, as stated, fails: with [O = "aabb"] and the single block
    [("ab", "")], the search text is counted once in [O], the replace text
    is empty, and the result ["ab"] is an occurrence of the search text
    made of the characters around the deleted one. *)
Lemma exact_match_residual_occurrence :
  Regex.finditer Inputs.delete_ab = [("ab", "")]
  /\ Str.count "ab" "aabb" = 1
  /\ Str.contains "ab" "" = false
  /\ apply_diff "aabb" Inputs.delete_ab = Returns "ab"
  /\ Str.contains "ab" "ab" = true.
Proof. vm_compute. repeat split; reflexivity. Qed.

(** C1, amended: when the payload parses to the single block [(S, R)] and
    [S] is counted once in [O], [apply_diff] returns [O] with the leftmost
    occurrence of [S] replaced by [R]; [S] occurs neither in the text before
    the replaced occurrence nor in the text after it, and every occurrence
    of a non-empty [S] in the result includes a character of [R] or spans
    the place where [R] was put. *)
Theorem exact_match_single_block O payload S R :
  Regex.finditer payload = [(S, R)] ->
  Str.count S O = 1 ->
  exists A C,
    O = A +:+ S +:+ C
    /\ apply_diff O payload = Returns (A +:+ R +:+ C)
    /\ (forall j, j < String.length A -> Str.has_prefix S (Str.drop j O) = false)
    /\ (S <> "" -> Str.contains S A = false /\ Str.contains S C = false)
    /\ (S <> "" -> forall k,
          Str.has_prefix S (Str.drop k (A +:+ R +:+ C)) = true ->
          k < String.length A + String.length R /\ String.length A < k + String.length S).
Proof.
  intros Hparse Hcount.
  assert (Hin : Str.contains S O = true) by (apply contains_count; lia).
  destruct (Str.find S O) as [i|] eqn:F;
    [|unfold Str.contains in Hin; rewrite F in Hin; discriminate].
  destruct (find_split _ _ _ F) as [Hsplit Hlen].
  destruct (find_Some _ _ _ F) as (_ & _ & Hleft).
  set (A := Str.take i O) in *. set (C := Str.drop (i + String.length S) O) in *.
  assert (HC : S <> "" -> Str.contains S C = false).
  { intros Hne. apply contains_count_0. rewrite (count_find _ _ Hne), F in Hcount.
    fold C in Hcount. lia. }
  assert (HA : S <> "" -> Str.contains S A = false).
  { intros Hne. destruct (Str.contains S A) eqn:E; [|reflexivity]. exfalso.
    apply contains_true in E as [j Hj].
    pose proof (has_prefix_nonempty_length _ _ _ Hne Hj) as Hjl.
    assert (j < i) by (destruct S; [congruence|simpl in Hjl; lia]).
    assert (T : Str.has_prefix S (Str.drop j O) = true).
    { rewrite Hsplit, drop_app_le by lia. apply has_prefix_app_ext, Hj. }
    rewrite Hleft in T by assumption. discriminate. }
  exists A, C. split; [exact Hsplit|]. split; [|split; [|split; [|]]].
  - rewrite apply_diff_blocks by (rewrite Hparse; discriminate).
    rewrite Hparse, apply_blocks_step by exact Hcount. simpl.
    unfold Str.replace_first. rewrite F. reflexivity.
  - rewrite Hlen. exact Hleft.
  - intros Hne. split; [apply HA|apply HC]; exact Hne.
  - intros Hne k Hk. split.
    + destruct (le_lt_dec (String.length A + String.length R) k) as [L|L]; [|exact L].
      exfalso. rewrite <- app_assoc in Hk. rewrite drop_app_ge in Hk by (rewrite length_app; lia).
      rewrite (contains_false _ _ _ (HC Hne)) in Hk. discriminate.
    + destruct (le_lt_dec (k + String.length S) (String.length A)) as [L|L]; [|exact L].
      exfalso. assert (k < i) by (destruct S; [congruence|simpl in L; lia]).
      rewrite drop_app_le in Hk by lia.
      rewrite has_prefix_app_short in Hk by (rewrite length_drop; lia).
      assert (T : Str.has_prefix S (Str.drop k O) = true).
      { rewrite Hsplit, drop_app_le by lia. apply has_prefix_app_ext, Hk. }
      rewrite Hleft in T by assumption. discriminate.
Qed.

Lemma exact_match_single_block_witness :
  exists A C,
    Inputs.three_lines = A +:+ "line2" +:+ C
    /\ apply_diff Inputs.three_lines Inputs.single_block = Returns (A +:+ "line2_modified" +:+ C).
Proof.
  destruct (exact_match_single_block Inputs.three_lines Inputs.single_block
              "line2" "line2_modified") as (A & C & H1 & H2 & _).
  - vm_compute. reflexivity.
  - vm_compute. reflexivity.
  - exists A, C. split; assumption.
Defined.

(** C6: a payload without the start marker is returned as it is, whatever
    the original content. *)
Theorem full_replacement_fallback O payload :
  Str.contains Regex.SEARCH_MARKER payload = false ->
  apply_diff O payload = Returns payload.
Proof.
  intros H. unfold apply_diff. rewrite (no_marker_no_match _ H), H. reflexivity.
Qed.

Lemma full_replacement_fallback_witness :
  apply_diff "line1" "line1_mod" = Returns "line1_mod".
Proof. apply (full_replacement_fallback "line1" "line1_mod"). vm_compute. reflexivity. Defined.

(** C7: a payload with the start marker in which the pattern matches
    nowhere leaves the original content as the result. *)
Theorem marker_without_block_is_noop O payload :
  Str.contains Regex.SEARCH_MARKER payload = true ->
  Regex.finditer payload = [] ->
  apply_diff O payload = Returns O.
Proof. intros H1 H2. unfold apply_diff. rewrite H2, H1. reflexivity. Qed.

Lemma marker_without_block_is_noop_witness :
  apply_diff "original" Inputs.marker_only = Returns "original".
Proof.
  apply (marker_without_block_is_noop "original" Inputs.marker_only); vm_compute; reflexivity.
Defined.

(** C9, as stated, fails: in ["axaa"] the blocks [("x", "")] and
    [("aa", "c")] target disjoint text, no search text shares a character
    with the other block's replace text, and each block is counted once in
    the content it is applied to, in both orders; yet the two orders give
    ["ca"] and ["ac"].  Deleting ["x"] makes a second, overlapping
    occurrence of ["aa"], which [count] does not see and [replace] takes. *)
Lemma block_order_matters :
  Regex.finditer Inputs.x_then_aa = [("x", ""); ("aa", "c")]
  /\ Regex.finditer Inputs.aa_then_x = [("aa", "c"); ("x", "")]
  /\ "axaa" = "a" +:+ "x" +:+ "" +:+ "aa" +:+ ""
  /\ Str.common_char "aa" "" = false /\ Str.common_char "x" "c" = false
  /\ Str.count "x" "axaa" = 1 /\ Str.count "aa" (Str.replace_first "x" "" "axaa") = 1
  /\ Str.count "aa" "axaa" = 1 /\ Str.count "x" (Str.replace_first "aa" "c" "axaa") = 1
  /\ apply_diff "axaa" Inputs.x_then_aa = Returns "ca"
  /\ apply_diff "axaa" Inputs.aa_then_x = Returns "ac".
Proof. vm_compute. repeat split; reflexivity. Qed.

(** C9, amended: for two blocks that target disjoint text of [O], applying
    both gives the same content in either order, provided each search text
    occurs at exactly one offset (overlapping occurrences included) of the
    content it is applied to, in both orders. *)
Theorem disjoint_blocks_commute O A S1 B S2 C R1 R2 p12 p21 :
  O = A +:+ S1 +:+ B +:+ S2 +:+ C ->
  Regex.finditer p12 = [(S1, R1); (S2, R2)] ->
  Regex.finditer p21 = [(S2, R2); (S1, R1)] ->
  List.length (Str.occurrences S1 O) = 1 ->
  List.length (Str.occurrences S2 (A +:+ R1 +:+ B +:+ S2 +:+ C)) = 1 ->
  List.length (Str.occurrences S2 O) = 1 ->
  List.length (Str.occurrences S1 (A +:+ S1 +:+ B +:+ R2 +:+ C)) = 1 ->
  apply_diff O p12 = Returns (A +:+ R1 +:+ B +:+ R2 +:+ C)
  /\ apply_diff O p21 = Returns (A +:+ R1 +:+ B +:+ R2 +:+ C).
Proof.
  intros -> P12 P21 U1 U2 V2 V1.
  assert (E : forall X Y Z, A +:+ X +:+ B +:+ Y +:+ Z = (A +:+ X +:+ B) +:+ Y +:+ Z)
    by (intros; rewrite !app_assoc; reflexivity).
  split.
  - rewrite apply_diff_blocks, P12 by (rewrite P12; discriminate).
    destruct (single_occurrence S1 R1 A (B +:+ S2 +:+ C) U1) as (_ & c1 & r1).
    rewrite apply_blocks_step, r1 by exact c1.
    rewrite E in U2.
    destruct (single_occurrence S2 R2 (A +:+ R1 +:+ B) C U2) as (_ & c2 & r2).
    rewrite E, apply_blocks_step, r2 by exact c2. simpl. rewrite <- E. reflexivity.
  - rewrite apply_diff_blocks, P21 by (rewrite P21; discriminate).
    rewrite E in V2.
    destruct (single_occurrence S2 R2 (A +:+ S1 +:+ B) C V2) as (_ & c2 & r2).
    rewrite E, apply_blocks_step, r2 by exact c2. rewrite <- E.
    destruct (single_occurrence S1 R1 A (B +:+ R2 +:+ C) V1) as (_ & c1 & r1).
    rewrite apply_blocks_step, r1 by exact c1. reflexivity.
Qed.

Lemma disjoint_blocks_commute_witness :
  apply_diff Inputs.four_lines Inputs.line1_then_line4
  = Returns ("line1_mod" +:+ Regex.NL +:+ "line2" +:+ Regex.NL +:+ "line3" +:+ Regex.NL
             +:+ "line4_mod" +:+ Regex.NL)
  /\ apply_diff Inputs.four_lines Inputs.line4_then_line1
     = Returns ("line1_mod" +:+ Regex.NL +:+ "line2" +:+ Regex.NL +:+ "line3" +:+ Regex.NL
                +:+ "line4_mod" +:+ Regex.NL).
Proof.
  apply (disjoint_blocks_commute Inputs.four_lines
           "" "line1" (Regex.NL +:+ "line2" +:+ Regex.NL +:+ "line3" +:+ Regex.NL)
           "line4" Regex.NL "line1_mod" "line4_mod"
           Inputs.line1_then_line4 Inputs.line4_then_line1);
    vm_compute; reflexivity.
Defined.

End PatchEngine.

(** ** Facts about the repair loop *)

Module ServiceFacts.
Import Service.

Lemma attempts_made_app a b : attempts_made (a ++ b) = attempts_made a + attempts_made b.
Proof. unfold attempts_made. rewrite List.filter_app, List.length_app. reflexivity. Qed.

Lemma processed_app a b : processed (a ++ b) = processed a ++ processed b.
Proof. unfold processed. apply List.flat_map_app. Qed.

Lemma new_events_app w w' evs : out w' = out w ++ evs -> new_events w w' = evs.
Proof. intros H. unfold new_events. rewrite H. apply drop_app_length. Qed.

(** [check_code] prints at most one warning. *)
Lemma check_code_warnings self files filename :
  snd (check_code self files filename) = []
  \/ exists m, snd (check_code self files filename) = [Warning m].
Proof.
  unfold check_code. repeat case_match; simpl; eauto.
Qed.

#[local] Arguments process_entry : simpl never.

Lemma staged_app a b : staged (a ++ b) = staged a ++ staged b.
Proof. unfold staged. apply List.flat_map_app. Qed.

(** *** dictionaries *)

Lemma keys_set {V} k (v : V) d f :
  In f (Dict.keys (Dict.set k v d)) <-> f = k \/ In f (Dict.keys d).
Proof.
  unfold Dict.keys. induction d as [|[k' v'] d IH]; simpl.
  - intuition congruence.
  - destruct (String.eqb_spec k k') as [->|Hne]; simpl; [intuition congruence|].
    rewrite IH. intuition congruence.
Qed.

Lemma keys_update {V} (d other : list (string * V)) f :
  In f (Dict.keys (Dict.update d other)) <-> In f (Dict.keys d) \/ In f (Dict.keys other).
Proof.
  unfold Dict.update. revert d. induction other as [|[k v] other IH]; intros d; simpl.
  - unfold Dict.keys. simpl. intuition.
  - rewrite IH, keys_set. unfold Dict.keys. simpl. intuition congruence.
Qed.

(** *** the output does not steer the loop *)



End ServiceFacts.

(** ** Validator and repair loop *)

Import Service.

Section RepairLoop.
Import ServiceFacts.

(** The end-to-end scenarios of the design document. *)
Example scenario_typo_fixed_without_retry :
  option_map (fun r => (fst r, fs (snd r) !! "workdir/main.py", attempts_made (out (snd r))))
    (validate_and_fix Inputs.demo Inputs.fix_typo Inputs.world_with_main)
  = Some (true,
          Some ("def main():" +:+ Regex.NL +:+ "    print('Hello World')" +:+ Regex.NL), 1).
Proof. vm_compute. reflexivity. Qed.

Example scenario_fixed_on_second_attempt :
  option_map (fun r => (fst r, attempts_made (out (snd r))))
    (validate_and_fix Inputs.demo
       [("b.py", PyStr (Inputs.block "missing" "new"))]
       {| fs := {[ "workdir/b.py" := "print('old')" ]}; index := []; out := [] |})
  = Some (true, 2).
Proof. vm_compute. reflexivity. Qed.

Example scenario_empty_change_set w :
  validate_and_fix Inputs.demo [] w = Some (false, w).
Proof. reflexivity. Qed.

(** C2: when the payload parses to at least one block, [apply_diff] fails
    exactly when some block's search text is not counted once in the
    content accumulated from the blocks before it; the error is that of the
    first such block, not-found for a count of zero and ambiguous for a
    count of two or more, every block before it having applied; and no
    content is returned. *)
Theorem apply_diff_fails_iff O payload :
  Regex.finditer payload <> [] ->
  ((exists e, apply_diff O payload = Raises e)
   <-> (exists pre S R post,
          Regex.finditer payload = pre ++ (S, R) :: post
          /\ Str.count S (accumulated O pre) <> 1))
  /\ (forall e, apply_diff O payload = Raises e ->
        exists pre S R post,
          Regex.finditer payload = pre ++ (S, R) :: post
          /\ apply_blocks O pre = Returns (accumulated O pre)
          /\ ((Str.count S (accumulated O pre) = 0 /\ e = NotFound S)
              \/ (2 <= Str.count S (accumulated O pre)
                  /\ e = Ambiguous (Str.count S (accumulated O pre)))))
  /\ (forall e, apply_diff O payload = Raises e ->
        forall content, apply_diff O payload <> Returns content).
Proof.
  intros Hblocks. rewrite (DiffFacts.apply_diff_blocks O payload Hblocks).
  split; [split|split].
  - intros [e He]. destruct (DiffFacts.apply_blocks_raises _ _ _ He)
      as (pre & S & R & post & Hsplit & _ & Hkind).
    exists pre, S, R, post. split; [exact Hsplit|]. destruct Hkind as [[Hc _]|[Hc _]]; lia.
  - intros (pre & S & R & post & -> & Hc). apply DiffFacts.apply_blocks_fails, Hc.
  - intros e He. apply DiffFacts.apply_blocks_raises, He.
  - intros e He content Hr. rewrite He in Hr. discriminate.
Qed.

Lemma apply_diff_fails_iff_witness :
  exists pre S R post,
    Regex.finditer (Inputs.block "missing" "new") = pre ++ (S, R) :: post
    /\ ((Str.count S (accumulated "line1" pre) = 0
         /\ NotFound "missing" = NotFound S)
        \/ (2 <= Str.count S (accumulated "line1" pre)
            /\ NotFound "missing" = Ambiguous (Str.count S (accumulated "line1" pre)))).
Proof.
  destruct (apply_diff_fails_iff "line1" (Inputs.block "missing" "new")) as (_ & H & _).
  - vm_compute. discriminate.
  - destruct (H (NotFound "missing")) as (pre & S & R & post & H1 & _ & H2).
    + vm_compute. reflexivity.
    + exists pre, S, R, post. split; assumption.
Defined.




(** C5, as stated, fails: with [a.py] valid and [b.py] invalid, [a.py]
    passes in attempt 1 and is written, validated and staged again in
    attempt 2. *)
Lemma passing_file_is_processed_again :
  option_map (fun r => (fst r, out (snd r)))
    (validate_and_fix Inputs.demo Inputs.good_and_bad Inputs.empty_world)
  = Some (true, Inputs.good_and_bad_output)
  /\ passed_then_touched Inputs.good_and_bad_output = true.
Proof. vm_compute. split; reflexivity. Qed.

(** C8: for a Python file that compiles, a style checker that exits
    non-zero with empty output, is absent, or fails to run makes
    [check_code] return [None], with at most a warning printed; an error
    from [check_code] then means that the checker has exited non-zero with
    non-empty output. *)
Theorem linter_trouble_is_not_a_failure self files filename source :
  Str.has_suffix ".py" filename = true ->
  files !! filename = Some source ->
  py_compile self source filename = Compiles ->
  (forall returncode,
     ruff_check self filename source = Completed returncode "" ->
     returncode <> 0%Z ->
     check_code self files filename = (None, []))
  /\ (ruff_check self filename source = RaisesFileNotFoundError ->
      exists m, check_code self files filename = (None, [Warning m]))
  /\ (forall e,
        ruff_check self filename source = RaisesOnRun e ->
        exists m, check_code self files filename = (None, [Warning m]))
  /\ (forall error warnings,
        check_code self files filename = (Some error, warnings) ->
        exists returncode stdout,
          ruff_check self filename source = Completed returncode stdout
          /\ returncode <> 0%Z /\ stdout <> "" /\ Str.strip stdout <> ""
          /\ warnings = []).
Proof.
  intros Hpy Hfile Hcompile. unfold check_code. rewrite Hpy, Hfile, Hcompile. simpl.
  split; [|split; [|split]].
  - intros rc -> Hrc. destruct (Z.eqb_spec rc 0); [contradiction|reflexivity].
  - intros ->. eauto.
  - intros e ->. eauto.
  - intros error warnings H.
    destruct (ruff_check self filename source) as [rc stdout| |e]; try discriminate.
    destruct (Z.eqb_spec rc 0); simpl in H; [discriminate|].
    destruct (Str.strip stdout) eqn:E; simpl in H; [discriminate|].
    injection H as _ <-. exists rc, stdout.
    split; [reflexivity|]. split; [assumption|]. split; [|split; [rewrite E; discriminate|reflexivity]].
    intros ->. vm_compute in E. discriminate E.
Qed.

Lemma linter_trouble_is_not_a_failure_witness :
  check_code Inputs.silent_failure (fs Inputs.world_with_a) "workdir/a.py" = (None, []).
Proof.
  destruct (linter_trouble_is_not_a_failure Inputs.silent_failure (fs Inputs.world_with_a)
              "workdir/a.py" Inputs.three_lines) as (H & _).
  - vm_compute. reflexivity.
  - vm_compute. reflexivity.
  - reflexivity.
  - apply (H 2%Z); [reflexivity|discriminate].
Defined.

(** C10: the ChangeSet [odd_shapes] is not empty and none of its payloads
    is a string or a dict with a ["content"] key; with any collaborators
    and in any workspace [validate_and_fix] returns [true] for it in the
    first attempt: each entry is skipped, nothing is written, validated or
    staged, no failure is recorded and no fix is requested. *)
Theorem skipped_entries_do_not_block_success self w :
  Inputs.odd_shapes <> []
  /\ Forall (fun entry => ~ well_shaped (snd entry)) Inputs.odd_shapes
  /\ validate_and_fix self Inputs.odd_shapes w
     = Some (true,
             {| fs := fs w;
                index := index w;
                out := out w ++ [ Attempt 1 3;
                                  Processing "notes.txt"; SkippingNotString "notes.txt";
                                  Processing "data.json"; SkippingNotString "data.json";
                                  Processing "config.yaml"; SkippingNoContentKey "config.yaml";
                                  ValidationPassed ] |})
  /\ snd (attempt self 3 0 Inputs.odd_shapes w) = [].
Proof.
  split; [discriminate|]. split.
  - repeat constructor; simpl; intros [[s H]|(d & s & H & G)]; try discriminate H.
    injection H as <-. discriminate G.
  - split; [|reflexivity]. unfold validate_and_fix, validate_and_fix_with. simpl.
    unfold emit. simpl. rewrite <- !List.app_assoc. reflexivity.
Qed.

End RepairLoop.

(** ** More facts about the pattern *)

Module RegexMore.
Import Str StrFacts Regex RegexFacts.

Lemma finditer_from_drop s : forall k, finditer_from s k = finditer_from (drop k s) 0.
Proof.
  induction s as [|c s IH]; intros [|k]; try reflexivity. simpl drop.
  change (finditer_from (String c s) (S k)) with (finditer_from s k). apply IH.
Qed.

(** Text in which the pattern cannot start is passed over. *)
Lemma finditer_skip_prefix pre : forall t,
  (forall j, j < String.length pre -> has_prefix OPEN (drop j (pre +:+ t)) = false) ->
  finditer (pre +:+ t) = finditer t.
Proof.
  induction pre as [|c pre IH]; intros t H; [reflexivity|].
  unfold finditer. rewrite app_cons. simpl finditer_from.
  assert (M : match_here (String c (pre +:+ t)) = None).
  { assert (H0 : has_prefix OPEN (drop 0 (String c pre +:+ t)) = false)
      by (apply H; simpl; lia).
    rewrite drop_0, app_cons in H0. rewrite match_here_find, H0. reflexivity. }
  rewrite M. apply IH. intros j Hj. apply (H (S j)). simpl. lia.
Qed.

(** A match stands in the text in the wire format, with the first
    separator and the first closing delimiter as its own. *)
Lemma match_here_shape s g1 g2 rest :
  match_here s = Some (g1, g2, rest) ->
  s = OPEN +:+ g1 +:+ SEP +:+ g2 +:+ CLOSE +:+ rest
  /\ contains SEP g1 = false /\ contains CLOSE g2 = false.
Proof.
  rewrite match_here_find. destruct (has_prefix OPEN s) eqn:Ho; [|discriminate]. cbv zeta.
  destruct (find SEP (drop (String.length OPEN) s)) as [i|] eqn:F; [|discriminate].
  destruct (find CLOSE (drop (i + String.length SEP) (drop (String.length OPEN) s)))
    as [j|] eqn:G; [|discriminate].
  intros [= <- <- <-].
  assert (No : forall sub t n, sub <> EmptyString -> find sub t = Some n ->
                               contains sub (take n t) = false).
  { intros sub t n Hne Fn. destruct (contains sub (take n t)) eqn:E; [|reflexivity]. exfalso.
    destruct (find_Some _ _ _ Fn) as (_ & Hle & Hleft).
    apply contains_true in E as [q Hq].
    pose proof (has_prefix_nonempty_length _ _ _ Hne Hq) as Hql.
    rewrite length_take in Hql by exact Hle.
    assert (q < n) by (destruct sub; [congruence|simpl in Hql; lia]).
    assert (T : has_prefix sub (drop q t) = true).
    { rewrite <- (take_drop n t), drop_app_le by (rewrite length_take; lia).
      apply has_prefix_app_ext, Hq. }
    rewrite Hleft in T by assumption. discriminate. }
  split; [|split; [apply No; [discriminate|exact F]|apply No; [discriminate|exact G]]].
  rewrite (has_prefix_drop _ _ Ho) at 1. f_equal.
  destruct (find_split _ _ _ F) as [E1 _]. rewrite E1 at 1. f_equal. f_equal.
  destruct (find_split _ _ _ G) as [E2 _]. rewrite E2 at 1. reflexivity.
Qed.

(** Every block of [finditer] is a match at some offset of the text. *)
Lemma finditer_from_In s : forall k sb rb,
  In (sb, rb) (finditer_from s k) ->
  exists j rest, j <= String.length s /\ match_here (drop j s) = Some (sb, rb, rest).
Proof.
  induction s as [|c s IH]; intros k sb rb H; [contradiction H|].
  destruct k as [|k]; simpl in H.
  - destruct (match_here (String c s)) as [[[g1 g2] rest]|] eqn:M.
    + destruct H as [[= <- <-]|H].
      * exists 0, rest. split; [lia|exact M].
      * destruct (IH _ _ _ H) as (j & rest' & Hj & Hm). exists (S j), rest'.
        split; [simpl; lia|exact Hm].
    + destruct (IH _ _ _ H) as (j & rest' & Hj & Hm). exists (S j), rest'.
      split; [simpl; lia|exact Hm].
  - destruct (IH _ _ _ H) as (j & rest' & Hj & Hm). exists (S j), rest'.
    split; [simpl; lia|exact Hm].
Qed.

(** The pattern at the head of a block in the wire format. *)
Lemma match_here_block S R rest :
  find SEP (S +:+ SEP +:+ R +:+ CLOSE +:+ rest) = Some (String.length S) ->
  find CLOSE (R +:+ CLOSE +:+ rest) = Some (String.length R) ->
  match_here (OPEN +:+ S +:+ SEP +:+ R +:+ CLOSE +:+ rest) = Some (S, R, rest).
Proof.
  intros F G. rewrite match_here_find, has_prefix_app. cbv zeta. rewrite drop_app_length, F.
  rewrite <- drop_drop, drop_app_length, drop_app_length, G.
  rewrite take_app_length, take_app_length.
  rewrite <- drop_drop, drop_app_length, drop_app_length. reflexivity.
Qed.

Lemma finditer_block_rest S R rest :
  find SEP (S +:+ SEP +:+ R +:+ CLOSE +:+ rest) = Some (String.length S) ->
  find CLOSE (R +:+ CLOSE +:+ rest) = Some (String.length R) ->
  finditer (OPEN +:+ S +:+ SEP +:+ R +:+ CLOSE +:+ rest) = (S, R) :: finditer rest.
Proof.
  intros F G. pose proof (match_here_block S R rest F G) as M.
  assert (L : String.length (OPEN +:+ S +:+ SEP +:+ R +:+ CLOSE +:+ rest)
              = String.length (OPEN +:+ S +:+ SEP +:+ R +:+ CLOSE) + String.length rest)
    by (rewrite !length_app; lia).
  assert (D : drop (String.length (OPEN +:+ S +:+ SEP +:+ R +:+ CLOSE))
                (OPEN +:+ S +:+ SEP +:+ R +:+ CLOSE +:+ rest) = rest).
  { replace (OPEN +:+ S +:+ SEP +:+ R +:+ CLOSE +:+ rest)
      with ((OPEN +:+ S +:+ SEP +:+ R +:+ CLOSE) +:+ rest) by (rewrite !app_assoc; reflexivity).
    apply drop_app_length. }
  assert (P : 1 <= String.length (OPEN +:+ S +:+ SEP +:+ R +:+ CLOSE))
    by (rewrite length_app; unfold OPEN; simpl; lia).
  remember (String.length (OPEN +:+ S +:+ SEP +:+ R +:+ CLOSE)) as n eqn:En. clear En.
  unfold finditer.
  destruct (OPEN +:+ S +:+ SEP +:+ R +:+ CLOSE +:+ rest) as [|c s'] eqn:E; [discriminate E|].
  simpl finditer_from. rewrite M. f_equal. rewrite finditer_from_drop. f_equal.
  destruct n as [|n]; [lia|]. simpl in L, D.
  replace (String.length s' - String.length rest) with n by lia. exact D.
Qed.

End RegexMore.

(** * Further properties of the code *)

(** ** Patch engine *)

Section PatchEngineMore.
Import StrFacts RegexFacts DiffFacts.

(** X1: when the payload parses to at least one block, [apply_diff]
    returns exactly when every block's search text is counted once in the
    content accumulated from the blocks before it, and what it returns is
    the original with the blocks applied in payload order. *)
Theorem apply_diff_returns_iff O payload :
  Regex.finditer payload <> [] ->
  (forall content,
     apply_diff O payload = Returns content ->
     content = accumulated O (Regex.finditer payload)
     /\ forall pre S R post,
          Regex.finditer payload = pre ++ (S, R) :: post ->
          Str.count S (accumulated O pre) = 1)
  /\ ((forall pre S R post,
         Regex.finditer payload = pre ++ (S, R) :: post ->
         Str.count S (accumulated O pre) = 1) ->
      apply_diff O payload = Returns (accumulated O (Regex.finditer payload))).
Proof.
  intros Hblocks. rewrite (apply_diff_blocks O payload Hblocks). split.
  - intros content H. split; [apply apply_blocks_returns, H|].
    intros pre S R post Hsplit.
    destruct (Nat.eq_dec (Str.count S (accumulated O pre)) 1) as [E|E]; [exact E|].
    destruct (apply_blocks_fails O pre S R post E) as [e He].
    rewrite <- Hsplit, H in He. discriminate.
  - intros Hall. destruct (apply_blocks O (Regex.finditer payload)) as [content|e] eqn:H.
    + f_equal. apply apply_blocks_returns, H.
    + destruct (apply_blocks_raises _ _ _ H) as (pre & S & R & post & Hsplit & _ & Hkind).
      specialize (Hall pre S R post Hsplit). destruct Hkind as [[Hc _]|[Hc _]]; lia.
Qed.

Lemma apply_diff_returns_iff_witness :
  apply_diff Inputs.four_lines Inputs.line1_then_line4
  = Returns (accumulated Inputs.four_lines (Regex.finditer Inputs.line1_then_line4)).
Proof.
  destruct (apply_diff_returns_iff Inputs.four_lines Inputs.line1_then_line4) as [_ H].
  - vm_compute. discriminate.
  - apply H. intros pre S R post Hsplit.
    assert (E : Regex.finditer Inputs.line1_then_line4
                = [("line1", "line1_mod"); ("line4", "line4_mod")]) by (vm_compute; reflexivity).
    rewrite E in Hsplit.
    destruct pre as [|b1 [|b2 [|b3 pre]]]; simpl in Hsplit; try discriminate Hsplit.
    + injection Hsplit as <- <- _. vm_compute. reflexivity.
    + injection Hsplit as <- <- <- _. vm_compute. reflexivity.
Defined.

(** X2: a block in the wire format parses back to its search and replace
    text, whatever stands before it and after it, and the parse goes on
    after the block: the start marker must not occur earlier, and the
    separator and the closing delimiter must first occur where the block
    has them. *)
Theorem wire_format_round_trip pre S R rest :
  Str.find Regex.OPEN
    (pre +:+ Regex.OPEN +:+ S +:+ Regex.SEP +:+ R +:+ Regex.CLOSE +:+ rest)
  = Some (String.length pre) ->
  Str.find Regex.SEP (S +:+ Regex.SEP +:+ R +:+ Regex.CLOSE +:+ rest) = Some (String.length S) ->
  Str.find Regex.CLOSE (R +:+ Regex.CLOSE +:+ rest) = Some (String.length R) ->
  Regex.finditer (pre +:+ Regex.OPEN +:+ S +:+ Regex.SEP +:+ R +:+ Regex.CLOSE +:+ rest)
  = (S, R) :: Regex.finditer rest.
Proof.
  intros Fo Fs Fc. rewrite RegexMore.finditer_skip_prefix.
  - apply RegexMore.finditer_block_rest; assumption.
  - intros j Hj. destruct (find_Some _ _ _ Fo) as (_ & _ & Hleft). apply Hleft, Hj.
Qed.

Lemma wire_format_round_trip_witness :
  Regex.finditer Inputs.line1_then_line4
  = ("line1", "line1_mod") :: Regex.finditer MoreInputs.after_line1.
Proof.
  apply (wire_format_round_trip EmptyString "line1" "line1_mod" MoreInputs.after_line1);
    vm_compute; reflexivity.
Defined.

(** X3: every block that [finditer] yields stands in the payload in the
    wire format; its search text does not contain the separator line and
    its replace text does not contain the closing line, so text with these
    lines cannot be searched for or put in. *)
Theorem parsed_block_shape payload S R :
  In (S, R) (Regex.finditer payload) ->
  (exists before after,
     payload = before +:+ Regex.OPEN +:+ S +:+ Regex.SEP +:+ R +:+ Regex.CLOSE +:+ after)
  /\ Str.contains Regex.SEP S = false
  /\ Str.contains Regex.CLOSE R = false.
Proof.
  intros H. destruct (RegexMore.finditer_from_In _ _ _ _ H) as (j & rest & Hj & M).
  destruct (RegexMore.match_here_shape _ _ _ _ M) as (E & H1 & H2).
  split; [|split; assumption].
  exists (Str.take j payload), rest. rewrite <- E. symmetry. apply take_drop.
Qed.

Lemma parsed_block_shape_witness :
  Str.contains Regex.SEP "line4" = false /\ Str.contains Regex.CLOSE "line4_mod" = false.
Proof.
  apply (parsed_block_shape Inputs.line1_then_line4 "line4" "line4_mod").
  vm_compute. right. left. reflexivity.
Defined.

(** X4: a block with an empty search text replaces an empty file by its
    replace text and is ambiguous on every other file, where the empty
    text is counted once more than the file has characters. *)
Theorem empty_search_block O payload R :
  Regex.finditer payload = [(EmptyString, R)] ->
  apply_diff EmptyString payload = Returns R
  /\ (O <> EmptyString ->
      apply_diff O payload = Raises (Ambiguous (String.length O + 1))).
Proof.
  intros Hparse. rewrite !apply_diff_blocks by (rewrite Hparse; discriminate).
  rewrite Hparse. split.
  { change (apply_blocks EmptyString [(EmptyString, R)])
      with (Returns (EmptyString +:+ R +:+ EmptyString)).
    rewrite app_nil_l, app_nil_r. reflexivity. }
  intros Hne. destruct O as [|c O]; [congruence|]. simpl.
  destruct (Nat.ltb_spec 1 (S (String.length O + 1))); [reflexivity|lia].
Qed.

Lemma empty_search_block_witness :
  apply_diff EmptyString MoreInputs.empty_search = Returns "foo"
  /\ apply_diff "x" MoreInputs.empty_search = Raises (Ambiguous 2).
Proof.
  destruct (empty_search_block "x" MoreInputs.empty_search "foo") as [H1 H2].
  - vm_compute. reflexivity.
  - split; [exact H1|]. apply H2. discriminate.
Defined.

End PatchEngineMore.

(** ** More facts about the repair loop *)

Module SessionFacts.
Import Service Session ServiceFacts.

Lemma requests_made_app a b : requests_made (a ++ b) = requests_made a + requests_made b.
Proof. unfold requests_made. rewrite List.filter_app, List.length_app. reflexivity. Qed.

End SessionFacts.

(** ** Facts about whitespace and dictionaries *)

Module MoreFacts.
Import Service Session.

Lemma blank_lstrip s : Text.blank (Str.lstrip s) = Text.blank s.
Proof.
  unfold Text.blank. induction s as [|c s IH]; [reflexivity|]. simpl.
  destruct (Str.is_space c) eqn:E; [exact IH|]. simpl. rewrite E. reflexivity.
Qed.

Lemma rstrip_blank s : Service.truthy (Str.rstrip s) = negb (Text.blank s).
Proof.
  unfold Text.blank. induction s as [|c s IH]; [reflexivity|]. simpl.
  destruct (Str.rstrip s) as [|d r].
  - simpl in IH. destruct (forallb Str.is_space (list_ascii_of_string s)); [|discriminate].
    destruct (Str.is_space c); reflexivity.
  - simpl in IH. destruct (forallb Str.is_space (list_ascii_of_string s)); [discriminate|].
    rewrite andb_false_r. reflexivity.
Qed.

(** [s.strip()] is empty exactly for a text of whitespace. *)
Lemma strip_blank s : Service.truthy (Str.strip s) = negb (Text.blank s).
Proof. unfold Str.strip. rewrite rstrip_blank, blank_lstrip. reflexivity. Qed.

(** *** [d[k] = v] and [d.update(other)] *)

Lemma get_set_eq {V} k (v : V) d : Dict.get k (Dict.set k v d) = Some v.
Proof.
  induction d as [|[k' v'] d IH]; simpl.
  - rewrite String.eqb_refl. reflexivity.
  - destruct (String.eqb_spec k k') as [->|Hne]; simpl.
    + rewrite String.eqb_refl. reflexivity.
    + destruct (String.eqb_spec k k'); [contradiction|exact IH].
Qed.

Lemma get_set_ne {V} k k' (v : V) d : k <> k' -> Dict.get k' (Dict.set k v d) = Dict.get k' d.
Proof.
  intros Hne. induction d as [|[k0 v0] d IH]; simpl.
  - destruct (String.eqb_spec k' k); [congruence|reflexivity].
  - destruct (String.eqb_spec k k0) as [->|Hne0]; simpl.
    + destruct (String.eqb_spec k' k0); [congruence|reflexivity].
    + destruct (String.eqb_spec k' k0); [reflexivity|exact IH].
Qed.

Lemma get_app {V} k (a b : list (string * V)) :
  Dict.get k (a ++ b) = match Dict.get k a with Some v => Some v | None => Dict.get k b end.
Proof.
  induction a as [|[k' v'] a IH]; simpl; [reflexivity|].
  destruct (String.eqb k k'); [reflexivity|exact IH].
Qed.

Lemma get_update {V} k (other : list (string * V)) : forall d,
  Dict.get k (Dict.update d other)
  = match Dict.get k (rev other) with Some v => Some v | None => Dict.get k d end.
Proof.
  unfold Dict.update. induction other as [|[k0 v0] other IH]; intros d; [reflexivity|].
  simpl fold_left. rewrite IH. simpl rev. rewrite get_app.
  destruct (Dict.get k (rev other)); [reflexivity|]. simpl.
  destruct (String.eqb_spec k k0) as [->|Hne].
  - apply get_set_eq.
  - apply get_set_ne. congruence.
Qed.

Lemma keys_set_shape {V} k (v : V) d :
  Dict.keys (Dict.set k v d) = Dict.keys d
  \/ (~ In k (Dict.keys d) /\ Dict.keys (Dict.set k v d) = Dict.keys d ++ [k]).
Proof.
  unfold Dict.keys. induction d as [|[k' v'] d IH]; simpl.
  - right. split; [tauto|reflexivity].
  - destruct (String.eqb_spec k k') as [->|Hne]; simpl; [left; reflexivity|].
    destruct IH as [->|[Hnot ->]]; [left; reflexivity|].
    right. split; [|reflexivity]. intros [E|H]; [congruence|contradiction].
Qed.

Lemma keys_update_shape {V} (other : list (string * V)) : forall d,
  exists added,
    Dict.keys (Dict.update d other) = Dict.keys d ++ added
    /\ (NoDup (Dict.keys d) -> NoDup (Dict.keys (Dict.update d other))).
Proof.
  unfold Dict.update. induction other as [|[k v] other IH]; intros d.
  - exists []. simpl. rewrite List.app_nil_r. split; [reflexivity|trivial].
  - simpl fold_left. destruct (IH (Dict.set k v d)) as (added & Hkeys & Hnodup).
    destruct (keys_set_shape k v d) as [E|[Hnot E]]; rewrite E in *.
    + exists added. split; assumption.
    + exists (k :: added). rewrite Hkeys, <- List.app_assoc. split; [reflexivity|].
      intros Hd. rewrite List.app_assoc. rewrite <- Hkeys. apply Hnodup.
      apply NoDup_app. split; [exact Hd|]. split.
      * intros x Hx [->|[]]%list_elem_of_In. apply Hnot. apply list_elem_of_In, Hx.
      * apply NoDup_singleton.
Qed.

Lemma Forall_set {V} (P : string * V -> Prop) k v d :
  P (k, v) -> Forall P d -> Forall P (Dict.set k v d).
Proof.
  intros Hk. induction d as [|[k' v'] d IH]; intros Hd; simpl.
  - constructor; [exact Hk|constructor].
  - inversion Hd as [|x l Hx Hl]; subst.
    destruct (String.eqb k k'); constructor; auto.
Qed.

End MoreFacts.

(** ** Facts about the session on any system *)

Module RunFacts.
Import Service Session ServiceFacts SessionFacts.

Lemma is_failure_app a b :
  existsb is_failure (a ++ b) = existsb is_failure a || existsb is_failure b.
Proof. apply List.existsb_app. Qed.

Lemma replay_app sys a b m : Run.replay sys (a ++ b) m = Run.replay sys b (Run.replay sys a m).
Proof. unfold Run.replay. apply List.fold_left_app. Qed.

(** Replaying writes never removes a file. *)
Lemma replay_keeps sys evs : forall (m : gmap string string) p,
  is_Some (m !! p) -> is_Some (Run.replay sys evs m !! p).
Proof.
  induction evs as [|e evs IH]; intros m p H; [exact H|].
  unfold Run.replay. simpl. apply IH.
  destruct e as [? ?|?|?|?|? ?|? ?|f fp c|?|? ?|?| | |? ?]; try exact H.
  destruct (decide (Run.node sys fp = p)) as [->|Hne].
  - rewrite lookup_insert_eq. eauto.
  - rewrite lookup_insert_ne by exact Hne. exact H.
Qed.

(** An error message of [check_code] is not empty. *)
Lemma check_code_truthy sys self files path e :
  fst (Run.check_code sys self files path) = Some e -> truthy e = true.
Proof.
  unfold Run.check_code. repeat case_match; simpl; intros [= <-]; reflexivity.
Qed.

Lemma check_code_only_warns sys self files path :
  Run.warnings_only (snd (Run.check_code sys self files path)).
Proof.
  unfold Run.check_code, Run.warnings_only. repeat case_match; simpl; eauto.
Qed.

Lemma warnings_silent sys evs m :
  Run.warnings_only evs ->
  attempts_made evs = 0 /\ requests_made evs = 0 /\ processed evs = [] /\ staged evs = []
  /\ existsb is_failure evs = false /\ Run.replay sys evs m = m.
Proof. intros [->|[msg ->]]; repeat split; reflexivity. Qed.

(** What an entry that does not raise returns: it is skipped, or its patch
    fails, or its file cannot be decoded, or its content is written and
    validated, and then staged exactly when [check_code] has no message
    for the file as written. *)
Lemma process_entry_cases sys self w errs f content w' errs' :
  Run.process_entry sys self (w, errs) (f, content) = Run.Normal (w', errs') ->
  (applicable content = false /\ errs' = errs
   /\ (w' = emit (SkippingNoContentKey f) (emit (Processing f) w)
       \/ w' = emit (SkippingNotString f) (emit (Processing f) w)))
  \/ (exists s e,
        resolve_content content = FinalContent s
        /\ Run.resolve_patch sys (emit (Processing f) w) (full_path self f) s
           = Run.Normal (Run.Resolved (Raises e))
        /\ w' = emit (DiffError f e) (emit (Processing f) w)
        /\ errs' = errs ++ [(f, "Diff Application Error: " +:+ message e)])
  \/ (exists s m,
        resolve_content content = FinalContent s
        /\ Run.resolve_patch sys (emit (Processing f) w) (full_path self f) s
           = Run.Normal (Run.ReadFails m)
        /\ w' = emit (ReadError f m) (emit (Processing f) w)
        /\ errs' = errs ++ [(f, "Diff Application Error: " +:+ m)])
  \/ (exists s text,
        resolve_content content = FinalContent s
        /\ Run.resolve_patch sys (emit (Processing f) w) (full_path self f) s
           = Run.Normal (Run.Resolved (Returns text))
        /\ ((exists e,
               fst (Run.check_code sys self
                      (<[Run.node sys (full_path self f) := text]> (fs w)) (full_path self f))
               = Some e
               /\ w' = emit (ValidationFailed f e)
                         (emit_all
                            (snd (Run.check_code sys self
                                    (<[Run.node sys (full_path self f) := text]> (fs w))
                                    (full_path self f)))
                            (write_file (Run.node sys (full_path self f)) text
                               (emit (Writing f (full_path self f) text)
                                  (emit (Processing f) w))))
               /\ errs' = errs ++ [(f, e)])
            \/ (fst (Run.check_code sys self
                       (<[Run.node sys (full_path self f) := text]> (fs w)) (full_path self f))
                = None
                /\ w' = emit (Staged f)
                          (index_add f
                             (emit_all
                                (snd (Run.check_code sys self
                                        (<[Run.node sys (full_path self f) := text]> (fs w))
                                        (full_path self f)))
                                (write_file (Run.node sys (full_path self f)) text
                                   (emit (Writing f (full_path self f) text)
                                      (emit (Processing f) w)))))
                /\ errs' = errs))).
Proof.
  unfold Run.process_entry, applicable, full_path.
  destruct (truthy _ && Run.raises sys _ _); [discriminate|].
  destruct (resolve_content content) as [s| |].
  - destruct (Run.resolve_patch sys (emit (Processing f) w)
                (os_path_join self (local_repo_path self) f) s) as [[[text|e]|m]|c o] eqn:RP;
      [|intros [= <- <-]; right; left; exists s, e; repeat split; exact RP
       |intros [= <- <-]; right; right; left; exists s, m; repeat split; exact RP
       |discriminate].
    unfold Run.write_and_check.
    destruct (Run.raises sys (Run.WriteFile _ _) _); [discriminate|].
    simpl fs.
    pose proof (check_code_truthy sys self
                  (<[Run.node sys (os_path_join self (local_repo_path self) f) := text]> (fs w))
                  (os_path_join self (local_repo_path self) f)) as T.
    destruct (Run.check_code sys self
                (<[Run.node sys (os_path_join self (local_repo_path self) f) := text]> (fs w))
                (os_path_join self (local_repo_path self) f)) as [[e|] W] eqn:CC.
    + rewrite (T e eq_refl). intros [= <- <-]. right; right; right. exists s, text.
      split; [reflexivity|]. split; [exact RP|]. left. exists e. rewrite CC. repeat split.
    + destruct (Run.raises sys (Run.IndexAdd f) _); [discriminate|].
      intros [= <- <-]. right; right; right. exists s, text.
      split; [reflexivity|]. split; [exact RP|]. right. rewrite CC. repeat split.
  - intros [= <- <-]. left. repeat split. left. reflexivity.
  - intros [= <- <-]. left. repeat split. right. reflexivity.
Qed.


(** *** the content to write *)

Lemma resolve_patch_plain sys w path s :
  Str.contains Regex.SEARCH_MARKER s = false ->
  Run.resolve_patch sys w path s = Run.Normal (Run.Resolved (Returns s)).
Proof. intros H. unfold Run.resolve_patch. rewrite H. reflexivity. Qed.

Lemma resolve_patch_file sys w path s stored :
  Str.contains Regex.SEARCH_MARKER s = true ->
  fs w !! Run.node sys path = Some stored ->
  Run.raises sys (Run.ReadOriginal path) (out w) = false ->
  Run.undecodable sys path (out w) = None ->
  Run.resolve_patch sys w path s
  = Run.Normal (Run.Resolved (apply_diff (Str.universal_newlines stored) s)).
Proof.
  intros Hm Hf Hr Hd. unfold Run.resolve_patch, Run.path_exists, Run.read_file.
  rewrite Hm, Hf, Hr, Hd. reflexivity.
Qed.

(** A file that is there and cannot be decoded. *)
Lemma resolve_patch_undecodable sys w path s stored m :
  Str.contains Regex.SEARCH_MARKER s = true ->
  fs w !! Run.node sys path = Some stored ->
  Run.raises sys (Run.ReadOriginal path) (out w) = false ->
  Run.undecodable sys path (out w) = Some m ->
  Run.resolve_patch sys w path s = Run.Normal (Run.ReadFails m).
Proof.
  intros Hm Hf Hr Hd. unfold Run.resolve_patch, Run.path_exists, Run.read_file.
  rewrite Hm, Hf, Hr, Hd. reflexivity.
Qed.

(** The reading fails to decode a file that is there. *)
Lemma resolve_patch_read_fails sys w path s m :
  Run.resolve_patch sys w path s = Run.Normal (Run.ReadFails m) ->
  Str.contains Regex.SEARCH_MARKER s = true
  /\ is_Some (fs w !! Run.node sys path)
  /\ Run.undecodable sys path (out w) = Some m.
Proof.
  unfold Run.resolve_patch, Run.path_exists, Run.read_file.
  destruct (Str.contains Regex.SEARCH_MARKER s); [|discriminate].
  destruct (fs w !! Run.node sys path) as [stored|]; simpl.
  - destruct (Run.raises sys _ _); [discriminate|].
    destruct (Run.undecodable sys path (out w)); [|discriminate]. intros [= ->]. eauto.
  - destruct (Run.occupied sys path (out w)); [|discriminate].
    destruct (Run.raises sys _ _); discriminate.
Qed.

(** A patch error comes from a file that is there, read with its line
    ends translated. *)
Lemma resolve_patch_raises sys w path s e :
  Run.resolve_patch sys w path s = Run.Normal (Run.Resolved (Raises e)) ->
  exists stored,
    Str.contains Regex.SEARCH_MARKER s = true
    /\ fs w !! Run.node sys path = Some stored
    /\ Run.undecodable sys path (out w) = None
    /\ apply_diff (Str.universal_newlines stored) s = Raises e.
Proof.
  unfold Run.resolve_patch, Run.path_exists, Run.read_file.
  destruct (Str.contains Regex.SEARCH_MARKER s); [|discriminate].
  destruct (fs w !! Run.node sys path) as [stored|]; simpl.
  - destruct (Run.raises sys _ _); [discriminate|].
    destruct (Run.undecodable sys path (out w)); [discriminate|]. intros [= H]. eauto.
  - destruct (Run.occupied sys path (out w)); [|discriminate].
    destruct (Run.raises sys _ _); discriminate.
Qed.

(** The content that is written is the payload, or the patched text of
    the file that is there. *)
Lemma resolve_patch_returns sys w path s text :
  Run.resolve_patch sys w path s = Run.Normal (Run.Resolved (Returns text)) ->
  (text = s
   /\ (Str.contains Regex.SEARCH_MARKER s = false \/ fs w !! Run.node sys path = None))
  \/ (exists stored,
        Str.contains Regex.SEARCH_MARKER s = true
        /\ fs w !! Run.node sys path = Some stored
        /\ Run.undecodable sys path (out w) = None
        /\ apply_diff (Str.universal_newlines stored) s = Returns text).
Proof.
  unfold Run.resolve_patch, Run.path_exists, Run.read_file.
  destruct (Str.contains Regex.SEARCH_MARKER s); [|intros [= <-]; left; auto].
  destruct (fs w !! Run.node sys path) as [stored|]; simpl.
  - destruct (Run.raises sys _ _); [discriminate|].
    destruct (Run.undecodable sys path (out w)); [discriminate|]. intros [= H]. right. eauto.
  - destruct (Run.occupied sys path (out w)).
    + destruct (Run.raises sys _ _); discriminate.
    + intros [= <-]. left. auto.
Qed.

(** *** one entry *)

(** What one entry adds to the output, to the failures, to the files and
    to the index. *)
Lemma process_entry_spec sys self w errs f content w' errs' :
  Run.process_entry sys self (w, errs) (f, content) = Run.Normal (w', errs') ->
  exists tail new,
    out w' = out w ++ Processing f :: tail
    /\ errs' = errs ++ new
    /\ attempts_made tail = 0
    /\ requests_made tail = 0
    /\ processed tail = []
    /\ staged tail
       = match new with
         | [] => if applicable content then [f] else []
         | _ :: _ => []
         end
    /\ (new <> [] -> applicable content = true)
    /\ ((new = [] /\ existsb is_failure tail = false)
        \/ (exists e, new = [(f, e)] /\ existsb is_failure tail = true))
    /\ fs w' = Run.replay sys tail (fs w)
    /\ index w' = index w ++ staged tail
    /\ (fs w' = fs w
        \/ exists text, fs w' = <[Run.node sys (full_path self f) := text]> (fs w))
    /\ (new <> [] -> is_Some (fs w' !! Run.node sys (full_path self f))).
Proof.
  intros H. apply process_entry_cases in H.
  destruct H as [(Happ & -> & Hw)|[(s & e & Hs & RP & -> & ->)
                                  |[(s & m & Hs & RP & -> & ->)|(s & text & Hs & RP & Hc)]]].
  - destruct Hw as [->| ->]; simpl; rewrite <- List.app_assoc; simpl;
      eexists _, []; rewrite Happ, List.app_nil_r;
      (split; [reflexivity|]); (split; [reflexivity|]); (split; [reflexivity|]);
      (split; [reflexivity|]); (split; [reflexivity|]); (split; [reflexivity|]);
      (split; [congruence|]); (split; [left; split; reflexivity|]);
      (split; [reflexivity|]); (split; [symmetry; apply List.app_nil_r|]);
      (split; [left; reflexivity|]); congruence.
  - apply resolve_patch_raises in RP. destruct RP as (stored & _ & Hf & _). simpl in Hf.
    unfold applicable. rewrite Hs. simpl. rewrite <- List.app_assoc. simpl.
    eexists _, _. split; [reflexivity|]. split; [reflexivity|]. split; [reflexivity|].
    split; [reflexivity|]. split; [reflexivity|]. split; [reflexivity|].
    split; [reflexivity|]. split; [right; eexists; split; reflexivity|].
    split; [reflexivity|]. split; [symmetry; apply List.app_nil_r|].
    split; [left; reflexivity|]. intros _. rewrite Hf. eauto.
  - apply resolve_patch_read_fails in RP. destruct RP as (_ & Hf & _). simpl in Hf.
    unfold applicable. rewrite Hs. simpl. rewrite <- List.app_assoc. simpl.
    eexists _, _. split; [reflexivity|]. split; [reflexivity|]. split; [reflexivity|].
    split; [reflexivity|]. split; [reflexivity|]. split; [reflexivity|].
    split; [reflexivity|]. split; [right; eexists; split; reflexivity|].
    split; [reflexivity|]. split; [symmetry; apply List.app_nil_r|].
    split; [left; reflexivity|]. intros _. exact Hf.
  - unfold applicable. rewrite Hs.
    pose proof (check_code_only_warns sys self
                  (<[Run.node sys (full_path self f) := text]> (fs w)) (full_path self f)) as HW.
    destruct (warnings_silent sys _ (<[Run.node sys (full_path self f) := text]> (fs w)) HW)
      as (Wa & Wr & Wp & Ws & Wf & Wm).
    destruct Hc as [(e & _ & -> & ->)|(_ & -> & ->)]; simpl;
      rewrite <- !List.app_assoc; simpl.
    + eexists (Writing f (full_path self f) text :: _ ++ [ValidationFailed f e]), _.
      split; [reflexivity|]. split; [reflexivity|].
      change (Writing f (full_path self f) text :: ?W ++ [ValidationFailed f e])
        with ([Writing f (full_path self f) text] ++ W ++ [ValidationFailed f e]).
      rewrite !attempts_made_app, !requests_made_app, !processed_app, !staged_app,
        !is_failure_app, !replay_app, Wa, Wr, Wp, Ws, Wf.
      split; [reflexivity|]. split; [reflexivity|]. split; [reflexivity|].
      split; [reflexivity|]. split; [reflexivity|].
      split; [right; eexists; split; reflexivity|].
      split; [simpl; rewrite Wm; reflexivity|]. split; [symmetry; apply List.app_nil_r|].
      split; [right; eexists; reflexivity|]. intros _. rewrite lookup_insert_eq. eauto.
    + eexists (Writing f (full_path self f) text :: _ ++ [Staged f]), [].
      rewrite List.app_nil_r.
      split; [reflexivity|]. split; [reflexivity|].
      change (Writing f (full_path self f) text :: ?W ++ [Staged f])
        with ([Writing f (full_path self f) text] ++ W ++ [Staged f]).
      rewrite !attempts_made_app, !requests_made_app, !processed_app, !staged_app,
        !is_failure_app, !replay_app, Wa, Wr, Wp, Ws, Wf.
      split; [reflexivity|]. split; [reflexivity|]. split; [reflexivity|].
      split; [reflexivity|]. split; [congruence|].
      split; [left; split; reflexivity|].
      split; [simpl; rewrite Wm; reflexivity|]. split; [reflexivity|].
      split; [right; eexists; reflexivity|]. congruence.
Qed.

(** What is printed when an entry raises. *)
Lemma process_entry_exception sys self w errs f content c o :
  Run.process_entry sys self (w, errs) (f, content) = Run.Exception c o ->
  exists tail,
    o = out w ++ Processing f :: tail /\ attempts_made tail = 0 /\ requests_made tail = 0.
Proof.
  unfold Run.process_entry.
  destruct (truthy _ && Run.raises sys _ _).
  { intros [= <- <-]. exists []. simpl. auto. }
  destruct (resolve_content content) as [s| |]; [|discriminate|discriminate].
  destruct (Run.resolve_patch sys (emit (Processing f) w) _ s) as [[[text|e]|m]|c' o'] eqn:RP;
    [|discriminate|discriminate|].
  - unfold Run.write_and_check.
    destruct (Run.raises sys (Run.WriteFile _ _) _).
    { intros [= <- <-]. eexists [_]. simpl. rewrite <- List.app_assoc. auto. }
    match goal with |- context [Run.check_code ?a ?b ?c ?d] =>
      pose proof (check_code_only_warns a b c d) as HW;
      destruct (Run.check_code a b c d) as [[e|] W] end; simpl in HW;
      destruct (warnings_silent sys W ∅ HW) as (Wa & Wr & _).
    + destruct (truthy e); [discriminate|].
      destruct (Run.raises sys (Run.IndexAdd f) _); [|discriminate].
      intros [= <- <-]. simpl. rewrite <- !List.app_assoc. simpl.
      eexists (Writing f _ text :: W). split; [reflexivity|].
      change (Writing f ?p text :: W) with ([Writing f p text] ++ W).
      rewrite attempts_made_app, requests_made_app, Wa, Wr. auto.
    + destruct (Run.raises sys (Run.IndexAdd f) _); [|discriminate].
      intros [= <- <-]. simpl. rewrite <- !List.app_assoc. simpl.
      eexists (Writing f _ text :: W). split; [reflexivity|].
      change (Writing f ?p text :: W) with ([Writing f p text] ++ W).
      rewrite attempts_made_app, requests_made_app, Wa, Wr. auto.
  - unfold Run.resolve_patch, Run.read_file in RP.
    destruct (_ && _); [|discriminate].
    destruct (Run.raises sys _ _).
    { injection RP as <- <-. intros [= <- <-]. exists []. simpl. auto. }
    destruct (fs _ !! _); [destruct (Run.undecodable sys _ _); discriminate|].
    injection RP as <- <-. intros [= <- <-]. exists []. simpl. auto.
Qed.

#[local] Arguments Run.process_entry : simpl never.


(** *** one attempt *)

Lemma apply_changes_spec sys self changes : forall w errs w' errs',
  Run.apply_changes sys self changes (w, errs) = Run.Normal (w', errs') ->
  exists evs new,
    out w' = out w ++ evs
    /\ errs' = errs ++ new
    /\ attempts_made evs = 0
    /\ requests_made evs = 0
    /\ processed evs = Dict.keys changes
    /\ (new = [] <-> existsb is_failure evs = false)
    /\ (forall fn, In fn (map fst new) -> In fn (Dict.keys changes))
    /\ (new = [] ->
        staged evs = map fst (List.filter (fun entry => applicable (snd entry)) changes))
    /\ List.length (staged evs) + List.length new
       = List.length (List.filter (fun entry => applicable (snd entry)) changes)
    /\ fs w' = Run.replay sys evs (fs w)
    /\ index w' = index w ++ staged evs
    /\ Forall (fun fe => is_Some (fs w' !! Run.node sys (full_path self (fst fe)))) new.
Proof.
  induction changes as [|[f content] changes IH]; intros w errs w' errs' H.
  - injection H as <- <-. exists [], []. simpl. rewrite !List.app_nil_r.
    repeat split; auto.
  - simpl in H.
    destruct (Run.process_entry sys self (w, errs) (f, content)) as [[w1 errs1]|c o] eqn:E;
      [|discriminate].
    destruct (process_entry_spec _ _ _ _ _ _ _ _ E)
      as (tail & new1 & Hout & -> & Hatt & Hreq & Hproc & Hst & Happ & Hfail & Hfs & Hidx
          & _ & Hdisk).
    destruct (IH _ _ _ _ H)
      as (evs & new2 & Hout2 & -> & Hatt2 & Hreq2 & Hproc2 & Hfail2 & Hin2 & Hst2 & Hlen2
          & Hfs2 & Hidx2 & Hdisk2).
    exists (Processing f :: tail ++ evs), (new1 ++ new2).
    change (Processing f :: tail ++ evs) with ([Processing f] ++ tail ++ evs).
    split; [rewrite Hout2, Hout, <- List.app_assoc; reflexivity|].
    split; [rewrite <- List.app_assoc; reflexivity|].
    split; [rewrite !attempts_made_app, Hatt, Hatt2; reflexivity|].
    split; [rewrite !requests_made_app, Hreq, Hreq2; reflexivity|].
    split; [rewrite !processed_app, Hproc, Hproc2; reflexivity|].
    split; [|split; [|split; [|split; [|split; [|split]]]]].
    + simpl. rewrite is_failure_app, orb_false_iff, <- Hfail2. split.
      * intros [-> ->]%List.app_eq_nil. split; [|reflexivity].
        destruct Hfail as [[_ Hf]|(e & Hf & _)]; [exact Hf|discriminate].
      * intros [Hf ->]. destruct Hfail as [[-> _]|(e & _ & Hf')]; [reflexivity|congruence].
    + intros fn. rewrite List.map_app, List.in_app_iff. intros [Hn|Hn].
      * left. destruct Hfail as [[-> _]|(e & -> & _)]; simpl in Hn; [contradiction|].
        destruct Hn as [Hn|[]]. exact Hn.
      * right. apply Hin2, Hn.
    + intros [-> ->]%List.app_eq_nil. rewrite !staged_app, Hst, (Hst2 eq_refl). simpl.
      destruct (applicable content); reflexivity.
    + rewrite !staged_app, !List.length_app, Hst. simpl List.filter.
      destruct new1 as [|fe new1].
      * destruct (applicable content); simpl; lia.
      * rewrite Happ by discriminate.
        destruct Hfail as [[Hn _]|(e & Hn & _)]; [discriminate|].
        injection Hn as -> ->. simpl. lia.
    + rewrite Hfs2, Hfs, !replay_app. reflexivity.
    + rewrite Hidx2, Hidx, !staged_app, <- List.app_assoc. reflexivity.
    + apply Forall_app. split; [|exact Hdisk2].
      destruct Hfail as [[-> _]|(e & -> & _)]; constructor; [|constructor].
      simpl. rewrite Hfs2. apply replay_keeps. apply Hdisk. discriminate.
Qed.

Lemma apply_changes_exception sys self changes : forall w errs c o,
  Run.apply_changes sys self changes (w, errs) = Run.Exception c o ->
  exists evs, o = out w ++ evs /\ attempts_made evs = 0 /\ requests_made evs = 0.
Proof.
  induction changes as [|[f content] changes IH]; intros w errs c o H; [discriminate|].
  simpl in H.
  destruct (Run.process_entry sys self (w, errs) (f, content)) as [[w1 errs1]|c1 o1] eqn:E.
  - destruct (process_entry_spec _ _ _ _ _ _ _ _ E) as (tail & _ & Hout & _ & Hatt & Hreq & _).
    destruct (IH _ _ _ _ H) as (evs & -> & Hatt2 & Hreq2).
    exists ([Processing f] ++ tail ++ evs).
    split; [rewrite Hout, <- List.app_assoc; reflexivity|].
    rewrite !attempts_made_app, !requests_made_app, Hatt, Hreq, Hatt2, Hreq2. auto.
  - injection H as <- <-.
    destruct (process_entry_exception _ _ _ _ _ _ _ _ E) as (tail & -> & Hatt & Hreq).
    exists ([Processing f] ++ tail). split; [reflexivity|].
    rewrite !attempts_made_app, !requests_made_app, Hatt, Hreq. auto.
Qed.

(** One attempt that does not raise: the announcement, one [Processing]
    per entry, a failure event exactly when the failure list is not empty,
    every entry with an applicable payload either staged or in the failure
    list, and the failing files on disk. *)
Lemma attempt_spec sys self N r changes w w1 errs :
  Run.attempt sys self N r changes w = Run.Normal (w1, errs) ->
  exists evs,
    out w1 = out w ++ Attempt (r + 1) N :: evs
    /\ attempts_made evs = 0
    /\ requests_made evs = 0
    /\ processed evs = Dict.keys changes
    /\ (errs = [] <-> existsb is_failure evs = false)
    /\ (forall fn, In fn (map fst errs) -> In fn (Dict.keys changes))
    /\ (errs = [] <->
        staged evs = map fst (List.filter (fun entry => applicable (snd entry)) changes))
    /\ fs w1 = Run.replay sys evs (fs w)
    /\ index w1 = index w ++ staged evs
    /\ Forall (fun fe => is_Some (fs w1 !! Run.node sys (full_path self (fst fe)))) errs.
Proof.
  unfold Run.attempt. intros H.
  destruct (apply_changes_spec _ _ _ _ _ _ _ H)
    as (evs & new & Hout & Herrs & Hatt & Hreq & Hproc & Hfail & Hin & Hst & Hlen & Hfs & Hidx
        & Hdisk).
  simpl in Herrs. subst errs. exists evs. simpl in Hout, Hfs, Hidx.
  split; [rewrite Hout, <- List.app_assoc; reflexivity|].
  split; [assumption|]. split; [assumption|]. split; [assumption|]. split; [assumption|].
  split; [assumption|]. split; [|split; [assumption|split; assumption]].
  split; [exact Hst|]. intros Hs. rewrite Hs, List.length_map in Hlen.
  destruct new; [reflexivity|simpl in Hlen; lia].
Qed.

Lemma attempt_exception sys self N r changes w c o :
  Run.attempt sys self N r changes w = Run.Exception c o ->
  exists evs,
    o = out w ++ Attempt (r + 1) N :: evs /\ attempts_made evs = 0 /\ requests_made evs = 0.
Proof.
  unfold Run.attempt. intros H.
  destruct (apply_changes_exception _ _ _ _ _ _ _ H) as (evs & -> & Hatt & Hreq).
  exists evs. simpl. rewrite <- List.app_assoc. auto.
Qed.

#[local] Arguments Run.attempt : simpl never.

(** *** the request for fixes *)

(** The code gathered for the producer: its files are the failing files,
    and a file that is on disk is given as it is read back. *)
Lemma current_broken_code_spec sys self w changes errs : forall code0 code,
  Run.current_broken_code sys self w changes errs code0 = Run.Normal code ->
  (forall fn, In fn (Dict.keys code) <-> In fn (Dict.keys code0) \/ In fn (map fst errs))
  /\ forall P : string * pyval -> Prop,
       Forall P code0 ->
       Forall (fun fe =>
                 forall stored,
                   fs w !! Run.node sys (full_path self (fst fe)) = Some stored ->
                   P (fst fe, PyStr (Str.universal_newlines (Run.locale_text sys stored))))
         errs ->
       Forall (fun fe => is_Some (fs w !! Run.node sys (full_path self (fst fe)))) errs ->
       Forall P code.
Proof.
  induction errs as [|[fname err] errs IH]; intros code0 code H.
  - injection H as <-. split; [simpl; intuition|]. intros P H0 _ _. exact H0.
  - simpl in H. unfold Run.path_exists, Run.read_file in H.
    destruct (fs w !! Run.node sys (os_path_join self (local_repo_path self) fname))
      as [stored|] eqn:Hf.
    + destruct (Run.raises sys _ _); [discriminate|].
      destruct (IH _ _ H) as [Hkeys HP]. split.
      * intros fn. rewrite Hkeys, keys_set. simpl. intuition congruence.
      * intros P H0 Hread Hdisk. inversion Hread as [|x l Hx Hl]; subst.
        inversion Hdisk as [|x l _ Hl']; subst.
        apply HP; [|exact Hl|exact Hl'].
        apply MoreFacts.Forall_set; [|exact H0]. apply (Hx stored). exact Hf.
    + destruct (Run.occupied sys _ _).
      * destruct (Run.raises sys _ _); discriminate.
      * destruct (IH _ _ H) as [Hkeys HP]. split.
        -- intros fn. rewrite Hkeys, keys_set. simpl. intuition congruence.
        -- intros P H0 Hread Hdisk. inversion Hdisk as [|x l Hx Hl']; subst.
           simpl in Hx. unfold full_path in Hx. rewrite Hf in Hx. destruct Hx as [? Hx].
           discriminate Hx.
Qed.

Lemma current_broken_code_exception sys self w changes errs : forall code0 c o,
  Run.current_broken_code sys self w changes errs code0 = Run.Exception c o -> o = out w.
Proof.
  induction errs as [|[fname err] errs IH]; intros code0 c o H; [discriminate|].
  simpl in H. unfold Run.read_file in H.
  destruct (Run.path_exists sys w _); [|exact (IH _ _ _ H)].
  destruct (Run.raises sys _ _); [injection H as _ <-; reflexivity|].
  destruct (fs w !! _); [exact (IH _ _ _ H)|injection H as _ <-; reflexivity].
Qed.

Lemma request_fixes_spec sys self r changes w errs changes' w2 :
  Run.request_fixes sys self r changes w errs = Run.Normal (changes', w2) ->
  exists broken,
    Run.current_broken_code sys self w changes errs [] = Run.Normal broken
    /\ w2 = emit (RequestingFixes broken (error_report errs)) w
    /\ changes' = Dict.update changes (fix_code self r broken (error_report errs)).
Proof.
  unfold Run.request_fixes.
  destruct (Run.current_broken_code sys self w changes errs []) as [broken|c o]; [|discriminate].
  destruct (Run.raises sys _ _); [discriminate|]. intros [= <- <-]. eauto.
Qed.

Lemma request_fixes_exception sys self r changes w errs c o :
  Run.request_fixes sys self r changes w errs = Run.Exception c o ->
  exists evs, o = out w ++ evs /\ attempts_made evs = 0 /\ requests_made evs <= 1.
Proof.
  unfold Run.request_fixes.
  destruct (Run.current_broken_code sys self w changes errs []) as [broken|c' o'] eqn:E.
  - destruct (Run.raises sys _ _); [|discriminate]. intros [= <- <-].
    eexists [_]. split; [reflexivity|]. split; [reflexivity|]. unfold requests_made. simpl. lia.
  - intros [= <- <-]. apply current_broken_code_exception in E. subst o'.
    exists []. rewrite List.app_nil_r. split; [reflexivity|]. split; [reflexivity|].
    unfold requests_made. simpl. lia.
Qed.

#[local] Arguments Run.request_fixes : simpl never.


(** *** the loop *)

Lemma failures_from_0 sys self N r changes w w1 errs :
  Run.attempt sys self N r changes w = Run.Normal (w1, errs) ->
  Run.failures_from sys self N r 0 changes w = Some errs.
Proof. intros H. simpl. rewrite H. reflexivity. Qed.

Lemma failures_from_S sys self N r k changes w w1 err errs changes' w2 :
  Run.attempt sys self N r changes w = Run.Normal (w1, err :: errs) ->
  Run.request_fixes sys self (r + 1) changes w1 (err :: errs) = Run.Normal (changes', w2) ->
  Run.failures_from sys self N r (S k) changes w
  = Run.failures_from sys self N (r + 1) k changes' w2.
Proof. intros H1 H2. simpl. rewrite H1, H2. reflexivity. Qed.

Lemma failures_from_raised sys self N r k changes w c o :
  Run.attempt sys self N r changes w = Run.Exception c o ->
  Run.failures_from sys self N r k changes w = None.
Proof. intros H. destruct k; simpl; rewrite H; reflexivity. Qed.

Lemma failures_from_passed sys self N r k changes w w1 :
  Run.attempt sys self N r changes w = Run.Normal (w1, []) ->
  Run.failures_from sys self N r (S k) changes w = None.
Proof. intros H. simpl. rewrite H. reflexivity. Qed.

#[local] Arguments Run.failures_from : simpl never.

(** The loop ends whenever the fuel exceeds the attempts that are left, by
    returning or with the exception of a call.  It has then made no more
    attempts than were left and one request after every attempt but the
    last.  When it returns, it has made all the attempts if the answer is
    [false], the answer is [true] exactly when one of the attempts has no
    failure, that attempt is then the last one, and the files and the
    index are the old ones with what the output reports. *)
Lemma retry_loop_spec sys self N fuel :
  forall r changes w,
    N - r < fuel ->
    exists res evs,
      Run.retry_loop sys self fuel N r changes w = Some res
      /\ Run.printed_by res = out w ++ evs
      /\ r + attempts_made evs <= Nat.max N r
      /\ requests_made evs <= attempts_made evs
      /\ (r < N -> attempts_made evs <= requests_made evs + 1 /\ 1 <= attempts_made evs)
      /\ forall b w',
           res = Run.Normal (b, w') ->
           (b = false -> r + attempts_made evs = Nat.max N r)
           /\ (b = true <->
               exists k, r + k < N /\ Run.failures_from sys self N r k changes w = Some [])
           /\ fs w' = Run.replay sys evs (fs w)
           /\ index w' = index w ++ staged evs
           /\ (r < N -> requests_made evs + 1 = attempts_made evs)
           /\ (forall k,
                 r + k < N ->
                 Run.failures_from sys self N r k changes w = Some [] ->
                 attempts_made evs = k + 1).
Proof.
  induction fuel as [|fuel IH]; intros r changes w Hfuel; [lia|].
  simpl Run.retry_loop. destruct (Nat.ltb_spec r N) as [Hlt|Hge].
  2:{ exists (Run.Normal (false, w)), []. split; [reflexivity|].
      split; [simpl; rewrite List.app_nil_r; reflexivity|].
      unfold attempts_made, requests_made. simpl.
      split; [lia|]. split; [lia|]. split; [lia|].
      intros b w' [= <- <-]. split; [lia|]. split; [|split; [reflexivity|split; [|split]]].
      - split; [discriminate|]. intros (k & Hk & _). lia.
      - rewrite List.app_nil_r. reflexivity.
      - lia.
      - intros k Hk. lia. }
  destruct (Run.attempt sys self N r changes w) as [[w1 errs]|c o] eqn:A.
  2:{ destruct (attempt_exception _ _ _ _ _ _ _ _ A) as (evs1 & -> & Hatt1 & Hreq1).
      exists (Run.Exception c (out w ++ Attempt (r + 1) N :: evs1)), (Attempt (r + 1) N :: evs1).
      split; [reflexivity|]. split; [reflexivity|].
      change (Attempt (r + 1) N :: evs1) with ([Attempt (r + 1) N] ++ evs1).
      rewrite !attempts_made_app, !requests_made_app, Hatt1, Hreq1.
      change (attempts_made [Attempt (r + 1) N]) with 1.
      change (requests_made [Attempt (r + 1) N]) with 0.
      split; [lia|]. split; [lia|]. split; [lia|]. discriminate. }
  destruct (attempt_spec _ _ _ _ _ _ _ _ A)
    as (evs1 & Hout1 & Hatt1 & Hreq1 & _ & _ & _ & _ & Hfs1 & Hidx1 & _).
  pose proof (failures_from_0 _ _ _ _ _ _ _ _ A) as F0.
  assert (C : forall last,
            attempts_made [last] = 0 -> requests_made [last] = 0 ->
            attempts_made (Attempt (r + 1) N :: evs1 ++ [last]) = 1
            /\ requests_made (Attempt (r + 1) N :: evs1 ++ [last]) = 0).
  { intros last A0 R0.
    change (Attempt (r + 1) N :: evs1 ++ [last]) with ([Attempt (r + 1) N] ++ evs1 ++ [last]).
    rewrite !attempts_made_app, !requests_made_app, Hatt1, Hreq1, A0, R0. split; reflexivity. }
  assert (E : forall last,
            staged [last] = [] -> Run.replay sys [last] (Run.replay sys evs1 (fs w))
                                   = Run.replay sys evs1 (fs w) ->
            fs w1 = Run.replay sys (Attempt (r + 1) N :: evs1 ++ [last]) (fs w)
            /\ index w1 = index w ++ staged (Attempt (r + 1) N :: evs1 ++ [last])).
  { intros last S0 R0.
    change (Attempt (r + 1) N :: evs1 ++ [last]) with ([Attempt (r + 1) N] ++ evs1 ++ [last]).
    rewrite !replay_app, !staged_app, S0, List.app_nil_r. simpl Run.replay at 2.
    change (Run.replay sys [Attempt (r + 1) N] (fs w)) with (fs w).
    rewrite R0. split; [exact Hfs1|exact Hidx1]. }
  destruct errs as [|err errs].
  - destruct (C ValidationPassed eq_refl eq_refl) as [Ca Cr].
    destruct (E ValidationPassed eq_refl eq_refl) as [Ef Ei].
    exists (Run.Normal (true, emit ValidationPassed w1)),
      (Attempt (r + 1) N :: evs1 ++ [ValidationPassed]).
    split; [reflexivity|]. split; [simpl; rewrite Hout1, <- List.app_assoc; reflexivity|].
    rewrite Ca, Cr. split; [lia|]. split; [lia|]. split; [lia|].
    intros b w' [= <- <-]. split; [discriminate|].
    split; [|split; [exact Ef|split; [exact Ei|split; [lia|]]]].
    + split; [|reflexivity]. intros _. exists 0. split; [lia|exact F0].
    + intros [|k] _ Hf; [reflexivity|].
      rewrite (failures_from_passed _ _ _ _ k _ _ _ A) in Hf. discriminate Hf.
  - destruct (Nat.leb_spec N (r + 1)) as [Hlast|Hmore].
    + destruct (C MaxRetriesReached eq_refl eq_refl) as [Ca Cr].
      destruct (E MaxRetriesReached eq_refl eq_refl) as [Ef Ei].
      exists (Run.Normal (false, emit MaxRetriesReached w1)),
        (Attempt (r + 1) N :: evs1 ++ [MaxRetriesReached]).
      split; [reflexivity|]. split; [simpl; rewrite Hout1, <- List.app_assoc; reflexivity|].
      rewrite Ca, Cr. split; [lia|]. split; [lia|]. split; [lia|].
      intros b w' [= <- <-]. split; [lia|].
      split; [|split; [exact Ef|split; [exact Ei|split; [lia|]]]].
      * split; [discriminate|]. intros (k & Hk & Hf).
        assert (k = 0) by lia. subst k. rewrite F0 in Hf. discriminate.
      * intros k Hk Hf. assert (k = 0) by lia. subst k. rewrite F0 in Hf. discriminate.
    + destruct (Run.request_fixes sys self (r + 1) changes w1 (err :: errs))
        as [[changes' w2]|c o] eqn:Q.
      2:{ destruct (request_fixes_exception _ _ _ _ _ _ _ _ Q) as (evs2 & -> & Hatt2 & Hreq2).
          exists (Run.Exception c (out w1 ++ evs2)), (Attempt (r + 1) N :: evs1 ++ evs2).
          split; [reflexivity|].
          split; [simpl; rewrite Hout1, <- List.app_assoc; reflexivity|].
          change (Attempt (r + 1) N :: evs1 ++ evs2) with ([Attempt (r + 1) N] ++ evs1 ++ evs2).
          rewrite !attempts_made_app, !requests_made_app, Hatt1, Hreq1, Hatt2.
          change (attempts_made [Attempt (r + 1) N]) with 1.
          change (requests_made [Attempt (r + 1) N]) with 0.
          split; [lia|]. split; [lia|]. split; [lia|]. discriminate. }
      pose proof (fun k => failures_from_S _ _ _ _ k _ _ _ _ _ _ _ A Q) as FS.
      destruct (request_fixes_spec _ _ _ _ _ _ _ _ Q) as (broken & _ & -> & ->).
      set (report := error_report (err :: errs)) in *.
      destruct (IH (r + 1) (Dict.update changes (fix_code self (r + 1) broken report))
                  (emit (RequestingFixes broken report) w1))
        as (res & evs' & Hrun & Hout' & Hle & Hra & Hcount & Hnormal); [lia|].
      simpl in Hout'. destruct (Hcount ltac:(lia)) as [Hc1 Hc2].
      exists res, (Attempt (r + 1) N :: evs1 ++ [RequestingFixes broken report] ++ evs').
      split; [exact Hrun|].
      split; [rewrite Hout', Hout1, <- !List.app_assoc; reflexivity|].
      change (Attempt (r + 1) N :: evs1 ++ [RequestingFixes broken report] ++ evs')
        with ([Attempt (r + 1) N] ++ evs1 ++ [RequestingFixes broken report] ++ evs').
      rewrite !attempts_made_app, !requests_made_app, Hatt1, Hreq1.
      change (attempts_made [Attempt (r + 1) N]) with 1.
      change (requests_made [Attempt (r + 1) N]) with 0.
      change (attempts_made [RequestingFixes broken report]) with 0.
      change (requests_made [RequestingFixes broken report]) with 1.
      split; [lia|]. split; [lia|]. split; [lia|].
      intros b w' Hres.
      destruct (Hnormal b w' Hres) as (Hall & Hiff & Hfs' & Hidx' & Heq & Hlast).
      simpl in Hfs', Hidx'.
      split; [intros Hb; specialize (Hall Hb); lia|]. split; [|split; [|split; [|split]]].
      * rewrite Hiff. split.
        -- intros (k & Hk & Hf). exists (S k). split; [lia|]. rewrite FS. exact Hf.
        -- intros ([|k] & Hk & Hf).
           ++ rewrite F0 in Hf. discriminate.
           ++ exists k. split; [lia|]. rewrite FS in Hf. exact Hf.
      * rewrite Hfs', Hfs1, !replay_app. reflexivity.
      * rewrite Hidx', Hidx1, !staged_app. simpl. rewrite <- List.app_assoc. reflexivity.
      * specialize (Heq ltac:(lia)). lia.
      * intros [|k] Hk Hf; [rewrite F0 in Hf; discriminate Hf|].
        rewrite FS in Hf. rewrite (Hlast k ltac:(lia) Hf). lia.
Qed.

(** The result of the loop does not depend on the fuel. *)
Lemma retry_loop_fuel sys self N f1 :
  forall f2 r c v x y,
    Run.retry_loop sys self f1 N r c v = Some x ->
    Run.retry_loop sys self f2 N r c v = Some y -> x = y.
Proof.
  induction f1 as [|f1 IH]; intros [|f2] r c v x y; simpl; try discriminate.
  destruct (r <? N); [|congruence].
  destruct (Run.attempt sys self N r c v) as [[w1 [|err errs]]|c1 o1]; [congruence| |congruence].
  destruct (N <=? r + 1); [congruence|].
  destruct (Run.request_fixes sys self (r + 1) c w1 (err :: errs)) as [[c' w2]|c2 o2];
    [apply IH|congruence].
Qed.

(** *** where an exception comes from *)

Lemma read_file_caused sys c w p c' o :
  (c = Run.ReadOriginal p \/ c = Run.ReadBack p) ->
  Run.path_exists sys w p = true ->
  Run.read_file sys c w p = Run.Exception c' o -> Run.caused sys c' o.
Proof.
  unfold Run.path_exists, Run.read_file, Run.caused. intros Hc He.
  destruct (Run.raises sys c (out w)) eqn:R; [intros [= <- <-]; left; exact R|].
  destruct (fs w !! Run.node sys p); [discriminate|].
  intros [= <- <-]. right. exists p. split; assumption.
Qed.

Lemma process_entry_caused sys self acc entry c o :
  Run.process_entry sys self acc entry = Run.Exception c o -> Run.caused sys c o.
Proof.
  destruct acc as [w errs], entry as [f content]. unfold Run.process_entry.
  destruct (truthy _ && Run.raises sys _ _) eqn:D.
  { intros [= <- <-]. left. apply andb_true_iff in D. apply D. }
  destruct (resolve_content content) as [s| |]; [|discriminate|discriminate].
  destruct (Run.resolve_patch sys (emit (Processing f) w) _ s) as [[[text|e]|m]|c' o'] eqn:RP;
    [|discriminate|discriminate|].
  - unfold Run.write_and_check.
    destruct (Run.raises sys (Run.WriteFile _ _) _) eqn:Wr.
    { intros [= <- <-]. left. exact Wr. }
    destruct (Run.check_code _ _ _ _) as [[e|] W].
    + destruct (truthy e); [discriminate|].
      destruct (Run.raises sys (Run.IndexAdd f) _) eqn:Ia; [|discriminate].
      intros [= <- <-]. left. exact Ia.
    + destruct (Run.raises sys (Run.IndexAdd f) _) eqn:Ia; [|discriminate].
      intros [= <- <-]. left. exact Ia.
  - intros [= <- <-]. unfold Run.resolve_patch in RP.
    destruct (Str.contains Regex.SEARCH_MARKER s); [|discriminate]. simpl in RP.
    destruct (Run.path_exists sys (emit (Processing f) w) _) eqn:He; [|discriminate].
    destruct (Run.read_file sys _ _ _) as [original|c1 o1] eqn:Rd.
    { destruct (Run.undecodable sys _ _); discriminate. }
    injection RP as <- <-. exact (read_file_caused _ _ _ _ _ _ (or_introl eq_refl) He Rd).
Qed.

Lemma apply_changes_caused sys self changes : forall acc c o,
  Run.apply_changes sys self changes acc = Run.Exception c o -> Run.caused sys c o.
Proof.
  induction changes as [|entry changes IH]; intros acc c o H; [discriminate|].
  simpl in H. destruct (Run.process_entry sys self acc entry) as [acc'|c1 o1] eqn:E.
  - exact (IH _ _ _ H).
  - injection H as <- <-. exact (process_entry_caused _ _ _ _ _ _ E).
Qed.

Lemma current_broken_code_caused sys self w changes errs : forall code c o,
  Run.current_broken_code sys self w changes errs code = Run.Exception c o -> Run.caused sys c o.
Proof.
  induction errs as [|[fname err] errs IH]; intros code c o H; [discriminate|].
  simpl in H.
  destruct (Run.path_exists sys w _) eqn:He; [|exact (IH _ _ _ H)].
  destruct (Run.read_file sys _ _ _) as [text|c1 o1] eqn:Rd; [exact (IH _ _ _ H)|].
  injection H as <- <-. exact (read_file_caused _ _ _ _ _ _ (or_intror eq_refl) He Rd).
Qed.

Lemma request_fixes_caused sys self r changes w errs c o :
  Run.request_fixes sys self r changes w errs = Run.Exception c o -> Run.caused sys c o.
Proof.
  unfold Run.request_fixes.
  destruct (Run.current_broken_code sys self w changes errs []) as [broken|c' o'] eqn:E.
  - destruct (Run.raises sys _ _) eqn:R; [|discriminate]. intros [= <- <-]. left. exact R.
  - intros [= <- <-]. exact (current_broken_code_caused _ _ _ _ _ _ _ _ E).
Qed.

(** The loop ends with an exception only where a call raises or opens
    what is not a regular file. *)
Lemma retry_loop_caused sys self N fuel :
  forall r changes w c o,
    Run.retry_loop sys self fuel N r changes w = Some (Run.Exception c o) -> Run.caused sys c o.
Proof.
  induction fuel as [|fuel IH]; intros r changes w c o; simpl; [discriminate|].
  destruct (r <? N); [|discriminate].
  destruct (Run.attempt sys self N r changes w) as [[w1 [|err errs]]|c1 o1] eqn:A.
  - discriminate.
  - destruct (N <=? r + 1); [discriminate|].
    destruct (Run.request_fixes sys self (r + 1) changes w1 (err :: errs))
      as [[c' w2]|c2 o2] eqn:Q; [apply IH|].
    intros [= <- <-]. exact (request_fixes_caused _ _ _ _ _ _ _ _ Q).
  - intros [= <- <-]. unfold Run.attempt in A. exact (apply_changes_caused _ _ _ _ _ _ A).
Qed.

(** *** calm systems *)

Lemma calm_resolve_patch sys w path s :
  Run.calm sys -> exists r, Run.resolve_patch sys w path s = Run.Normal r.
Proof.
  intros [Hr Ho]. unfold Run.resolve_patch, Run.path_exists, Run.read_file. rewrite Hr.
  destruct (Str.contains Regex.SEARCH_MARKER s); simpl; [|eauto].
  destruct (fs w !! Run.node sys path);
    [destruct (Run.undecodable sys path (out w)); eauto|]. rewrite Ho. eauto.
Qed.

Lemma calm_write_and_check sys self w errs f path text :
  Run.calm sys -> exists r, Run.write_and_check sys self w errs f path text = Run.Normal r.
Proof.
  intros [Hr Ho]. unfold Run.write_and_check. rewrite Hr.
  destruct (Run.check_code _ _ _ _) as [[e|] warnings]; [destruct (truthy e)|];
    rewrite ?Hr; eauto.
Qed.

Lemma calm_process_entry sys self acc entry :
  Run.calm sys -> exists r, Run.process_entry sys self acc entry = Run.Normal r.
Proof.
  intros Hc. destruct acc as [w errs], entry as [f content]. unfold Run.process_entry.
  destruct Hc as [Hr Ho]. rewrite Hr, andb_false_r.
  destruct (resolve_content content) as [s| |]; eauto.
  destruct (calm_resolve_patch sys (emit (Processing f) w)
              (os_path_join self (local_repo_path self) f) s (conj Hr Ho)) as [[[text|e]|m] ->];
    [|eauto|eauto].
  apply calm_write_and_check. exact (conj Hr Ho).
Qed.

Lemma calm_apply_changes sys self changes :
  Run.calm sys -> forall acc, exists r, Run.apply_changes sys self changes acc = Run.Normal r.
Proof.
  intros Hc. induction changes as [|entry changes IH]; intros acc; simpl; [eauto|].
  destruct (calm_process_entry sys self acc entry Hc) as [r ->]. apply IH.
Qed.

Lemma calm_current_broken_code sys self w changes errs :
  Run.calm sys ->
  forall code, exists r, Run.current_broken_code sys self w changes errs code = Run.Normal r.
Proof.
  intros [Hr Ho]. induction errs as [|[fname err] errs IH]; intros code; simpl; [eauto|].
  unfold Run.path_exists, Run.read_file. rewrite Hr.
  destruct (fs w !! _); [apply IH|]. rewrite Ho. apply IH.
Qed.

Lemma calm_request_fixes sys self r changes w errs :
  Run.calm sys -> exists res, Run.request_fixes sys self r changes w errs = Run.Normal res.
Proof.
  intros Hc. unfold Run.request_fixes.
  destruct (calm_current_broken_code sys self w changes errs Hc []) as [broken ->].
  destruct Hc as [Hr _]. rewrite Hr. eauto.
Qed.

(** On a calm system the loop returns. *)
Lemma calm_retry_loop sys self N fuel :
  Run.calm sys ->
  forall r changes w res,
    Run.retry_loop sys self fuel N r changes w = Some res ->
    exists b w', res = Run.Normal (b, w').
Proof.
  intros Hc. induction fuel as [|fuel IH]; intros r changes w res; simpl; [discriminate|].
  destruct (r <? N); [|intros [= <-]; eauto].
  unfold Run.attempt.
  destruct (calm_apply_changes sys self changes Hc (emit (Attempt (r + 1) N) w, []))
    as [[w1 errs] ->].
  destruct errs as [|err errs]; [intros [= <-]; eauto|].
  destruct (N <=? r + 1); [intros [= <-]; eauto|].
  destruct (calm_request_fixes sys self (r + 1) changes w1 (err :: errs) Hc) as [[c' w2] ->].
  apply IH.
Qed.

(** *** ideal systems: the session is that of [Service] *)

Lemma ideal_check_code sys self files path :
  Run.ideal sys -> Run.check_code sys self files path = Service.check_code self files path.
Proof.
  intros (_ & Hn & _ & _). unfold Run.check_code, Service.check_code. rewrite Hn. reflexivity.
Qed.

Lemma ideal_process_entry sys self acc entry :
  Run.ideal sys ->
  Run.process_entry sys self acc entry = Run.Normal (Service.process_entry self acc entry).
Proof.
  intros Hi. pose proof Hi as ([Hr Ho] & Hn & Hd & Hl).
  destruct acc as [w errs], entry as [f content].
  unfold Run.process_entry, Service.process_entry, Run.resolve_patch, Run.path_exists,
    Run.read_file.
  rewrite !Hr, andb_false_r, !Hn, Hd.
  destruct (resolve_content content) as [s| |]; [|reflexivity|reflexivity].
  assert (W : forall text,
            Run.write_and_check sys self (emit (Processing f) w) errs f
              (os_path_join self (local_repo_path self) f) text
            = Run.Normal
                (let '(error, warnings) :=
                   Service.check_code self
                     (fs (write_file (os_path_join self (local_repo_path self) f) text
                            (emit (Writing f (os_path_join self (local_repo_path self) f) text)
                               (emit (Processing f) w))))
                     (os_path_join self (local_repo_path self) f) in
                 match error with
                 | Some e =>
                     if truthy e
                     then
                       (emit (ValidationFailed f e)
                          (emit_all warnings
                             (write_file (os_path_join self (local_repo_path self) f) text
                                (emit
                                   (Writing f (os_path_join self (local_repo_path self) f)
                                      text) (emit (Processing f) w)))), errs ++ [(f, e)])
                     else
                       (emit (Staged f)
                          (index_add f
                             (emit_all warnings
                                (write_file (os_path_join self (local_repo_path self) f) text
                                   (emit
                                      (Writing f (os_path_join self (local_repo_path self) f)
                                         text) (emit (Processing f) w))))), errs)
                 | None =>
                     (emit (Staged f)
                        (index_add f
                           (emit_all warnings
                              (write_file (os_path_join self (local_repo_path self) f) text
                                 (emit
                                    (Writing f (os_path_join self (local_repo_path self) f)
                                       text) (emit (Processing f) w))))), errs)
                 end)).
  { intros text. unfold Run.write_and_check. rewrite Hr, Hn.
    rewrite (ideal_check_code sys self _ _ Hi).
    destruct (Service.check_code _ _ _) as [[e|] warnings]; [destruct (truthy e)|];
      rewrite ?Hr; reflexivity. }
  destruct (Str.contains Regex.SEARCH_MARKER s); simpl andb; cbv iota.
  - simpl fs.
    destruct (fs w !! os_path_join self (local_repo_path self) f) as [stored|].
    + destruct (apply_diff (Str.universal_newlines stored) s) as [text|e];
        [apply W|reflexivity].
    + rewrite Ho. apply W.
  - apply W.
Qed.


Lemma ideal_apply_changes sys self changes :
  Run.ideal sys ->
  forall acc,
    Run.apply_changes sys self changes acc
    = Run.Normal (fold_left (Service.process_entry self) changes acc).
Proof.
  intros Hi. induction changes as [|entry changes IH]; intros acc; [reflexivity|].
  simpl. rewrite (ideal_process_entry sys self acc entry Hi). apply IH.
Qed.

Lemma ideal_attempt sys self N r changes w :
  Run.ideal sys ->
  Run.attempt sys self N r changes w = Run.Normal (Service.attempt self N r changes w).
Proof. intros Hi. apply ideal_apply_changes, Hi. Qed.

Lemma ideal_current_broken_code sys self w changes errs :
  Run.ideal sys ->
  forall code,
    Run.current_broken_code sys self w changes errs code
    = Run.Normal
        (fold_left
           (fun code fe =>
              match fs w !! os_path_join self (local_repo_path self) (fst fe) with
              | Some text => Dict.set (fst fe) (PyStr (Str.universal_newlines text)) code
              | None =>
                  Dict.set (fst fe)
                    (match Dict.get (fst fe) changes with Some v => v | None => PyStr "" end)
                    code
              end) errs code).
Proof.
  intros ([Hr Ho] & Hn & _ & Hl). induction errs as [|[fname err] errs IH]; intros code;
    [reflexivity|].
  simpl. unfold Run.path_exists, Run.read_file. rewrite Hr, Hn.
  destruct (fs w !! os_path_join self (local_repo_path self) fname) as [text|].
  - rewrite Hl. apply IH.
  - rewrite Ho. apply IH.
Qed.

Lemma ideal_request_fixes sys self r changes w errs :
  Run.ideal sys ->
  Run.request_fixes sys self r changes w errs
  = Run.Normal (Service.request_fixes self r changes w errs).
Proof.
  intros Hi. unfold Run.request_fixes, Service.request_fixes, Service.current_broken_code.
  rewrite (ideal_current_broken_code sys self w changes errs Hi).
  destruct Hi as ([Hr _] & _). rewrite Hr. reflexivity.
Qed.

#[local] Arguments Service.attempt : simpl never.
#[local] Arguments Service.request_fixes : simpl never.

Lemma ideal_retry_loop sys self N fuel :
  Run.ideal sys ->
  forall r changes w,
    Run.retry_loop sys self fuel N r changes w
    = option_map Run.Normal (Service.retry_loop self fuel N r changes w).
Proof.
  intros Hi. induction fuel as [|fuel IH]; intros r changes w; [reflexivity|].
  cbn [Run.retry_loop Service.retry_loop]. destruct (r <? N); [|reflexivity].
  rewrite (ideal_attempt sys self N r changes w Hi).
  destruct (Service.attempt self N r changes w) as [w1 [|err errs]]; [reflexivity|].
  destruct (N <=? r + 1); [reflexivity|].
  rewrite (ideal_request_fixes sys self (r + 1) changes w1 (err :: errs) Hi).
  destruct (Service.request_fixes self (r + 1) changes w1 (err :: errs)) as [c' w2]. apply IH.
Qed.

(** On an ideal system [validate_and_fix] returns what [Service] has. *)
Lemma ideal_validate_and_fix sys self N changes w :
  Run.ideal sys ->
  Run.validate_and_fix_with sys self N changes w
  = option_map Run.Normal (Service.validate_and_fix_with self N changes w).
Proof.
  intros Hi. unfold Run.validate_and_fix_with, Service.validate_and_fix_with.
  destruct changes; [reflexivity|]. apply ideal_retry_loop, Hi.
Qed.

Lemma plain_is_ideal : Run.ideal MoreInputs.plain.
Proof. repeat split. Qed.


(** *** the entries of an attempt *)

(** Every entry of an attempt that does not raise is processed at some
    point of it; what it prints is part of what the attempt prints, and the
    files it finds are the files of the start with the writes reported up
    to there. *)
Lemma apply_changes_entries sys self changes : forall w errs w' errs',
  Run.apply_changes sys self changes (w, errs) = Run.Normal (w', errs') ->
  forall f payload,
    In (f, payload) changes ->
    exists v ve v1 ve1 pre post,
      Run.process_entry sys self (v, ve) (f, payload) = Run.Normal (v1, ve1)
      /\ out v = out w ++ pre
      /\ out w' = out v1 ++ post
      /\ fs v = Run.replay sys pre (fs w).
Proof.
  induction changes as [|[g content] changes IH]; intros w errs w' errs' H f payload Hin;
    [contradiction|].
  simpl in H.
  destruct (Run.process_entry sys self (w, errs) (g, content)) as [[w1 errs1]|c o] eqn:E;
    [|discriminate].
  destruct Hin as [[= -> ->]|Hin].
  - destruct (apply_changes_spec _ _ _ _ _ _ _ H) as (evs & _ & Hout & _).
    exists w, errs, w1, errs1, [], evs. rewrite List.app_nil_r. repeat split; assumption.
  - destruct (IH _ _ _ _ H f payload Hin) as (v & ve & v1 & ve1 & pre & post & Hp & Hv & Hw & Hf).
    destruct (process_entry_spec _ _ _ _ _ _ _ _ E)
      as (tail & _ & Hout1 & _ & _ & _ & _ & _ & _ & _ & Hfs1 & _).
    exists v, ve, v1, ve1, ([Processing g] ++ tail ++ pre), post.
    split; [exact Hp|]. split; [rewrite Hv, Hout1, <- !List.app_assoc; reflexivity|].
    split; [exact Hw|]. rewrite Hf, Hfs1, !replay_app. reflexivity.
Qed.

(** What an entry that is skipped prints. *)
Lemma process_entry_skipped sys self w errs f content w' errs' :
  Run.process_entry sys self (w, errs) (f, content) = Run.Normal (w', errs') ->
  applicable content = false ->
  (new_events w w' = [Processing f; SkippingNoContentKey f]
   \/ new_events w w' = [Processing f; SkippingNotString f])
  /\ errs' = errs /\ fs w' = fs w /\ index w' = index w.
Proof.
  intros H Happ. apply process_entry_cases in H. unfold applicable in Happ.
  destruct H as [(_ & -> & Hw)|[(s & e & Hs & _)|[(s & m & Hs & _)|(s & text & Hs & _)]]];
    [|rewrite Hs in Happ; discriminate|rewrite Hs in Happ; discriminate
     |rewrite Hs in Happ; discriminate].
  split; [|destruct Hw as [-> | ->]; repeat split].
  destruct Hw as [-> | ->]; [left|right]; apply new_events_app; simpl;
    rewrite <- List.app_assoc; reflexivity.
Qed.

(** What an entry with applicable content prints and does, when it does
    not raise: a patch error, or a file that cannot be decoded, or the
    write of the content and then the verdict of [check_code] on the file
    as written. *)
Lemma process_entry_events sys self w errs f content s w' errs' :
  Run.process_entry sys self (w, errs) (f, content) = Run.Normal (w', errs') ->
  resolve_content content = FinalContent s ->
  (exists e,
     Run.resolve_patch sys (emit (Processing f) w) (full_path self f) s
     = Run.Normal (Run.Resolved (Raises e))
     /\ new_events w w' = [Processing f; DiffError f e]
     /\ errs' = errs ++ [(f, "Diff Application Error: " +:+ message e)]
     /\ fs w' = fs w /\ index w' = index w)
  \/ (exists m,
        Run.resolve_patch sys (emit (Processing f) w) (full_path self f) s
        = Run.Normal (Run.ReadFails m)
        /\ new_events w w' = [Processing f; ReadError f m]
        /\ errs' = errs ++ [(f, "Diff Application Error: " +:+ m)]
        /\ fs w' = fs w /\ index w' = index w)
  \/ (exists text W,
        Run.resolve_patch sys (emit (Processing f) w) (full_path self f) s
        = Run.Normal (Run.Resolved (Returns text))
        /\ Run.warnings_only W
        /\ fs w' = <[Run.node sys (full_path self f) := text]> (fs w)
        /\ ((exists e,
               Run.check_code sys self (fs w') (full_path self f) = (Some e, W)
               /\ new_events w w'
                  = [Processing f; Writing f (full_path self f) text] ++ W
                    ++ [ValidationFailed f e]
               /\ errs' = errs ++ [(f, e)] /\ index w' = index w)
            \/ (Run.check_code sys self (fs w') (full_path self f) = (None, W)
                /\ new_events w w'
                   = [Processing f; Writing f (full_path self f) text] ++ W ++ [Staged f]
                /\ errs' = errs /\ index w' = index w ++ [f]))).
Proof.
  intros H Hs. apply process_entry_cases in H.
  destruct H as [(Happ & _)|[(s' & e & Hs' & RP & -> & ->)
                            |[(s' & m & Hs' & RP & -> & ->)|(s' & text & Hs' & RP & Hc)]]].
  - unfold applicable in Happ. rewrite Hs in Happ. discriminate.
  - rewrite Hs in Hs'. injection Hs' as <-. left. exists e. split; [exact RP|].
    split; [|repeat split].
    apply new_events_app. simpl. rewrite <- List.app_assoc. reflexivity.
  - rewrite Hs in Hs'. injection Hs' as <-. right; left. exists m. split; [exact RP|].
    split; [|repeat split].
    apply new_events_app. simpl. rewrite <- List.app_assoc. reflexivity.
  - rewrite Hs in Hs'. injection Hs' as <-. right; right.
    pose proof (check_code_only_warns sys self
                  (<[Run.node sys (full_path self f) := text]> (fs w)) (full_path self f)) as HW.
    destruct (Run.check_code sys self
                (<[Run.node sys (full_path self f) := text]> (fs w)) (full_path self f))
      as [error W] eqn:CC.
    simpl in Hc, HW. exists text, W. split; [exact RP|]. split; [exact HW|].
    destruct Hc as [(e & -> & -> & ->)|(-> & -> & ->)]; simpl.
    + split; [reflexivity|]. left. exists e. rewrite CC. split; [reflexivity|].
      split; [|split; reflexivity].
      apply new_events_app. simpl. rewrite <- !List.app_assoc. reflexivity.
    + split; [reflexivity|]. right. rewrite CC. split; [reflexivity|].
      split; [|split; reflexivity].
      apply new_events_app. simpl. rewrite <- !List.app_assoc. reflexivity.
Qed.

(** The verdict on an entry: it is staged exactly when its content is
    written and [check_code] has no message for the file as it then is; it
    is a failing file exactly when its patch does not apply, or its file
    cannot be decoded, or [check_code] has a message. *)
Lemma process_entry_verdict sys self v errs f payload v' errs' :
  Run.process_entry sys self (v, errs) (f, payload) = Run.Normal (v', errs') ->
  (staged (new_events v v') = [f]
   <-> exists text,
         In (Writing f (full_path self f) text) (new_events v v')
         /\ fs v' !! Run.node sys (full_path self f) = Some text
         /\ fst (Run.check_code sys self (fs v') (full_path self f)) = None)
  /\ (forall e,
        errs' = errs ++ [(f, e)]
        <-> (exists pe,
               In (DiffError f pe) (new_events v v')
               /\ e = "Diff Application Error: " +:+ message pe)
            \/ (exists m,
                  In (ReadError f m) (new_events v v')
                  /\ e = "Diff Application Error: " +:+ m)
            \/ (exists text,
                  In (Writing f (full_path self f) text) (new_events v v')
                  /\ fst (Run.check_code sys self (fs v') (full_path self f)) = Some e))
  /\ (staged (new_events v v') = [f] \/ staged (new_events v v') = [])
  /\ (errs' = errs \/ exists e, errs' = errs ++ [(f, e)]).
Proof.
  intros Hp.
  assert (L : forall e : string, errs <> errs ++ [(f, e)]).
  { intros e H. apply (f_equal (@List.length _)) in H. rewrite List.length_app in H.
    simpl in H. lia. }
  destruct (resolve_content payload) as [s| |] eqn:Hs.
  - destruct (process_entry_events _ _ _ _ _ _ _ _ _ Hp Hs)
      as [(e0 & _ & -> & -> & _)|[(m0 & _ & -> & -> & _)|(text & W & _ & HW & Hfs & Hc)]].
    + split; [|split; [|split]].
      * split; [discriminate|]. intros (text & [H|[H|[]]] & _); discriminate H.
      * intros e. split.
        -- intros H. apply List.app_inv_head in H. injection H as <-.
           left. exists e0. split; [right; left; reflexivity|reflexivity].
        -- intros [(pe & [H|[H|[]]] & ->)|[(m & [H|[H|[]]] & _)|(text & [H|[H|[]]] & _)]];
             try discriminate H.
           injection H as <-. reflexivity.
      * right. reflexivity.
      * right. eauto.
    + split; [|split; [|split]].
      * split; [discriminate|]. intros (text & [H|[H|[]]] & _); discriminate H.
      * intros e. split.
        -- intros H. apply List.app_inv_head in H. injection H as <-.
           right; left. exists m0. split; [right; left; reflexivity|reflexivity].
        -- intros [(pe & [H|[H|[]]] & _)|[(m & [H|[H|[]]] & ->)|(text & [H|[H|[]]] & _)]];
             try discriminate H.
           injection H as <-. reflexivity.
      * right. reflexivity.
      * right. eauto.
    + destruct Hc as [(e0 & CC & -> & -> & _)|(CC & -> & -> & _)]; rewrite CC; simpl fst.
      * split; [|split; [|split]].
        -- destruct HW as [->|[m ->]]; (split; [discriminate|]);
             intros (t & _ & _ & H); discriminate H.
        -- intros e. split.
           ++ intros H. apply List.app_inv_head in H. injection H as <-. right; right.
              exists text. split; [right; left; reflexivity|reflexivity].
           ++ intros [(pe & H & _)|[(m' & H & _)|(t & _ & H)]];
                [| |injection H as <-; reflexivity];
                exfalso; destruct HW as [->|[m ->]]; simpl in H; intuition discriminate.
        -- right. destruct HW as [->|[m ->]]; reflexivity.
        -- right. eauto.
      * split; [|split; [|split]].
        -- split; [|destruct HW as [->|[m ->]]; reflexivity].
           intros _. exists text. split; [right; left; reflexivity|].
           split; [rewrite Hfs; apply lookup_insert_eq|reflexivity].
        -- intros e. split; [intros H; destruct (L e H)|].
           intros [(pe & H & _)|[(m' & H & _)|(t & _ & H)]]; [| |discriminate H];
             exfalso; destruct HW as [->|[m ->]]; simpl in H; intuition discriminate.
        -- left. destruct HW as [->|[m ->]]; reflexivity.
        -- left. reflexivity.
  - destruct (process_entry_skipped _ _ _ _ _ _ _ _ Hp) as (Q & -> & _);
      [unfold applicable; rewrite Hs; reflexivity|].
    split; [|split; [|split]].
    + destruct Q as [-> | ->]; (split; [discriminate|]);
        intros (t & H & _); simpl in H; intuition discriminate.
    + intros e. split; [intros H; destruct (L e H)|].
      destruct Q as [-> | ->]; intros [(pe & H & _)|[(m & H & _)|(t & H & _)]]; simpl in H;
        intuition discriminate.
    + right. destruct Q as [-> | ->]; reflexivity.
    + left. reflexivity.
  - destruct (process_entry_skipped _ _ _ _ _ _ _ _ Hp) as (Q & -> & _);
      [unfold applicable; rewrite Hs; reflexivity|].
    split; [|split; [|split]].
    + destruct Q as [-> | ->]; (split; [discriminate|]);
        intros (t & H & _); simpl in H; intuition discriminate.
    + intros e. split; [intros H; destruct (L e H)|].
      destruct Q as [-> | ->]; intros [(pe & H & _)|[(m & H & _)|(t & H & _)]]; simpl in H;
        intuition discriminate.
    + right. destruct Q as [-> | ->]; reflexivity.
    + left. reflexivity.
Qed.


(** *** what the producer is given *)

(** The code gathered after an attempt is, for every failing file, the
    text of the file as it is read back. *)
Lemma broken_code_on_disk sys self N r changes w w1 errs code :
  Run.attempt sys self N r changes w = Run.Normal (w1, errs) ->
  Run.current_broken_code sys self w1 changes errs [] = Run.Normal code ->
  (forall f, In f (Dict.keys code) <-> In f (map fst errs))
  /\ Forall (fun kv =>
               exists stored,
                 fs w1 !! Run.node sys (full_path self (fst kv)) = Some stored
                 /\ snd kv = PyStr (Str.universal_newlines (Run.locale_text sys stored)))
       code.
Proof.
  intros A Hc.
  destruct (attempt_spec _ _ _ _ _ _ _ _ A) as (evs & _ & _ & _ & _ & _ & _ & _ & _ & _ & Hdisk).
  destruct (current_broken_code_spec _ _ _ _ _ _ _ Hc) as [Hkeys HP].
  split; [intros f; rewrite Hkeys; simpl; intuition|].
  apply HP; [constructor| |exact Hdisk].
  apply List.Forall_forall. intros fe _ stored Hs. exists stored. split; [exact Hs|reflexivity].
Qed.

End RunFacts.

(** * The repair loop on any system *)

Section RepairLoopOnAnySystem.
Import ServiceFacts SessionFacts Session RunFacts.

(** Runs of the code on a POSIX system: a directory in the way of a write
    ends the session with its exception; a file with the line ends of DOS
    is patched as it is read, with line feeds; two spellings of one path
    are one file; a style checker that prints only a no-break space has
    printed nothing; a file that is not UTF-8 is a failing file of its
    attempt, and reading it back for the producer ends the session. *)
Example run_with_a_directory_in_the_way :
  Run.validate_and_fix MoreInputs.sub_is_a_directory Inputs.demo [("sub", PyStr "hello")]
    Inputs.empty_world
  = Some (Run.Exception (Run.WriteFile "workdir/sub" "hello")
            [Attempt 1 3; Processing "sub"; Writing "sub" "workdir/sub" "hello"]).
Proof. vm_compute. reflexivity. Qed.

Example run_on_a_file_with_dos_line_ends :
  option_map
    (fun res =>
       match res with
       | Run.Normal (b, w') => Some (b, fs w' !! "workdir/notes.txt")
       | Run.Exception _ _ => None
       end)
    (Run.validate_and_fix MoreInputs.plain Inputs.demo
       [("notes.txt", PyStr MoreInputs.two_line_patch)] MoreInputs.world_with_dos_file)
  = Some (Some (true, Some ("z" +:+ Regex.NL))).
Proof. vm_compute. reflexivity. Qed.

Example run_with_two_spellings_of_a_path :
  option_map
    (fun res =>
       match res with
       | Run.Normal (b, w') => Some (b, fs w' !! "workdir/a.txt", fs w' !! "workdir/./a.txt")
       | Run.Exception _ _ => None
       end)
    (Run.validate_and_fix MoreInputs.dotted Inputs.demo
       [("a.txt", PyStr "first"); ("./a.txt", PyStr "second")] Inputs.empty_world)
  = Some (Some (true, Some "second", None)).
Proof. vm_compute. reflexivity. Qed.

Example run_with_a_style_checker_that_prints_a_no_break_space :
  Run.check_code MoreInputs.plain MoreInputs.prints_blank (fs Inputs.world_with_a) "workdir/a.py"
  = (None, []).
Proof. vm_compute. reflexivity. Qed.

Example run_on_a_file_that_is_not_utf8 :
  Run.validate_and_fix MoreInputs.notes_in_latin1 Inputs.demo
    [("notes.txt", PyStr MoreInputs.x_to_z)] MoreInputs.world_with_latin1_file
  = Some (Run.Exception (Run.ReadBack "workdir/notes.txt")
            [Attempt 1 3; Processing "notes.txt"; ReadError "notes.txt" MoreInputs.not_utf8]).
Proof. vm_compute. reflexivity. Qed.

(** C3, as stated, fails: [main.py], a patch, passes validation in the
    first attempt and [b.py] in the second, so every file has passed by the
    second of three attempts; but the patch of [main.py] no longer applies
    in the second and third attempt, each attempt has a failing file, and
    the answer is [false]. *)
Lemma passing_in_different_rounds_is_not_enough :
  exists w',
    Run.validate_and_fix MoreInputs.plain MoreInputs.fixes_b_once MoreInputs.patch_and_bad
      Inputs.world_with_main
    = Some (Run.Normal (false, w'))
    /\ Dict.keys MoreInputs.patch_and_bad = ["main.py"; "b.py"]
    /\ passed_by_round (out w') = [["main.py"]; ["b.py"]; ["b.py"]].
Proof. eexists. vm_compute. repeat split. Qed.

(** C3, amended: for a non-empty ChangeSet and a budget of [N] attempts,
    [validate_and_fix] ends after at most [N] attempts, by returning or
    with the exception of a call of the file system, of git or of the
    producer, which leaves it only where that call raises or opens what
    is not a regular file; it returns on a system on which no such call
    raises.  It
    returns [true] exactly when one of the attempts 1 to [N] ends with no
    failing file, and then that attempt is its last, and [false] only
    after all [N] attempts.  An attempt has
    no failing file exactly when it reports no patch error, no file that
    cannot be decoded and no failed validation, which is exactly when
    every entry with an applicable payload is staged in that same attempt.
    An entry is staged exactly when its content is written and
    [check_code] has no message for the file as written, and it is a
    failing file exactly when its patch does not apply, or the file to
    patch cannot be decoded, or [check_code] has a message.  The budget of
    the source is 3. *)
Theorem repair_terminates sys self N changes w :
  changes <> [] ->
  exists res,
    Run.validate_and_fix_with sys self N changes w = Some res
    /\ (forall fuel, N < fuel -> Run.retry_loop sys self fuel N 0 changes w = Some res)
    /\ attempts_made (Run.trace w res) <= N
    /\ (Run.calm sys -> exists b w', res = Run.Normal (b, w'))
    /\ (forall c printed, res = Run.Exception c printed -> Run.caused sys c printed)
    /\ (forall b w',
          res = Run.Normal (b, w') ->
          (b = true <->
           exists k, k < N /\ Run.failures_from sys self N 0 k changes w = Some [])
          /\ (forall k,
                k < N ->
                Run.failures_from sys self N 0 k changes w = Some [] ->
                attempts_made (new_events w w') = k + 1)
          /\ (b = false -> attempts_made (new_events w w') = N))
    /\ (forall r c v v' errs,
          Run.attempt sys self N r c v = Run.Normal (v', errs) ->
          (errs = [] <-> existsb is_failure (new_events v v') = false)
          /\ (errs = [] <->
              staged (new_events v v')
              = map fst (List.filter (fun entry => applicable (snd entry)) c))
          /\ forall f payload,
               In (f, payload) c ->
               exists v0 e0 v1 e1 before after,
                 Run.process_entry sys self (v0, e0) (f, payload) = Run.Normal (v1, e1)
                 /\ new_events v v'
                    = Attempt (r + 1) N :: before ++ new_events v0 v1 ++ after)
    /\ (forall v errs f payload v' errs',
          Run.process_entry sys self (v, errs) (f, payload) = Run.Normal (v', errs') ->
          (staged (new_events v v') = [f]
           <-> exists text,
                 In (Writing f (full_path self f) text) (new_events v v')
                 /\ fs v' !! Run.node sys (full_path self f) = Some text
                 /\ fst (Run.check_code sys self (fs v') (full_path self f)) = None)
          /\ (forall e,
                errs' = errs ++ [(f, e)]
                <-> (exists pe,
                       In (DiffError f pe) (new_events v v')
                       /\ e = "Diff Application Error: " +:+ message pe)
                    \/ (exists m,
                          In (ReadError f m) (new_events v v')
                          /\ e = "Diff Application Error: " +:+ m)
                    \/ (exists text,
                          In (Writing f (full_path self f) text) (new_events v v')
                          /\ fst (Run.check_code sys self (fs v') (full_path self f)) = Some e))
          /\ (staged (new_events v v') = [f] \/ staged (new_events v v') = [])
          /\ (errs' = errs \/ exists e, errs' = errs ++ [(f, e)]))
    /\ Run.validate_and_fix sys self changes w = Run.validate_and_fix_with sys self 3 changes w.
Proof.
  intros Hne.
  destruct (retry_loop_spec sys self N (S N) 0 changes w)
    as (res & evs & Hrun & Hout & Hle & _ & _ & Hnormal); [lia|].
  exists res. rewrite Nat.max_0_r in *. rewrite !Nat.add_0_l in *.
  assert (Htrace : Run.trace w res = evs).
  { unfold Run.trace. rewrite Hout. apply drop_app_length. }
  rewrite Htrace.
  split; [unfold Run.validate_and_fix_with; destruct changes; [congruence|exact Hrun]|].
  split.
  { intros fuel Hfuel.
    destruct (retry_loop_spec sys self N fuel 0 changes w) as (res2 & _ & Hrun2 & _); [lia|].
    rewrite Hrun2. f_equal. exact (retry_loop_fuel _ _ _ _ _ _ _ _ _ _ Hrun2 Hrun). }
  split; [exact Hle|].
  split; [intros Hc; exact (calm_retry_loop _ _ _ _ Hc _ _ _ _ Hrun)|].
  split; [intros c printed ->; exact (retry_loop_caused _ _ _ _ _ _ _ _ _ Hrun)|].
  split.
  { intros b w' ->. destruct (Hnormal b w' eq_refl) as (Hall & Hiff & _ & _ & _ & Hlast).
    simpl in Hout. rewrite (new_events_app _ _ _ Hout).
    split; [exact Hiff|]. split; [exact Hlast|exact Hall]. }
  split.
  { intros r c v v' errs A.
    destruct (attempt_spec _ _ _ _ _ _ _ _ A)
      as (evs1 & Hout1 & _ & _ & _ & Hfail & _ & Hst & _).
    rewrite (new_events_app _ _ _ Hout1). simpl.
    split; [exact Hfail|]. split; [exact Hst|].
    intros f payload Hin. unfold Run.attempt in A.
    destruct (apply_changes_entries _ _ _ _ _ _ _ A f payload Hin)
      as (v0 & e0 & v1 & e1 & pre & post & Hp & Hv0 & Hv' & _).
    destruct (process_entry_spec _ _ _ _ _ _ _ _ Hp) as (tail & _ & Ho1 & _).
    exists v0, e0, v1, e1, pre, post. split; [exact Hp|].
    rewrite (new_events_app _ _ _ Ho1). simpl in Hv0.
    rewrite Hv', Ho1, Hv0, <- !List.app_assoc in Hout1. simpl in Hout1.
    apply List.app_inv_head in Hout1. injection Hout1 as <-. reflexivity. }
  split; [|reflexivity].
  intros v errs f payload v' errs' Hp. exact (process_entry_verdict _ _ _ _ _ _ _ _ Hp).
Qed.

Lemma repair_terminates_witness :
  exists res,
    Run.validate_and_fix MoreInputs.plain Inputs.demo Inputs.good_and_bad Inputs.empty_world
    = Some res
    /\ attempts_made (Run.trace Inputs.empty_world res) <= 3.
Proof.
  destruct (repair_terminates MoreInputs.plain Inputs.demo 3 Inputs.good_and_bad
              Inputs.empty_world) as (res & H1 & _ & H2 & _).
  - discriminate.
  - exists res. split; [exact H1|exact H2].
Defined.

(** C5, amended: the files sent to the producer for repair are exactly the
    files that failed in the attempt, and they are entries of the
    ChangeSet; the merge of the answer keeps every entry and changes the
    payloads of the answered files only.  Every attempt that does not
    raise processes every entry of the current ChangeSet again, the files
    that passed before included, each on the files as the entries before
    it have left them: content without the start marker is written as it
    is and validated, and a patch is applied to the file as it then is, so
    it is written and validated when it still applies and is a failing
    file when it does not, or when the file is not UTF-8 text. *)
Theorem only_failing_files_are_requested sys self N r changes w w1 errs :
  Run.attempt sys self N r changes w = Run.Normal (w1, errs) ->
  processed (new_events w w1) = Dict.keys changes
  /\ incl (map fst errs) (Dict.keys changes)
  /\ (forall f payload,
        In (f, payload) changes ->
        exists v0 e0 v1 e1 pre post,
          Run.process_entry sys self (v0, e0) (f, payload) = Run.Normal (v1, e1)
          /\ new_events w w1 = pre ++ new_events v0 v1 ++ post
          /\ fs v0 = Run.replay sys pre (fs w))
  /\ (forall v e0 f payload s v' e',
        Run.process_entry sys self (v, e0) (f, payload) = Run.Normal (v', e') ->
        resolve_content payload = FinalContent s ->
        exists entry,
          new_events v v' = Processing f :: entry
          /\ ((exists pe, entry = [DiffError f pe])
              \/ (exists m, entry = [ReadError f m])
              \/ (exists text W last,
                    entry = Writing f (full_path self f) text :: W ++ [last]
                    /\ Run.warnings_only W
                    /\ (last = Staged f \/ exists e, last = ValidationFailed f e)
                    /\ fs v' = <[Run.node sys (full_path self f) := text]> (fs v)))
          /\ (Str.contains Regex.SEARCH_MARKER s = false ->
              exists W last,
                entry = Writing f (full_path self f) s :: W ++ [last]
                /\ (last = Staged f \/ exists e, last = ValidationFailed f e)))
  /\ (forall v e0 f payload s v' e',
        Run.process_entry sys self (v, e0) (f, payload) = Run.Normal (v', e') ->
        resolve_content payload = FinalContent s ->
        Str.contains Regex.SEARCH_MARKER s = true ->
        forall stored,
          fs v !! Run.node sys (full_path self f) = Some stored ->
          match Run.undecodable sys (full_path self f) (out v ++ [Processing f]) with
          | Some m =>
              new_events v v' = [Processing f; ReadError f m]
              /\ e' = e0 ++ [(f, "Diff Application Error: " +:+ m)]
              /\ fs v' = fs v
          | None =>
              match apply_diff (Str.universal_newlines stored) s with
              | Raises pe =>
                  new_events v v' = [Processing f; DiffError f pe]
                  /\ e' = e0 ++ [(f, "Diff Application Error: " +:+ message pe)]
                  /\ fs v' = fs v
              | Returns text =>
                  In (Writing f (full_path self f) text) (new_events v v')
                  /\ fs v' = <[Run.node sys (full_path self f) := text]> (fs v)
              end
          end)
  /\ (forall changes' w2,
        Run.request_fixes sys self (r + 1) changes w1 errs = Run.Normal (changes', w2) ->
        exists broken,
          new_events w1 w2 = [RequestingFixes broken (error_report errs)]
          /\ (forall f, In f (Dict.keys broken) <-> In f (map fst errs))
          /\ changes'
             = Dict.update changes (fix_code self (r + 1) broken (error_report errs))
          /\ incl (Dict.keys changes) (Dict.keys changes')
          /\ forall f,
               Dict.get f changes'
               = match Dict.get f (rev (fix_code self (r + 1) broken (error_report errs))) with
                 | Some v => Some v
                 | None => Dict.get f changes
                 end).
Proof.
  intros A.
  destruct (attempt_spec _ _ _ _ _ _ _ _ A) as (evs & Hout & _ & _ & Hproc & _ & Hin & _).
  rewrite (new_events_app _ _ _ Hout).
  split; [exact Hproc|]. split; [exact Hin|]. split; [|split; [|split]].
  - intros f payload Hf. unfold Run.attempt in A.
    destruct (apply_changes_entries _ _ _ _ _ _ _ A f payload Hf)
      as (v0 & e0 & v1 & e1 & pre & post & Hp & Hv0 & Hv' & Hfs0).
    simpl in Hv0, Hfs0.
    destruct (process_entry_spec _ _ _ _ _ _ _ _ Hp) as (tail & _ & Ho1 & _).
    exists v0, e0, v1, e1, (Attempt (r + 1) N :: pre), post. split; [exact Hp|].
    split; [|exact Hfs0].
    rewrite (new_events_app _ _ _ Ho1).
    rewrite Hv', Ho1, Hv0, <- !List.app_assoc in Hout. apply List.app_inv_head in Hout.
    simpl in Hout. injection Hout as <-. reflexivity.
  - intros v e0 f payload s v' e' Hp Hs.
    destruct (process_entry_events _ _ _ _ _ _ _ _ _ Hp Hs)
      as [(pe & RP & Hev & _)|[(m & RP & Hev & _)|(text & W & RP & HW & Hfs & Hc)]].
    + exists [DiffError f pe]. split; [exact Hev|]. split; [eauto|].
      intros Hplain. rewrite (resolve_patch_plain _ _ _ _ Hplain) in RP. discriminate RP.
    + exists [ReadError f m]. split; [exact Hev|]. split; [eauto|].
      intros Hplain. rewrite (resolve_patch_plain _ _ _ _ Hplain) in RP. discriminate RP.
    + assert (Hlast : exists last,
                new_events v v' = Processing f :: Writing f (full_path self f) text :: W ++ [last]
                /\ (last = Staged f \/ exists e, last = ValidationFailed f e)).
      { destruct Hc as [(e & _ & -> & _)|(_ & -> & _)]; eexists; split; try reflexivity; eauto. }
      destruct Hlast as (last & Hev & Hl).
      exists (Writing f (full_path self f) text :: W ++ [last]). split; [exact Hev|].
      split.
      * right; right. exists text, W, last. repeat split; assumption.
      * intros Hplain. rewrite (resolve_patch_plain _ _ _ _ Hplain) in RP.
        injection RP as <-. exists W, last. split; [reflexivity|exact Hl].
  - intros v e0 f payload s v' e' Hp Hs Hm stored Hf.
    destruct (process_entry_events _ _ _ _ _ _ _ _ _ Hp Hs)
      as [(pe & RP & Hev & He & Hfs & _)
         |[(m & RP & Hev & He & Hfs & _)|(text & W & RP & _ & Hfs & Hc)]].
    + apply resolve_patch_raises in RP. destruct RP as (stored' & _ & Hf' & Hu & Hd).
      simpl in Hf', Hu. rewrite Hf in Hf'. injection Hf' as <-. rewrite Hu, Hd. auto.
    + apply resolve_patch_read_fails in RP. destruct RP as (_ & _ & Hu).
      simpl in Hu. rewrite Hu. auto.
    + apply resolve_patch_returns in RP.
      destruct RP as [(-> & [Hm'|Hn])|(stored' & _ & Hf' & Hu & Hd)].
      * congruence.
      * simpl in Hn. congruence.
      * simpl in Hf', Hu. rewrite Hf in Hf'. injection Hf' as <-. rewrite Hu, Hd.
        split; [|exact Hfs].
        destruct Hc as [(e & _ & -> & _)|(_ & -> & _)]; right; left; reflexivity.
  - intros changes' w2 Q.
    destruct (request_fixes_spec _ _ _ _ _ _ _ _ Q) as (broken & Hb & -> & ->).
    exists broken. split; [apply new_events_app; reflexivity|].
    destruct (current_broken_code_spec _ _ _ _ _ _ _ Hb) as [Hkeys _].
    split; [intros f; rewrite Hkeys; simpl; intuition|]. split; [reflexivity|].
    split; [intros f Hf; apply keys_update; left; exact Hf|].
    intros f. apply MoreFacts.get_update.
Qed.

Lemma only_failing_files_are_requested_witness :
  exists w1 errs,
    Run.attempt MoreInputs.plain Inputs.demo 3 0 Inputs.good_and_bad Inputs.empty_world
    = Run.Normal (w1, errs)
    /\ processed (new_events Inputs.empty_world w1) = ["a.py"; "b.py"]
    /\ incl (map fst errs) ["a.py"; "b.py"].
Proof.
  eexists _, _. split; [vm_compute; reflexivity|].
  destruct (only_failing_files_are_requested MoreInputs.plain Inputs.demo 3 0
              Inputs.good_and_bad Inputs.empty_world _ _ eq_refl) as (H1 & H2 & _).
  split; [exact H1|exact H2].
Defined.

End RepairLoopOnAnySystem.

(** ** Validator and repair loop *)

Section RepairLoopMore.
Import ServiceFacts SessionFacts Session.

(** X6: an error message of [check_code] is never the empty string, so the
    test [if error:] of [validate_and_fix] holds exactly when [check_code]
    answers with a message: an entry with a plain string payload is added
    to the failures exactly then. *)
Theorem check_code_error_is_not_empty self w errs filename s :
  Str.contains Regex.SEARCH_MARKER s = false ->
  (forall files path e, fst (check_code self files path) = Some e -> truthy e = true)
  /\ (snd (process_entry self (w, errs) (filename, PyStr s)) = errs
      <-> fst (check_code self (<[full_path self filename := s]> (fs w))
                 (full_path self filename)) = None).
Proof.
  intros Hplain.
  assert (T : forall files path e,
            fst (check_code self files path) = Some e -> truthy e = true).
  { intros files path e. unfold check_code.
    repeat case_match; simpl; intros [= <-]; reflexivity. }
  split; [exact T|]. unfold process_entry, full_path. simpl. rewrite Hplain.
  pose proof (T (<[os_path_join self (local_repo_path self) filename := s]> (fs w))
                (os_path_join self (local_repo_path self) filename)) as Tm.
  destruct (check_code _ _ _) as [[msg|] warnings]; simpl in *.
  - rewrite (Tm msg eq_refl). simpl. split; [|discriminate].
    intros H. apply (f_equal (@List.length _)) in H. rewrite List.length_app in H.
    simpl in H. lia.
  - split; reflexivity.
Qed.

Lemma check_code_error_is_not_empty_witness :
  snd (process_entry Inputs.demo (Inputs.empty_world, []) ("a.py", PyStr "print('a')")) = [].
Proof.
  apply (check_code_error_is_not_empty Inputs.demo Inputs.empty_world [] "a.py" "print('a')").
  - vm_compute. reflexivity.
  - vm_compute. reflexivity.
Defined.

(** X7: for a Python file that compiles and a style checker that runs to
    the end, exit status 0 passes whatever was printed, and a non-zero
    status fails exactly when the output has a character that is not
    whitespace; the message then carries the output as printed. *)
Theorem lint_failure_condition self files filename source returncode stdout :
  Str.has_suffix ".py" filename = true ->
  files !! filename = Some source ->
  py_compile self source filename = Compiles ->
  ruff_check self filename source = Completed returncode stdout ->
  check_code self files filename
  = (if negb (returncode =? 0)%Z && negb (Text.blank stdout)
     then Some ("Linter Errors in " +:+ filename +:+ ":" +:+ Regex.NL +:+ stdout)
     else None,
     []).
Proof.
  intros Hpy Hfile Hcompile Hrun. unfold check_code.
  rewrite Hpy, Hfile, Hcompile, Hrun. simpl. rewrite MoreFacts.strip_blank.
  destruct (negb (returncode =? 0)%Z), (Text.blank stdout); reflexivity.
Qed.

Lemma lint_failure_condition_witness :
  check_code Inputs.silent_failure (fs Inputs.world_with_a) "workdir/a.py" = (None, []).
Proof.
  apply (lint_failure_condition Inputs.silent_failure (fs Inputs.world_with_a)
           "workdir/a.py" Inputs.three_lines 2%Z EmptyString); vm_compute; reflexivity.
Defined.

(** X13: the merge of the producer's answer overwrites by key: a file of
    the answer gets its payload there, every other file keeps its payload;
    the keys of the ChangeSet keep their order, new files come after them,
    and no key is repeated. *)
Theorem fixes_are_merged_by_key self r changes w errs :
  (forall f,
     Dict.get f (fst (request_fixes self r changes w errs))
     = match Dict.get f (rev (fix_code self r (current_broken_code self w changes errs)
                                (error_report errs))) with
       | Some v => Some v
       | None => Dict.get f changes
       end)
  /\ (exists added,
        Dict.keys (fst (request_fixes self r changes w errs)) = Dict.keys changes ++ added)
  /\ (NoDup (Dict.keys changes) -> NoDup (Dict.keys (fst (request_fixes self r changes w errs)))).
Proof.
  unfold request_fixes. simpl. split; [intros f; apply MoreFacts.get_update|].
  destruct (MoreFacts.keys_update_shape
              (fix_code self r (current_broken_code self w changes errs) (error_report errs))
              changes) as (added & Hkeys & Hnodup).
  split; [exists added; exact Hkeys|exact Hnodup].
Qed.

End RepairLoopMore.

(** ** More about the session on any system *)

Section SessionOnAnySystem.
Import ServiceFacts SessionFacts Session RunFacts.

(** X5: a patch is applied to the file as it is read from disk, in every
    attempt.  On a system on which no call raises and every file is UTF-8
    text, when the single block
    of the patch is counted once in the text read and the patched text, as
    it is read back, no longer contains the search text, the entry writes
    the patched text, and the same entry processed again fails with a
    not-found diff error and leaves the patched text on disk. *)
Theorem patch_fails_when_applied_again sys self w errs filename payload stored S R :
  (forall c h, Run.raises sys c h = false) ->
  (forall p h, Run.undecodable sys p h = None) ->
  fs w !! Run.node sys (full_path self filename) = Some stored ->
  Regex.finditer payload = [(S, R)] ->
  Str.count S (Str.universal_newlines stored) = 1 ->
  Str.contains S
    (Str.universal_newlines (Str.replace_first S R (Str.universal_newlines stored))) = false ->
  exists w1 errs1 w2,
    Run.process_entry sys self (w, errs) (filename, PyStr payload) = Run.Normal (w1, errs1)
    /\ fs w1 !! Run.node sys (full_path self filename)
       = Some (Str.replace_first S R (Str.universal_newlines stored))
    /\ Run.process_entry sys self (w1, errs1) (filename, PyStr payload)
       = Run.Normal
           (w2, errs1 ++ [(filename, "Diff Application Error: " +:+ message (NotFound S))])
    /\ fs w2 = fs w1.
Proof.
  intros Hr Hd Hfile Hparse Hcount Hgone.
  assert (Hblocks : Regex.finditer payload <> []) by (rewrite Hparse; discriminate).
  assert (Hmark : Str.contains Regex.SEARCH_MARKER payload = true)
    by (apply RegexFacts.finditer_marker, Hblocks).
  assert (Hfirst : apply_diff (Str.universal_newlines stored) payload
                   = Returns (Str.replace_first S R (Str.universal_newlines stored))).
  { rewrite (DiffFacts.apply_diff_blocks _ _ Hblocks), Hparse.
    rewrite (DiffFacts.apply_blocks_step _ _ _ _ Hcount). reflexivity. }
  assert (Hsecond : apply_diff
                      (Str.universal_newlines
                         (Str.replace_first S R (Str.universal_newlines stored))) payload
                    = Raises (NotFound S)).
  { rewrite (DiffFacts.apply_diff_blocks _ _ Hblocks), Hparse. simpl. rewrite Hgone.
    reflexivity. }
  assert (Hstep : exists w1 errs1,
            Run.process_entry sys self (w, errs) (filename, PyStr payload)
            = Run.Normal (w1, errs1)
            /\ fs w1 = <[Run.node sys (full_path self filename)
                         := Str.replace_first S R (Str.universal_newlines stored)]> (fs w)).
  { unfold Run.process_entry, full_path in *. rewrite Hr, andb_false_r.
    change (resolve_content (PyStr payload)) with (FinalContent payload). cbv iota.
    rewrite (resolve_patch_file _ _ _ _ stored Hmark) by (simpl; auto).
    rewrite Hfirst. unfold Run.write_and_check. rewrite Hr.
    destruct (Run.check_code _ _ _ _) as [[msg|] warnings];
      [destruct (truthy msg)|]; rewrite ?Hr; eexists _, _; split; reflexivity. }
  destruct Hstep as (w1 & errs1 & H1 & Hfs1). exists w1, errs1.
  eexists. split; [exact H1|]. split; [rewrite Hfs1; apply lookup_insert_eq|].
  unfold Run.process_entry, full_path in *. rewrite Hr, andb_false_r.
  change (resolve_content (PyStr payload)) with (FinalContent payload). cbv iota.
  rewrite (resolve_patch_file _ _ _ _
             (Str.replace_first S R (Str.universal_newlines stored)) Hmark);
    [|simpl; rewrite Hfs1; apply lookup_insert_eq|apply Hr|apply Hd].
  rewrite Hsecond. split; reflexivity.
Qed.

Lemma patch_fails_when_applied_again_witness :
  exists w1 errs1 w2,
    Run.process_entry MoreInputs.plain Inputs.demo (MoreInputs.world_with_dos_file, [])
      ("notes.txt", PyStr MoreInputs.x_to_z) = Run.Normal (w1, errs1)
    /\ fs w1 !! "workdir/notes.txt" = Some ("z" +:+ Regex.NL +:+ "y" +:+ Regex.NL)
    /\ Run.process_entry MoreInputs.plain Inputs.demo (w1, errs1)
         ("notes.txt", PyStr MoreInputs.x_to_z)
       = Run.Normal
           (w2, errs1 ++ [("notes.txt", "Diff Application Error: " +:+ message (NotFound "x"))])
    /\ fs w2 = fs w1.
Proof.
  apply (patch_fails_when_applied_again MoreInputs.plain Inputs.demo
           MoreInputs.world_with_dos_file [] "notes.txt" MoreInputs.x_to_z
           MoreInputs.dos_lines "x" "z"); vm_compute; reflexivity.
Defined.

(** X8: on a system on which no call raises, a ChangeSet whose payloads
    are strings without the start marker and whose paths do not end in
    [.py] passes in the first attempt: every payload is written as it is
    and staged, and nothing is checked. *)
Theorem plain_files_pass_unchecked sys self changes w :
  (forall c h, Run.raises sys c h = false) ->
  changes <> [] ->
  Forall (fun entry =>
            exists s, snd entry = PyStr s
                      /\ Str.contains Regex.SEARCH_MARKER s = false
                      /\ Str.has_suffix ".py" (full_path self (fst entry)) = false) changes ->
  exists w',
    Run.validate_and_fix sys self changes w = Some (Run.Normal (true, w'))
    /\ attempts_made (new_events w w') = 1
    /\ requests_made (new_events w w') = 0
    /\ staged (new_events w w') = Dict.keys changes
    /\ fs w' = Run.written sys self changes (fs w).
Proof.
  intros Hr Hne Hall.
  assert (F : forall v errs,
            exists evs,
              Run.apply_changes sys self changes (v, errs)
              = Run.Normal ({| fs := Run.written sys self changes (fs v);
                               index := index v ++ Dict.keys changes;
                               out := out v ++ evs |}, errs)
              /\ attempts_made evs = 0 /\ requests_made evs = 0
              /\ staged evs = Dict.keys changes).
  { clear Hne. induction Hall as [|[filename content] rest Hx Hrest IH]; intros v errs.
    - exists []. simpl. rewrite !List.app_nil_r. destruct v. repeat split; reflexivity.
    - destruct Hx as (s & Hs & Hplain & Hext). simpl in Hs, Hext. subst content.
      assert (E : Run.process_entry sys self (v, errs) (filename, PyStr s)
                  = Run.Normal
                      ({| fs := <[Run.node sys (full_path self filename) := s]> (fs v);
                          index := index v ++ [filename];
                          out := out v ++ [Processing filename;
                                           Writing filename (full_path self filename) s;
                                           Staged filename] |}, errs)).
      { unfold Run.process_entry, full_path in *. rewrite Hr, andb_false_r.
        change (resolve_content (PyStr s)) with (FinalContent s). cbv iota. rewrite (resolve_patch_plain _ _ _ _ Hplain).
        unfold Run.write_and_check. rewrite Hr. unfold Run.check_code. rewrite Hext. simpl.
        rewrite Hr. unfold emit, index_add, emit_all, write_file. simpl.
        rewrite List.app_nil_r, <- !List.app_assoc. reflexivity. }
      cbn [Run.apply_changes]. rewrite E.
      destruct (IH {| fs := <[Run.node sys (full_path self filename) := s]> (fs v);
                      index := index v ++ [filename];
                      out := out v ++ [Processing filename;
                                       Writing filename (full_path self filename) s;
                                       Staged filename] |} errs)
        as (evs & -> & Ha & Hq & Hs). simpl.
      exists ([Processing filename; Writing filename (full_path self filename) s;
               Staged filename] ++ evs).
      split; [rewrite <- !List.app_assoc; reflexivity|].
      rewrite attempts_made_app, requests_made_app, staged_app, Ha, Hq, Hs.
      repeat split; reflexivity. }
  destruct (F (emit (Attempt 1 3) w) []) as (evs & Hfold & Ha & Hq & Hs).
  unfold Run.validate_and_fix, Run.validate_and_fix_with.
  destruct changes as [|c0 rest]; [congruence|].
  cbn [Run.retry_loop]. change (0 <? 3) with true. cbv iota.
  unfold Run.attempt. change (0 + 1) with 1. rewrite Hfold.
  eexists. split; [reflexivity|].
  assert (E : new_events w
                (emit ValidationPassed
                   {| fs := Run.written sys self (c0 :: rest) (fs (emit (Attempt 1 3) w));
                      index := index (emit (Attempt 1 3) w) ++ Dict.keys (c0 :: rest);
                      out := out (emit (Attempt 1 3) w) ++ evs |})
              = [Attempt 1 3] ++ evs ++ [ValidationPassed]).
  { apply new_events_app. simpl. rewrite <- !List.app_assoc. reflexivity. }
  rewrite E, !attempts_made_app, !requests_made_app, !staged_app, Ha, Hq, Hs.
  repeat split; try reflexivity.
  change (staged [Attempt 1 3] ++ Dict.keys (c0 :: rest) ++ staged [ValidationPassed])
    with (Dict.keys (c0 :: rest) ++ []).
  apply List.app_nil_r.
Qed.

Lemma plain_files_pass_unchecked_witness :
  exists w',
    Run.validate_and_fix MoreInputs.plain Inputs.demo [("README.md", PyStr "hello")]
      Inputs.empty_world
    = Some (Run.Normal (true, w'))
    /\ fs w' !! "workdir/README.md" = Some "hello".
Proof.
  destruct (plain_files_pass_unchecked MoreInputs.plain Inputs.demo
              [("README.md", PyStr "hello")] Inputs.empty_world) as (w' & H1 & _ & _ & _ & H2).
  - intros c h. reflexivity.
  - discriminate.
  - repeat constructor. exists "hello". vm_compute. repeat split; reflexivity.
  - exists w'. split; [exact H1|]. rewrite H2. vm_compute. reflexivity.
Defined.

(** X9: every file in the failure list of an attempt is on disk after the
    attempt, so the code sent to the producer is, for each failing file,
    the text read back from disk, decoded by the locale and with its line
    ends translated; the proposed payload is never sent in its place. *)
Theorem broken_code_is_read_from_disk sys self N r changes w w1 errs :
  Run.attempt sys self N r changes w = Run.Normal (w1, errs) ->
  Forall (fun fe => is_Some (fs w1 !! Run.node sys (full_path self (fst fe)))) errs
  /\ forall code,
       Run.current_broken_code sys self w1 changes errs [] = Run.Normal code ->
       (forall f, In f (Dict.keys code) <-> In f (map fst errs))
       /\ Forall (fun kv =>
                    exists stored,
                      fs w1 !! Run.node sys (full_path self (fst kv)) = Some stored
                      /\ snd kv
                         = PyStr (Str.universal_newlines (Run.locale_text sys stored)))
            code.
Proof.
  intros A.
  destruct (attempt_spec _ _ _ _ _ _ _ _ A) as (evs & _ & _ & _ & _ & _ & _ & _ & _ & _ & Hdisk).
  split; [exact Hdisk|]. intros code Hc. exact (broken_code_on_disk _ _ _ _ _ _ _ _ _ A Hc).
Qed.

Lemma broken_code_is_read_from_disk_witness :
  exists w1 errs,
    Run.attempt MoreInputs.plain Inputs.demo 3 0 Inputs.good_and_bad Inputs.empty_world
    = Run.Normal (w1, errs)
    /\ Forall (fun fe =>
                 is_Some (fs w1 !! Run.node MoreInputs.plain
                                     (full_path Inputs.demo (fst fe)))) errs.
Proof.
  eexists _, _. split; [vm_compute; reflexivity|].
  destruct (broken_code_is_read_from_disk MoreInputs.plain Inputs.demo 3 0
              Inputs.good_and_bad Inputs.empty_world _ _ eq_refl) as [H _].
  exact H.
Defined.

(** X10: in a session with a non-empty ChangeSet and a budget of at least
    one attempt, the producer is asked for fixes after an attempt and
    before the next one only: when the session ends, by returning or with
    an exception, no more requests than attempts are made and at most one
    attempt more than requests; when it returns, it has made one request
    less than attempts, so at most [max_retries - 1]. *)
Theorem one_request_per_failed_attempt sys self N changes w :
  changes <> [] ->
  1 <= N ->
  exists res,
    Run.validate_and_fix_with sys self N changes w = Some res
    /\ requests_made (Run.trace w res) <= attempts_made (Run.trace w res)
    /\ attempts_made (Run.trace w res) <= requests_made (Run.trace w res) + 1
    /\ attempts_made (Run.trace w res) <= N
    /\ forall b w',
         res = Run.Normal (b, w') ->
         requests_made (new_events w w') + 1 = attempts_made (new_events w w')
         /\ requests_made (new_events w w') <= N - 1.
Proof.
  intros Hne HN.
  destruct (retry_loop_spec sys self N (S N) 0 changes w)
    as (res & evs & Hrun & Hout & Hle & Hra & Hcount & Hnormal); [lia|].
  exists res.
  assert (Htrace : Run.trace w res = evs).
  { unfold Run.trace. rewrite Hout. apply drop_app_length. }
  rewrite Htrace. rewrite Nat.max_0_r in Hle. simpl in Hle.
  split; [unfold Run.validate_and_fix_with; destruct changes; [congruence|exact Hrun]|].
  split; [exact Hra|]. split; [apply Hcount; lia|]. split; [exact Hle|].
  intros b w' ->. destruct (Hnormal b w' eq_refl) as (_ & _ & _ & _ & Heq & _).
  simpl in Hout. rewrite (new_events_app _ _ _ Hout). specialize (Heq ltac:(lia)). lia.
Qed.

Lemma one_request_per_failed_attempt_witness :
  exists res,
    Run.validate_and_fix MoreInputs.offline Inputs.stubborn Inputs.good_and_bad
      Inputs.empty_world = Some res
    /\ requests_made (Run.trace Inputs.empty_world res)
       <= attempts_made (Run.trace Inputs.empty_world res).
Proof.
  destruct (one_request_per_failed_attempt MoreInputs.offline Inputs.stubborn 3
              Inputs.good_and_bad Inputs.empty_world) as (res & H1 & H2 & _).
  - discriminate.
  - lia.
  - exists res. split; [exact H1|exact H2].
Defined.

(** X11: a session that returns has changed the files only by the writes
    it reports, in their order, and the index only by the files it reports
    as staged; it has removed no file. *)
Theorem files_change_only_by_reported_writes sys self N changes w b w' :
  Run.validate_and_fix_with sys self N changes w = Some (Run.Normal (b, w')) ->
  fs w' = Run.replay sys (new_events w w') (fs w)
  /\ index w' = index w ++ staged (new_events w w')
  /\ forall p, is_Some (fs w !! p) -> is_Some (fs w' !! p).
Proof.
  unfold Run.validate_and_fix_with. destruct changes as [|c0 rest].
  - intros [= <- <-]. assert (E : new_events w w = []).
    { apply new_events_app. symmetry. apply List.app_nil_r. }
    rewrite E. simpl. rewrite List.app_nil_r. repeat split; trivial.
  - intros Hrun.
    destruct (retry_loop_spec sys self N (S N) 0 (c0 :: rest) w)
      as (res & evs & Hrun' & Hout & _ & _ & _ & Hnormal); [lia|].
    rewrite Hrun in Hrun'. injection Hrun' as <-.
    destruct (Hnormal b w' eq_refl) as (_ & _ & Hfs & Hidx & _).
    simpl in Hout. rewrite (new_events_app _ _ _ Hout).
    split; [exact Hfs|]. split; [exact Hidx|].
    intros p Hp. rewrite Hfs. apply replay_keeps, Hp.
Qed.

Lemma files_change_only_by_reported_writes_witness :
  exists w',
    Run.validate_and_fix MoreInputs.dotted Inputs.demo
      [("a.txt", PyStr "first"); ("./a.txt", PyStr "second")] Inputs.empty_world
    = Some (Run.Normal (true, w'))
    /\ fs w' = Run.replay MoreInputs.dotted (new_events Inputs.empty_world w') ∅.
Proof.
  eexists. split; [vm_compute; reflexivity|].
  apply (files_change_only_by_reported_writes MoreInputs.dotted Inputs.demo 3
           [("a.txt", PyStr "first"); ("./a.txt", PyStr "second")] Inputs.empty_world true).
  vm_compute. reflexivity.
Defined.

(** X12: content without the start marker is in its file, as it is, after
    an attempt that does not raise, whether its validation passes or
    fails, unless a later entry of the ChangeSet leads to the same file. *)
Theorem last_entry_for_a_path_is_on_disk sys self N r before filename s after w w1 errs :
  Str.contains Regex.SEARCH_MARKER s = false ->
  Forall (fun entry =>
            Run.node sys (full_path self (fst entry))
            <> Run.node sys (full_path self filename)) after ->
  Run.attempt sys self N r (before ++ (filename, PyStr s) :: after) w = Run.Normal (w1, errs) ->
  fs w1 !! Run.node sys (full_path self filename) = Some s.
Proof.
  intros Hplain Hafter. unfold Run.attempt.
  generalize (emit (Attempt (r + 1) N) w, @nil (string * string)).
  induction before as [|entry before IH]; intros acc H.
  - cbn [Run.apply_changes app] in H.
    destruct (Run.process_entry sys self acc (filename, PyStr s)) as [[w2 errs2]|c o] eqn:E;
      [|discriminate].
    assert (F : fs w2 !! Run.node sys (full_path self filename) = Some s).
    { destruct acc as [w0 errs0].
      destruct (process_entry_events _ _ _ _ _ (PyStr s) s _ _ E eq_refl)
        as [(pe & RP & _)|[(m & RP & _)|(text & W & RP & _ & Hfs & _)]];
        rewrite (resolve_patch_plain _ _ _ _ Hplain) in RP; [discriminate|discriminate|].
      injection RP as <-. rewrite Hfs. apply lookup_insert_eq. }
    clear E. revert w2 errs2 F H.
    induction Hafter as [|[g content] after Hg _ IHa]; intros w2 errs2 F H.
    + cbn [Run.apply_changes] in H. injection H as <- <-. exact F.
    + cbn [Run.apply_changes app] in H.
      destruct (Run.process_entry sys self (w2, errs2) (g, content)) as [[w3 errs3]|c o] eqn:E;
        [|discriminate].
      apply (IHa w3 errs3); [|exact H].
      destruct (process_entry_spec _ _ _ _ _ _ _ _ E)
        as (_ & _ & _ & _ & _ & _ & _ & _ & _ & _ & _ & _ & Hfs & _).
      destruct Hfs as [->|[text ->]]; [exact F|].
      rewrite lookup_insert_ne by exact Hg. exact F.
  - cbn [Run.apply_changes app] in H.
    destruct (Run.process_entry sys self acc entry) as [acc'|c o]; [|discriminate].
    exact (IH acc' H).
Qed.

Lemma last_entry_for_a_path_is_on_disk_witness :
  exists w1 errs,
    Run.attempt MoreInputs.dotted Inputs.demo 3 0
      [("a.txt", PyStr "first"); ("./a.txt", PyStr "second")] Inputs.empty_world
    = Run.Normal (w1, errs)
    /\ fs w1 !! "workdir/a.txt" = Some "second".
Proof.
  eexists _, _. split; [vm_compute; reflexivity|].
  apply (last_entry_for_a_path_is_on_disk MoreInputs.dotted Inputs.demo 3 0
           [("a.txt", PyStr "first")] "./a.txt" "second" [] Inputs.empty_world _ []).
  - vm_compute. reflexivity.
  - constructor.
  - vm_compute. reflexivity.
Defined.

(** X17: the write of a file is not guarded: when it raises, in the first
    entry of the first attempt, the session ends there with the exception;
    nothing is recorded as a failure, no fix is requested and no answer is
    returned. *)
Theorem write_error_ends_the_session sys self N f s rest w :
  1 <= N ->
  Str.contains Regex.SEARCH_MARKER s = false ->
  Run.raises sys (Run.Makedirs (Run.os_path_dirname sys (full_path self f)))
    (out w ++ [Attempt 1 N; Processing f]) = false ->
  Run.raises sys (Run.WriteFile (full_path self f) s)
    (out w ++ [Attempt 1 N; Processing f; Writing f (full_path self f) s]) = true ->
  Run.validate_and_fix_with sys self N ((f, PyStr s) :: rest) w
  = Some (Run.Exception (Run.WriteFile (full_path self f) s)
            (out w ++ [Attempt 1 N; Processing f; Writing f (full_path self f) s])).
Proof.
  intros HN Hplain Hdir Hwrite. unfold Run.validate_and_fix_with.
  cbn [Run.retry_loop]. destruct (Nat.ltb_spec 0 N) as [_|]; [|lia].
  unfold Run.attempt. cbn [Run.apply_changes]. change (0 + 1) with 1.
  assert (E : Run.process_entry sys self (emit (Attempt 1 N) w, []) (f, PyStr s)
              = Run.Exception (Run.WriteFile (full_path self f) s)
                  (out w ++ [Attempt 1 N; Processing f; Writing f (full_path self f) s])).
  { unfold Run.process_entry, full_path in *. simpl out.
    rewrite <- !List.app_assoc. simpl app. rewrite Hdir, andb_false_r.
    change (resolve_content (PyStr s)) with (FinalContent s). cbv iota.
    rewrite (resolve_patch_plain _ _ _ _ Hplain). unfold Run.write_and_check. simpl out.
    rewrite <- !List.app_assoc. simpl app. rewrite Hwrite. reflexivity. }
  rewrite E. reflexivity.
Qed.

Lemma write_error_ends_the_session_witness :
  Run.validate_and_fix_with MoreInputs.sub_is_a_directory Inputs.demo 3
    [("sub", PyStr "hello")] Inputs.empty_world
  = Some (Run.Exception (Run.WriteFile "workdir/sub" "hello")
            [Attempt 1 3; Processing "sub"; Writing "sub" "workdir/sub" "hello"]).
Proof.
  apply (write_error_ends_the_session MoreInputs.sub_is_a_directory Inputs.demo 3 "sub" "hello"
           [] Inputs.empty_world).
  - lia.
  - vm_compute. reflexivity.
  - vm_compute. reflexivity.
  - vm_compute. reflexivity.
Defined.



(** X19: a patch for a file that is there and is not UTF-8 text is not
    applied: the [UnicodeDecodeError] of the reading is a [ValueError],
    so the entry is a failing file with the text of that error, nothing is
    written and the attempt goes on. *)
Theorem undecodable_file_is_a_failing_file sys self w errs f s stored m :
  Str.contains Regex.SEARCH_MARKER s = true ->
  fs w !! Run.node sys (full_path self f) = Some stored ->
  Run.raises sys (Run.Makedirs (Run.os_path_dirname sys (full_path self f)))
    (out w ++ [Processing f]) = false ->
  Run.raises sys (Run.ReadOriginal (full_path self f)) (out w ++ [Processing f]) = false ->
  Run.undecodable sys (full_path self f) (out w ++ [Processing f]) = Some m ->
  Run.process_entry sys self (w, errs) (f, PyStr s)
  = Run.Normal (emit (ReadError f m) (emit (Processing f) w),
                errs ++ [(f, "Diff Application Error: " +:+ m)]).
Proof.
  intros Hmark Hfile Hdir Hr Hd. unfold Run.process_entry, full_path in *. simpl out.
  rewrite Hdir, andb_false_r.
  change (resolve_content (PyStr s)) with (FinalContent s). cbv iota.
  rewrite (resolve_patch_undecodable _ _ _ _ stored m Hmark); auto.
Qed.

Lemma undecodable_file_is_a_failing_file_witness :
  Run.process_entry MoreInputs.notes_in_latin1 Inputs.demo
    (MoreInputs.world_with_latin1_file, []) ("notes.txt", PyStr MoreInputs.x_to_z)
  = Run.Normal
      (emit (ReadError "notes.txt" MoreInputs.not_utf8)
         (emit (Processing "notes.txt") MoreInputs.world_with_latin1_file),
       [] ++ [("notes.txt", "Diff Application Error: " +:+ MoreInputs.not_utf8)]).
Proof.
  apply (undecodable_file_is_a_failing_file MoreInputs.notes_in_latin1 Inputs.demo
           MoreInputs.world_with_latin1_file [] "notes.txt" MoreInputs.x_to_z
           (String "233" (String "t" (String "233" EmptyString))) MoreInputs.not_utf8).
  - vm_compute. reflexivity.
  - vm_compute. reflexivity.
  - vm_compute. reflexivity.
  - vm_compute. reflexivity.
  - vm_compute. reflexivity.
Defined.

End SessionOnAnySystem.

(** ** Facts about the repository map *)

Module RepoMapFacts.
Import RepoMap.

Lemma weight_app a b : weight (a ++ b) = weight a + weight b.
Proof. unfold weight. induction a as [|x a IH]; simpl; [reflexivity|]. rewrite IH. lia. Qed.

(** The joined lines have one character less than [total_chars] counts. *)
Lemma concat_weight lines :
  String.length (String.concat Regex.NL lines) <= weight lines - 1.
Proof.
  assert (G : forall x l,
            String.length (String.concat Regex.NL (x :: l)) + 1 = weight (x :: l)).
  { intros x l. revert x. induction l as [|y l IH]; intros x.
    - simpl. lia.
    - change (String.concat Regex.NL (x :: y :: l))
        with (x +:+ Regex.NL +:+ String.concat Regex.NL (y :: l)).
      rewrite !StrFacts.length_app. specialize (IH y). simpl in *. lia. }
  destruct lines as [|x l]; [simpl; lia|]. specialize (G x l). lia.
Qed.

Lemma has_suffix_app x suf : Str.has_suffix suf (x +:+ suf) = true.
Proof.
  unfold Str.has_suffix. rewrite StrFacts.length_app.
  replace (String.length x + String.length suf - String.length suf) with (String.length x) by lia.
  rewrite StrFacts.drop_app_length, String.eqb_refl.
  destruct (Nat.leb_spec (String.length suf) (String.length x + String.length suf)); [reflexivity|lia].
Qed.

Lemma list_files_fits summary max_chars root sub_indent files : forall p,
  counted max_chars p ->
  match list_files summary max_chars root sub_indent files p with
  | Goes p' => counted max_chars p'
  | Stops lines => fits max_chars lines
  end.
Proof.
  induction files as [|f rest IH]; intros p [Hw Hle]; [split; assumption|].
  simpl list_files.
  assert (Hw1 : total_chars (append_line (sub_indent +:+ f) p)
                = weight (repo_map (append_line (sub_indent +:+ f) p)))
    by (simpl; rewrite weight_app; simpl; lia).
  destruct (Nat.ltb_spec max_chars (total_chars p + String.length (sub_indent +:+ f) + 1))
    as [Hover|Hin].
  - exists (repo_map p), [sub_indent +:+ f; sub_indent +:+ "... (Truncated)"].
    split; [rewrite <- List.app_assoc; reflexivity|]. split; [lia|]. right.
    exists (sub_indent +:+ "... (Truncated)"). split; [|right; eauto].
    unfold is_notice. rewrite (has_suffix_app sub_indent "... (Truncated)").
    rewrite orb_true_r. reflexivity.
  - destruct (Str.has_suffix ".py" f); [|apply IH; split; [exact Hw1|simpl; lia]].
    destruct (Service.truthy (summary (Inputs.posix_join root f)));
      [|apply IH; split; [exact Hw1|simpl; lia]].
    destruct (Nat.ltb_spec max_chars
                (total_chars p + String.length (sub_indent +:+ f) + 1
                 + String.length (summary (Inputs.posix_join root f)))) as [Hover|Hfit].
    + exists (repo_map p ++ [sub_indent +:+ f]), [sub_indent +:+ "  (Summary truncated)"].
      split; [reflexivity|]. split; [simpl in Hw1; lia|]. right.
      exists (sub_indent +:+ "  (Summary truncated)"). split; [|left; reflexivity].
      unfold is_notice. rewrite (has_suffix_app sub_indent "  (Summary truncated)").
      rewrite orb_true_r. reflexivity.
    + apply IH. split; simpl; [rewrite !weight_app; simpl; lia|lia].
Qed.

Lemma list_dirs_fits summary max_chars root_dir walked : forall p,
  counted max_chars p ->
  match list_dirs summary max_chars root_dir walked p with
  | Goes p' => counted max_chars p'
  | Stops lines => fits max_chars lines
  end.
Proof.
  induction walked as [|[root files] rest IH]; intros p [Hw Hle]; [split; assumption|].
  cbn [list_dirs].
  set (level := Str.count "/" (replace_all root_dir EmptyString root)).
  set (dir_line := spaces (4 * level) +:+ basename root +:+ "/").
  assert (Hw1 : total_chars (append_line dir_line p) = weight (repo_map (append_line dir_line p)))
    by (simpl; rewrite weight_app; simpl; lia).
  destruct (Nat.ltb_spec max_chars (total_chars (append_line dir_line p))) as [Hover|Hin].
  - exists (repo_map p), [dir_line; spaces (4 * level) +:+ "... (Truncated due to size limit)"].
    split; [simpl; rewrite <- List.app_assoc; reflexivity|]. split; [simpl in Hover; lia|]. right.
    exists (spaces (4 * level) +:+ "... (Truncated due to size limit)"). split; [|right; eauto].
    unfold is_notice.
    rewrite (has_suffix_app (spaces (4 * level)) "... (Truncated due to size limit)").
    reflexivity.
  - pose proof (list_files_fits summary max_chars root (spaces (4 * (level + 1))) files
                  (append_line dir_line p)) as Hfiles.
    destruct (list_files summary max_chars root (spaces (4 * (level + 1))) files
                (append_line dir_line p)) as [p'|lines].
    + apply IH. apply Hfiles. split; [exact Hw1|lia].
    + apply Hfiles. split; [exact Hw1|lia].
Qed.

End RepoMapFacts.

(** ** The context given to the producer *)

Section ProducerContext.
Import Service Session Feedback RepoMap.

(** The repository's tests of [generate_repo_map], with a summary of one
    function for every Python file. *)
Example test_generate_repo_map_truncated :
  Str.contains "truncated"
    (generate_repo_map (fun _ => "    def foo():") "/root" default_ignore_dirs 50
       MoreInputs.three_python_files) = true
  /\ Str.contains "file3.py"
       (generate_repo_map (fun _ => "    def foo():") "/root" default_ignore_dirs 50
          MoreInputs.three_python_files) = false.
Proof. vm_compute. split; reflexivity. Qed.

(** X14: the feedback history is built from the last three comments only:
    older comments do not change it, and each of the three is given with
    its author, the three separated by an empty line. *)
Theorem feedback_history_window older recent :
  List.length recent = 3 ->
  get_feedback_history (older ++ recent) = get_feedback_history recent
  /\ get_feedback_history recent
     = String.concat (Regex.NL +:+ Regex.NL)
         (map (fun c => "--- Comment by " +:+ login c +:+ " ---" +:+ Regex.NL +:+ body c)
            recent).
Proof.
  intros H3.
  assert (L : forall pre, last_three (pre ++ recent) = recent).
  { intros pre. unfold last_three. rewrite List.length_app, H3.
    replace (List.length pre + 3 - 3) with (List.length pre) by lia. apply drop_app_length. }
  unfold get_feedback_history. rewrite L. pose proof (L []) as L0. simpl in L0. rewrite L0.
  destruct recent as [|c recent]; [discriminate H3|].
  destruct (older ++ c :: recent) eqn:E; [destruct older; discriminate E|].
  split; reflexivity.
Qed.

Lemma feedback_history_window_witness :
  get_feedback_history MoreInputs.four_comments
  = get_feedback_history (drop 1 MoreInputs.four_comments).
Proof.
  apply (feedback_history_window (take 1 MoreInputs.four_comments)
           (drop 1 MoreInputs.four_comments)).
  reflexivity.
Defined.

(** X15: the map respects [max_chars] up to its last lines: all lines but
    at most the last two have together no more than [max_chars]
    characters, and when there are lines beyond these the last one says
    that the map was cut; a map without such a notice is within the limit
    (lengths are counted in characters of the model). *)
Theorem repo_map_fits_budget get_python_summary root_dir ignore_dirs max_chars t :
  exists kept extra,
    generate_repo_map get_python_summary root_dir ignore_dirs max_chars t
    = String.concat Regex.NL (kept ++ extra)
    /\ String.length (String.concat Regex.NL kept) <= max_chars
    /\ (extra = []
        \/ exists notice,
             is_notice notice = true /\ (extra = [notice] \/ exists line, extra = [line; notice])).
Proof.
  unfold generate_repo_map, map_lines.
  pose proof (RepoMapFacts.list_dirs_fits get_python_summary max_chars root_dir
                (os_walk (fun d => negb (existsb (String.eqb d) ignore_dirs)) root_dir t)
                {| repo_map := []; total_chars := 0 |}) as H.
  destruct (list_dirs _ _ _ _ _) as [p|lines].
  - destruct H as [Hw Hle]; [split; simpl; lia|].
    exists (repo_map p), []. rewrite List.app_nil_r. split; [reflexivity|].
    split; [|left; reflexivity].
    pose proof (RepoMapFacts.concat_weight (repo_map p)). lia.
  - destruct H as (kept & extra & -> & Hk & Hextra); [split; simpl; lia|].
    exists kept, extra. split; [reflexivity|]. split; [|exact Hextra].
    pose proof (RepoMapFacts.concat_weight kept). lia.
Qed.

(** X16: [MockLLMClient.fix_code] does not fail on the code that
    [validate_and_fix] gathers after an attempt: every value is a string,
    the text of a failing file as it is read back, and the answer has the
    same files, each with that text followed by the comment of the mock. *)
Theorem mock_fix_answers_for_every_failing_file sys self N r changes w w1 errs code feedback :
  Run.attempt sys self N r changes w = Run.Normal (w1, errs) ->
  Run.current_broken_code sys self w1 changes errs [] = Run.Normal code ->
  exists fixed,
    Mock.fix_code code feedback = Some fixed
    /\ Dict.keys fixed = Dict.keys code
    /\ Forall (fun kv =>
                 exists stored,
                   fs w1 !! Run.node sys (full_path self (fst kv)) = Some stored
                   /\ snd kv
                      = PyStr (Str.universal_newlines (Run.locale_text sys stored)
                               +:+ Regex.NL +:+ "# Fixed based on feedback: "
                               +:+ Str.take 20 feedback +:+ "...")) fixed.
Proof.
  intros A Hc.
  destruct (RunFacts.broken_code_on_disk _ _ _ _ _ _ _ _ _ A Hc) as [_ H].
  clear A Hc.
  induction H as [|[k v] code (stored & Hdisk & Hv) _ (fixed & Hfix & Hkeys & Hall)].
  - exists []. repeat split; constructor.
  - simpl in Hv, Hdisk. subst v. simpl Mock.fix_code. rewrite Hfix. eexists.
    split; [reflexivity|]. split; [unfold Dict.keys in *; simpl; rewrite Hkeys; reflexivity|].
    constructor; [|exact Hall]. exists stored. split; [exact Hdisk|reflexivity].
Qed.

Lemma mock_fix_answers_for_every_failing_file_witness :
  exists fixed,
    Mock.fix_code [("b.py", PyStr "def bad(")] "SyntaxError" = Some fixed
    /\ Dict.keys fixed = ["b.py"].
Proof.
  destruct (mock_fix_answers_for_every_failing_file MoreInputs.plain Inputs.demo 3 0
              Inputs.good_and_bad Inputs.empty_world _ _ [("b.py", PyStr "def bad(")]
              "SyntaxError" eq_refl) as (fixed & H1 & H2 & _).
  - vm_compute. reflexivity.
  - exists fixed. split; [exact H1|exact H2].
Defined.

End ProducerContext.
